(** * pikapp-photos: the album pipeline and the gallery client

    A shallow embedding of [upload.sh], [reset-album.sh], [album-list.js]
    and [album-view.js], with the properties of the album-manifest
    consistency model stated over it.

    Conventions.
    - Shell strings are byte strings ([string]); character classes are the
      ones of the C locale, which is what [tr] applies to single bytes.
    - A directory is an association list from entry names to nodes, in the
      order in which the directory is enumerated ([find], [readdir]).
    - An album name given to a script is the name of an entry of
      [public/albums], a single path component.
    - Commands that can fail return a [result]; a failure under [set -e]
      ends the script and keeps the file system as it was at that point.
      A command fails where the kinds of the entries it meets make it fail;
      [ffmpeg] can fail on any input.
    - [ffmpeg], the escapes of [echo -e], [Date.parse] and the order that
      [Array.prototype.sort] leaves are parameters; what the properties need
      of them is stated where it is needed.
    - A JSON document is a value of [json]; of the numbers it has the
      integers that a double holds exactly. The link from a text to its
      value is the relation [json_text], which covers the texts that the
      scripts write.
    - The text of [album-list.js] is the one carried at the end of
      [NSS-STYLEGUIDE.md]. *)

From Stdlib Require Import List String Ascii Bool Arith Lia ZArith.
From Stdlib Require Import Permutation Sorted.
From Stdlib Require Import Numbers.DecimalString Numbers.DecimalNat.
Import ListNotations.

Local Open Scope list_scope.
Local Open Scope string_scope.

(** ** Bytes and strings as the shell sees them *)

Module Str.

Definition nl : ascii := ascii_of_nat 10.

Definition in_range (lo hi : nat) (c : ascii) : bool :=
  Nat.leb lo (nat_of_ascii c) && Nat.leb (nat_of_ascii c) hi.

Definition is_upper (c : ascii) : bool := in_range 65 90 c.
Definition is_lower (c : ascii) : bool := in_range 97 122 c.
Definition is_digit (c : ascii) : bool := in_range 48 57 c.
Definition is_alnum (c : ascii) : bool := is_upper c || is_lower c || is_digit c.

(** [[:space:]] of the C locale: space, \t, \n, \v, \f, \r. *)
Definition is_space (c : ascii) : bool :=
  Nat.eqb (nat_of_ascii c) 32 || in_range 9 13 c.

Definition to_lower (c : ascii) : ascii :=
  if is_upper c then ascii_of_nat (nat_of_ascii c + 32) else c.

Fixpoint smap (f : ascii -> ascii) (s : string) : string :=
  match s with
  | EmptyString => EmptyString
  | String c r => String (f c) (smap f r)
  end.

Fixpoint sfilter (p : ascii -> bool) (s : string) : string :=
  match s with
  | EmptyString => EmptyString
  | String c r => if p c then String c (sfilter p r) else sfilter p r
  end.

Fixpoint sforall (p : ascii -> bool) (s : string) : bool :=
  match s with
  | EmptyString => true
  | String c r => p c && sforall p r
  end.

Fixpoint contains_char (c : ascii) (s : string) : bool :=
  match s with
  | EmptyString => false
  | String a r => Ascii.eqb a c || contains_char c r
  end.

Definition lower (s : string) : string := smap to_lower s.

(** [has_suffix suf s]: some tail of [s] is [suf]. *)
Fixpoint has_suffix (suf s : string) : bool :=
  String.eqb s suf ||
  match s with
  | EmptyString => false
  | String _ r => has_suffix suf r
  end.

(** [${s%%c*}]: drop the longest suffix that starts with [c]. *)
Fixpoint before_first (c : ascii) (s : string) : string :=
  match s with
  | EmptyString => EmptyString
  | String a r => if Ascii.eqb a c then EmptyString else String a (before_first c r)
  end.

(** [${s##*c}]: drop the longest prefix that ends with [c]. *)
Fixpoint after_last (c : ascii) (s : string) : string :=
  match s with
  | EmptyString => EmptyString
  | String a r =>
      if contains_char c r then after_last c r
      else if Ascii.eqb a c then r else String a r
  end.

(** Command substitution [$(...)] drops every trailing newline. *)
Fixpoint cmd_subst (out : string) : string :=
  match out with
  | EmptyString => EmptyString
  | String a r =>
      let r' := cmd_subst r in
      if Ascii.eqb a nl && String.eqb r' EmptyString then EmptyString
      else String a r'
  end.

(** Decimal rendering of a shell integer ([$index], [${#array[@]}]). *)
Definition dec (n : nat) : string := NilEmpty.string_of_uint (Nat.to_uint n).

(** *** The [echo] builtin

    [echo] takes a first argument made of [-] and one or more of [n], [e],
    [E] as options and prints nothing of it. *)
Definition is_echo_flag (c : ascii) : bool :=
  Ascii.eqb c "n" || Ascii.eqb c "e" || Ascii.eqb c "E".

Definition is_echo_option (arg : string) : bool :=
  match arg with
  | String "-" (String c r) => is_echo_flag c && sforall is_echo_flag r
  | _ => false
  end.

Definition echo (arg : string) : string :=
  if is_echo_option arg then
    if contains_char "n" arg then EmptyString else String nl EmptyString
  else arg ++ String nl EmptyString.

(** [tr '[:upper:]' '[:lower:]'], [tr ' ' '_'], [tr -cd '[:alnum:]_']. *)
Definition tr_upper_lower (s : string) : string := smap to_lower s.

Definition space_to_underscore (c : ascii) : ascii :=
  if Ascii.eqb c " " then "_"%char else c.

Definition tr_space_underscore (s : string) : string := smap space_to_underscore s.

Definition alnum_or_underscore (c : ascii) : bool := is_alnum c || Ascii.eqb c "_".

Definition tr_cd_alnum_underscore (s : string) : string := sfilter alnum_or_underscore s.

End Str.

Import Str.

(** ** upload.sh: [to_snake_case] *)

(** [echo "$1" | tr '[:upper:]' '[:lower:]' | tr ' ' '_' | tr -cd '[:alnum:]_'],
    as called in [snake_album_name=$(to_snake_case "$album_name")]. *)
Definition to_snake_case (s : string) : string :=
  cmd_subst (tr_cd_alnum_underscore (tr_space_underscore (tr_upper_lower (echo s)))).

(** The normalisation in the words of the specification: lowercase, collapse
    each run of whitespace to one underscore, strip what is neither
    alphanumeric nor underscore. *)
Fixpoint collapse_whitespace (in_run : bool) (s : string) : string :=
  match s with
  | EmptyString => EmptyString
  | String c r =>
      if is_space c then
        if in_run then collapse_whitespace true r
        else String "_" (collapse_whitespace true r)
      else String c (collapse_whitespace false r)
  end.

Definition spec_normalize (displayName : string) : string :=
  sfilter alnum_or_underscore (collapse_whitespace false (lower displayName)).

(** What the pipeline of [to_snake_case] computes on the text it is given. *)
Definition snake_pipeline (s : string) : string :=
  sfilter alnum_or_underscore (smap space_to_underscore (smap to_lower s)).

(** ** The file system *)

#[warnings="-register-all"]
Inductive node : Type :=
| File (content : string)
| Dir (entries : list (string * node)).

Definition dir : Type := list (string * node).

(** How a script can end before its last line. *)
Inductive failure : Type :=
| MkdirFailed | CpFailed | FfmpegFailed | RmFailed | RedirectFailed | MvFailed
| AlbumNotFound | NoFullDirectory.

Inductive result (St A : Type) : Type :=
| Ok (a : A)
| Died (why : failure) (st : St).

Arguments Ok {St A} a.
Arguments Died {St A} why st.

Module FS.

Fixpoint lookup (name : string) (d : dir) : option node :=
  match d with
  | [] => None
  | (k, n) :: r => if String.eqb k name then Some n else lookup name r
  end.

(** Writing an entry replaces the one of that name where it stands, or adds
    a new entry at the end of the enumeration. *)
Fixpoint set_entry (name : string) (n : node) (d : dir) : dir :=
  match d with
  | [] => [(name, n)]
  | (k, m) :: r =>
      if String.eqb k name then (k, n) :: r else (k, m) :: set_entry name n r
  end.

Definition remove_entry (name : string) (d : dir) : dir :=
  filter (fun e => negb (String.eqb (fst e) name)) d.

(** [[ -f path ]] and [[ -d path ]]. *)
Definition is_file (o : option node) : bool :=
  match o with Some (File _) => true | _ => false end.

Definition is_dir (o : option node) : bool :=
  match o with Some (Dir _) => true | _ => false end.

(** Pathname expansion of [*]: the entries whose name does not start with a
    dot, sorted by name (byte order, the collation of the C locale). *)
Definition hidden (name : string) : bool :=
  match name with
  | String "." _ => true
  | _ => false
  end.

Fixpoint insert_by_name (e : string * node) (l : dir) : dir :=
  match l with
  | [] => [e]
  | x :: r =>
      if String.leb (fst e) (fst x) then e :: l else x :: insert_by_name e r
  end.

Definition sort_by_name (d : dir) : dir := fold_right insert_by_name [] d.

Definition glob_star (d : dir) : dir :=
  sort_by_name (filter (fun e => negb (hidden (fst e))) d).

(** [find dir -type f | wc -l]: the regular files at any depth. *)
Fixpoint count_files (n : node) : nat :=
  match n with
  | File _ => 1
  | Dir es =>
      (fix go (l : list (string * node)) : nat :=
         match l with
         | [] => 0
         | (_, m) :: r => count_files m + go r
         end) es
  end.

(** [mkdir -p]. *)
Definition mkdir_p (name : string) (d : dir) : option dir :=
  match lookup name d with
  | None => Some (set_entry name (Dir []) d)
  | Some (Dir _) => Some d
  | Some (File _) => None
  end.

(** A redirection [> name] opens the file with truncation before the command
    runs; the command then writes its output to it. *)
Inductive write_step : Type :=
| Truncate
| Append (chunk : string).

Definition apply_step (name : string) (s : write_step) (d : dir) : option dir :=
  match lookup name d, s with
  | Some (Dir _), _ => None
  | _, Truncate => Some (set_entry name (File EmptyString) d)
  | Some (File c), Append chunk => Some (set_entry name (File (c ++ chunk)) d)
  | None, Append _ => None
  end.

Fixpoint run_steps (name : string) (steps : list write_step) (d : dir) : option dir :=
  match steps with
  | [] => Some d
  | s :: r =>
      match apply_step name s d with
      | Some d' => run_steps name r d'
      | None => None
      end
  end.

Definition redirect (text : string) : list write_step := [Truncate; Append text].

(** The states of the directory that can be seen while the steps run: the
    one before, and the one after each step that succeeds. *)
Fixpoint visible_states (name : string) (steps : list write_step) (d : dir) : list dir :=
  match steps with
  | [] => [d]
  | s :: r =>
      d :: match apply_step name s d with
           | Some d' => visible_states name r d'
           | None => []
           end
  end.

Definition write_file (name text : string) (d : dir) : option dir :=
  run_steps name (redirect text) d.

End FS.

Import FS.

(** ** upload.sh *)

Module Upload.

Definition ALBUMS_DIR : string := "public/albums".

Definition NL : string := String nl EmptyString.

(** The double quote character of the JSON text. *)
Definition DQ : string := String (ascii_of_nat 34) EmptyString.

Definition quoted (s : string) : string := DQ ++ s ++ DQ.

(** [-iname "*.jpg" -o -iname "*.jpeg" -o -iname "*.png"] on an entry name. *)
Definition iname (suffix name : string) : bool := has_suffix suffix (lower name).

Definition is_photo_name (name : string) : bool :=
  iname ".jpg" name || iname ".jpeg" name || iname ".png" name.

(** [find "$album_path" -maxdepth 1 -type f \( ... \) -print0]: the regular
    files directly inside the album whose name matches, in enumeration order.
    A found path is [album_path] followed by the entry name. *)
Fixpoint find_photos (album : dir) : list string :=
  match album with
  | [] => []
  | (name, File _) :: r =>
      if is_photo_name name then name :: find_photos r else find_photos r
  | (_, Dir _) :: r => find_photos r
  end.

Record loop_state : Type := mk_loop_state {
  st_album : dir;
  st_index : nat;
  st_photo_data : list string
}.

(** The outcome of [process_album] on the albums directory. *)
Inductive outcome : Type :=
| Processed (albums : dir) (photo_count : nat)
| NoPhotos (albums : dir)
| Aborted (why : failure) (albums : dir).

Section WithTools.

(** [ffmpeg -i in -vf "scale=iw*0.5:ih*0.5" -quality 85 out -y]: the bytes of
    the thumbnail for the bytes of the source, or a failure. *)
Variable ffmpeg : string -> option string.

(** What [echo -e] prints for its argument. *)
Variable echo_e : string -> string.

(** [cp "$photo" "${album_path}full/${original_filename}"]. *)
Definition cp_to_full (photo original_filename : string) (album : dir) : option dir :=
  match lookup photo album, lookup "full" album with
  | Some (File c), Some (Dir full) =>
      match lookup original_filename full with
      | Some (Dir sub) =>
          match lookup photo sub with
          | Some (Dir _) => None
          | _ =>
              Some (set_entry "full"
                      (Dir (set_entry original_filename
                              (Dir (set_entry photo (File c) sub)) full)) album)
          end
      | _ =>
          Some (set_entry "full" (Dir (set_entry original_filename (File c) full)) album)
      end
  | _, _ => None
  end.

(** [ffmpeg -i "$photo" ... "${album_path}low/${webp_filename}" -y]. *)
Definition ffmpeg_to_low (photo webp_filename : string) (album : dir) : option dir :=
  match lookup photo album, lookup "low" album with
  | Some (File c), Some (Dir low) =>
      match lookup webp_filename low, ffmpeg c with
      | Some (Dir _), _ => None
      | _, Some thumb =>
          Some (set_entry "low" (Dir (set_entry webp_filename (File thumb) low)) album)
      | _, None => None
      end
  | _, _ => None
  end.

(** [rm "$photo"]. *)
Definition rm_file (photo : string) (album : dir) : option dir :=
  match lookup photo album with
  | Some (File _) => Some (remove_entry photo album)
  | _ => None
  end.

(** The body of [for photo in "${photo_files[@]}"]. *)
Definition process_photo (album_path snake_album_name : string)
    (st : loop_state) (photo : string) : result dir loop_state :=
  let extension := after_last "." (album_path ++ photo) in
  let extension_lower := cmd_subst (tr_upper_lower (echo extension)) in
  let base_name := snake_album_name ++ "_" ++ dec (st_index st) in
  let original_filename := base_name ++ "." ++ extension_lower in
  let webp_filename := base_name ++ ".webp" in
  let entry := webp_filename ++ ":" ++ extension_lower in
  let photo_data := List.app (st_photo_data st) [entry] in
  match cp_to_full photo original_filename (st_album st) with
  | None => Died CpFailed (st_album st)
  | Some a1 =>
      match ffmpeg_to_low photo webp_filename a1 with
      | None => Died FfmpegFailed a1
      | Some a2 =>
          match rm_file photo a2 with
          | None => Died RmFailed a2
          | Some a3 => Ok (mk_loop_state a3 (st_index st + 1) photo_data)
          end
      end
  end.

Fixpoint process_photos (album_path snake_album_name : string)
    (photo_files : list string) (st : loop_state) : result dir loop_state :=
  match photo_files with
  | [] => Ok st
  | photo :: rest =>
      match process_photo album_path snake_album_name st photo with
      | Ok st' => process_photos album_path snake_album_name rest st'
      | Died why a => Died why a
      end
  end.

(** One element of the [photos] array, from a ["webp_name:extension"] entry. *)
Definition photo_record (entry : string) : string :=
  "{" ++ quoted "webp" ++ ": " ++ quoted (before_first ":" entry) ++ ", "
      ++ quoted "ext" ++ ": " ++ quoted (after_last ":" entry) ++ "}".

(** [photos_json], with its [\n] still to be expanded by [echo -e]. *)
Fixpoint photos_json_items (first : bool) (photo_data : list string) : string :=
  match photo_data with
  | [] => EmptyString
  | entry :: rest =>
      (if first then "\n    " else ",\n    ") ++ photo_record entry
        ++ photos_json_items false rest
  end.

Definition photos_json (photo_data : list string) : string :=
  "[" ++ photos_json_items true photo_data ++ "\n  ]".

(** The here-document written to [data.json]. *)
Definition data_json (album_name photographer_name timestamp cover_photo_webp : string)
    (photo_data : list string) : string :=
  "{" ++ NL
  ++ "  " ++ quoted "name" ++ ": " ++ quoted album_name ++ "," ++ NL
  ++ "  " ++ quoted "photographer" ++ ": " ++ quoted photographer_name ++ "," ++ NL
  ++ "  " ++ quoted "date" ++ ": " ++ quoted timestamp ++ "," ++ NL
  ++ "  " ++ quoted "coverPhoto" ++ ": " ++ quoted cover_photo_webp ++ "," ++ NL
  ++ "  " ++ quoted "photos" ++ ": " ++ cmd_subst (echo_e (photos_json photo_data)) ++ NL
  ++ "}" ++ NL.

(** [cover_photo_webp], from [$((RANDOM % ${#photo_data[@]}))]. *)
Definition cover_photo (random : nat) (photo_data : list string) : string :=
  before_first ":" (nth (random mod List.length photo_data) photo_data EmptyString).

(** Lines 119 to 189: what [process_album] does inside the album directory
    once it has found photos. *)
Definition process_album_dir (album_path album_name photographer_name timestamp : string)
    (random : nat) (album : dir) : result dir (dir * list string) :=
  let snake_album_name := to_snake_case album_name in
  let photo_files := find_photos album in
  match mkdir_p "low" album with
  | None => Died MkdirFailed album
  | Some a1 =>
      match mkdir_p "full" a1 with
      | None => Died MkdirFailed a1
      | Some a2 =>
          match process_photos album_path snake_album_name photo_files
                  (mk_loop_state a2 1 []) with
          | Died why a => Died why a
          | Ok st =>
              let photo_data := st_photo_data st in
              let text := data_json album_name photographer_name timestamp
                            (cover_photo random photo_data) photo_data in
              match write_file "data.json" text (st_album st) with
              | None => Died RedirectFailed (st_album st)
              | Some a3 => Ok (a3, photo_data)
              end
          end
      end
  end.

(** [mv "$album_path" "$new_album_path"] inside the albums directory. An
    existing directory of the new name receives the album as a subdirectory;
    an empty new name makes the albums directory itself the target. *)
Definition mv_album (src dst : string) (album : dir) (albums : dir) : option dir :=
  if String.eqb dst EmptyString then None
  else
    match lookup dst albums with
    | None => Some (List.app (remove_entry src albums) [(dst, Dir album)])
    | Some (File _) => None
    | Some (Dir target) =>
        match lookup src target with
        | None | Some (Dir []) =>
            Some (set_entry dst (Dir (set_entry src (Dir album) target))
                    (remove_entry src albums))
        | Some _ => None
        end
    end.

(** [process_album "$album_path"] for the entry [album_dir_name] of the albums
    directory, with the two lines read from the operator, the time stamp of
    [date -u] and the value of [$RANDOM]. *)
Definition process_album (albums : dir)
    (album_dir_name album_name photographer_name timestamp : string)
    (random : nat) : outcome :=
  let album_path := ALBUMS_DIR ++ "/" ++ album_dir_name ++ "/" in
  let snake_album_name := to_snake_case album_name in
  let album := match lookup album_dir_name albums with
               | Some (Dir a) => a
               | _ => []
               end in
  let photo_count := List.length (find_photos album) in
  if Nat.eqb photo_count 0 then NoPhotos albums
  else
    match process_album_dir album_path album_name photographer_name timestamp
            random album with
    | Died why a => Aborted why (set_entry album_dir_name (Dir a) albums)
    | Ok (a, _) =>
        let albums1 := set_entry album_dir_name (Dir a) albums in
        let new_album_path := ALBUMS_DIR ++ "/" ++ snake_album_name in
        if String.eqb album_path (new_album_path ++ "/") then
          Processed albums1 photo_count
        else
          match mv_album album_dir_name snake_album_name a albums1 with
          | None => Aborted MvFailed albums1
          | Some albums2 => Processed albums2 photo_count
          end
    end.

(** [generate_albums_manifest], on the contents of [public/]. *)
Fixpoint manifest_items (first : bool) (albums : list string) : string :=
  match albums with
  | [] => EmptyString
  | a :: rest =>
      (if first then "\n    " else ",\n    ") ++ quoted a ++ manifest_items false rest
  end.

Definition json_content (albums : list string) : string :=
  "{\n  " ++ quoted "albums" ++ ": [" ++ manifest_items true albums ++ "\n  ]\n}".

(** [$(basename "$album_dir")]. *)
Definition basename (name : string) : string := cmd_subst (name ++ NL).

(** The array [albums]: for each match of ["$ALBUMS_DIR"/*/], in the order of
    the expansion, the name of the directory if it holds a file [data.json]. *)
Fixpoint published_albums (entries : dir) : list string :=
  match entries with
  | [] => []
  | (name, Dir d) :: r =>
      if is_file (lookup "data.json" d) then basename name :: published_albums r
      else published_albums r
  | (_, File _) :: r => published_albums r
  end.

Definition manifest_albums (albums : dir) : list string :=
  published_albums (glob_star albums).

Definition generate_albums_manifest (pub : dir) : result dir dir :=
  match lookup "albums" pub with
  | Some (Dir albums) =>
      match write_file "albums.json" (echo_e (json_content (manifest_albums albums))) pub with
      | Some pub' => Ok pub'
      | None => Died RedirectFailed pub
      end
  | _ => Ok pub
  end.

(** The messages of [print_warning] and [print_success]. *)
Definition YELLOW : string := "\033[1;33m".
Definition GREEN : string := "\033[0;32m".
Definition NC : string := "\033[0m".

Definition print_warning (msg : string) : string :=
  echo_e (YELLOW ++ "[WARNING]" ++ NC ++ " " ++ msg).

Definition print_success (msg : string) : string :=
  echo_e (GREEN ++ "[SUCCESS]" ++ NC ++ " " ++ msg).

(** The values of [album_dir] that the loop of [find_uninitialized_albums]
    echoes: for each match of ["$ALBUMS_DIR"/*/], in the order of the
    expansion, the path of the directory if it holds no file [data.json]. *)
Fixpoint uninitialized (entries : dir) : list string :=
  match entries with
  | [] => []
  | (name, Dir d) :: r =>
      if is_file (lookup "data.json" d) then uninitialized r
      else (ALBUMS_DIR ++ "/" ++ name ++ "/") :: uninitialized r
  | (_, File _) :: r => uninitialized r
  end.

Fixpoint echo_each (args : list string) : string :=
  match args with
  | [] => EmptyString
  | a :: r => echo a ++ echo_each r
  end.

(** [find_uninitialized_albums], on the contents of [public/]: the state it
    leaves and what it writes on its output. A missing albums directory is
    created; where a file stands in its place [mkdir] fails. *)
Definition find_uninitialized_albums (pub : dir) : dir * string :=
  match lookup "albums" pub with
  | Some (Dir albums) => (pub, echo_each (uninitialized (glob_star albums)))
  | Some (File _) =>
      (pub, print_warning ("Albums directory not found: " ++ ALBUMS_DIR))
  | None =>
      (set_entry "albums" (Dir []) pub,
       print_warning ("Albums directory not found: " ++ ALBUMS_DIR)
       ++ print_success "Created albums directory")
  end.

End WithTools.

(** [deploy_to_nginx]: the albums it finds to upload, the directories with
    both [low/] and [full/]. *)
Fixpoint albums_to_upload (entries : dir) : list string :=
  match entries with
  | [] => []
  | (name, Dir d) :: r =>
      if is_dir (lookup "low" d) && is_dir (lookup "full" d)
      then basename name :: albums_to_upload r
      else albums_to_upload r
  | (_, File _) :: r => albums_to_upload r
  end.

Definition NGINX_SERVER : string := "pikapp-photos.ct-42210.com".
Definition NGINX_USER : string := "pikapp-photos".
Definition NGINX_PATH : string := "/var/www/pikapp-photos".

(** The two [rsync -avz --progress --delete] of an album, each as its source
    and its destination. *)
Definition rsync_album (album : string) : list (string * string) :=
  [(ALBUMS_DIR ++ "/" ++ album ++ "/low/",
    NGINX_USER ++ "@" ++ NGINX_SERVER ++ ":" ++ NGINX_PATH ++ "/" ++ album ++ "/low/");
   (ALBUMS_DIR ++ "/" ++ album ++ "/full/",
    NGINX_USER ++ "@" ++ NGINX_SERVER ++ ":" ++ NGINX_PATH ++ "/" ++ album ++ "/full/")].

(** The transfers of a list that are started: the script stops at the first
    [rsync] that fails. *)
Fixpoint started (rsync : string * string -> bool) (transfers : list (string * string))
  : list (string * string) :=
  match transfers with
  | [] => []
  | t :: r => if rsync t then t :: started rsync r else [t]
  end.

(** [deploy_to_nginx], on the contents of [public/]: the transfers it starts,
    in order, given whether [rsync] is installed, which transfers succeed and
    the answer to its prompt. *)
Definition deploy_to_nginx (rsync_installed : bool) (rsync : string * string -> bool)
    (pub : dir) (confirm_nginx : string) : list (string * string) :=
  if negb rsync_installed then []
  else
    let albums := match lookup "albums" pub with
                  | Some (Dir a) => a
                  | _ => []
                  end in
    match albums_to_upload (glob_star albums) with
    | [] => []
    | found =>
        if negb (String.eqb confirm_nginx "y") && negb (String.eqb confirm_nginx "Y")
        then []
        else started rsync (flat_map rsync_album found)
    end.

End Upload.

(** ** reset-album.sh *)

Module ResetAlbum.

Inductive outcome : Type :=
| ResetDone (albums : dir) (photo_count : nat)
| AlreadyOriginal (albums : dir)
| Cancelled (albums : dir) (photo_count : nat)
| ResetFailed (why : failure) (albums : dir).

(** Whether [mv] may put a source of kind [n] on the entry found under its
    name in the target directory: nothing there, a file over a file, a
    directory over an empty directory. *)
Definition may_replace (existing : option node) (n : node) : bool :=
  match existing, n with
  | None, _ => true
  | Some (File _), File _ => true
  | Some (Dir []), Dir _ => true
  | _, _ => false
  end.

(** [mv full/name album/] for one source of the expansion. *)
Definition mv_to_root (name : string) (n : node) (album : dir) : option dir :=
  if may_replace (lookup name album) n then
    match lookup "full" album with
    | Some (Dir full) =>
        Some (set_entry name n (set_entry "full" (Dir (remove_entry name full)) album))
    | _ => None
    end
  else None.

(** [mv src1 src2 ... album/]: every source is tried; the status tells
    whether all of them were moved. *)
Fixpoint mv_all (sources : dir) (album : dir) : dir * bool :=
  match sources with
  | [] => (album, true)
  | (name, n) :: rest =>
      match mv_to_root name n album with
      | Some album' => mv_all rest album'
      | None => let (album', _) := mv_all rest album in (album', false)
      end
  end.

(** [reset_album "$album_name"], with the answer to the confirmation prompt. *)
Definition reset_album (albums : dir) (album_name confirm : string) : outcome :=
  match lookup album_name albums with
  | Some (Dir album) =>
      if negb (is_file (lookup "data.json" album)) then AlreadyOriginal albums
      else
        match lookup "full" album with
        | Some (Dir full) =>
            let photo_count := count_files (Dir full) in
            if negb (String.eqb confirm "y") && negb (String.eqb confirm "Y")
            then Cancelled albums photo_count
            else
              match glob_star full with
              | [] => ResetFailed MvFailed albums
              | sources =>
                  let (album1, moved) := mv_all sources album in
                  if moved then
                    let album2 := if is_dir (lookup "low" album1)
                                  then remove_entry "low" album1 else album1 in
                    let album3 := remove_entry "full" album2 in
                    let album4 := if is_file (lookup "data.json" album3)
                                  then remove_entry "data.json" album3 else album3 in
                    ResetDone (set_entry album_name (Dir album4) albums) photo_count
                  else ResetFailed MvFailed (set_entry album_name (Dir album1) albums)
              end
        | _ => ResetFailed NoFullDirectory albums
        end
  | _ => ResetFailed AlbumNotFound albums
  end.

End ResetAlbum.

(** ** The values of the gallery client *)

Module Js.

(** The numbers of the model: the integers that a JSON number holds exactly,
    at most 2^53 - 1 in absolute value. They print in plain decimal. A
    document with another number is outside the model. *)
Record safe_integer : Type := mk_safe_integer {
  integer : Z;
  integer_safe : (Z.abs integer <=? 9007199254740991)%Z = true
}.

(** A parsed JSON document; an object lists its properties, each name
    once. *)
#[warnings="-register-all"]
Inductive json : Type :=
| JNull
| JBool (b : bool)
| JNum (n : safe_integer)
| JStr (s : string)
| JArr (items : list json)
| JObj (fields : list (string * json)).

(** A value read from a property: [None] is [undefined]. *)
Definition value : Type := option json.

Inductive exn : Type :=
| Error (message : string)
| TypeError
| SyntaxError
| Rethrown (prefix : string) (cause : exn).

Fixpoint field (name : string) (fields : list (string * json)) : value :=
  match fields with
  | [] => None
  | (k, v) :: r => if String.eqb k name then Some v else field name r
  end.

(** [v.name] for a name that no array or string defines; on [null] the
    access throws. *)
Definition get (name : string) (v : json) : exn + value :=
  match v with
  | JNull => inl TypeError
  | JObj fields => inr (field name fields)
  | _ => inr None
  end.

Definition truthy (v : value) : bool :=
  match v with
  | None | Some JNull => false
  | Some (JBool b) => b
  | Some (JNum n) => negb (Z.eqb (integer n) 0)
  | Some (JStr s) => negb (String.eqb s EmptyString)
  | Some (JArr _) | Some (JObj _) => true
  end.

(** [typeof v === 'object']. *)
Definition typeof_object (v : json) : bool :=
  match v with
  | JNull | JArr _ | JObj _ => true
  | _ => false
  end.

Definition dec_Z (n : Z) : string := NilEmpty.string_of_int (Z.to_int n).

(** The string a template literal puts for a value. An array prints its
    elements joined by commas, [null] as nothing. An object of a JSON
    document inherits [toString] and [valueOf]; a property of its own named
    [toString] is not a function and hides the inherited one, the inherited
    [valueOf] returns the object, and the conversion throws. *)
Fixpoint to_string (v : json) : exn + string :=
  match v with
  | JNull => inr "null"
  | JBool true => inr "true"
  | JBool false => inr "false"
  | JNum n => inr (dec_Z (integer n))
  | JStr s => inr s
  | JArr items =>
      (fix join (first : bool) (l : list json) : exn + string :=
         match l with
         | [] => inr EmptyString
         | x :: r =>
             match match x with JNull => inr EmptyString | _ => to_string x end with
             | inl e => inl e
             | inr s =>
                 match join false r with
                 | inl e => inl e
                 | inr t => inr ((if first then EmptyString else ",") ++ s ++ t)
                 end
             end
         end) true items
  | JObj fields =>
      match field "toString" fields with
      | Some _ => inl TypeError
      | None => inr "[object Object]"
      end
  end.

Definition value_to_string (v : value) : exn + string :=
  match v with
  | None => inr "undefined"
  | Some j => to_string j
  end.

(** The text an assignment to [textContent] leaves: none for [undefined]
    and [null], else the string of the value. *)
Definition text_content (v : value) : exn + string :=
  match v with
  | None | Some JNull => inr EmptyString
  | Some j => to_string j
  end.

Section WithDate.

(** [Date.parse]: the time value of a date string in milliseconds, [None]
    for an invalid date. *)
Variable Date_parse : string -> option Z.

(** The time value of [new Date(v)]; [None] is an invalid date. An array or
    an object is first converted to a string. *)
Definition new_Date (v : value) : exn + option Z :=
  match v with
  | None => inr None
  | Some JNull => inr (Some 0%Z)
  | Some (JBool b) => inr (Some (if b then 1%Z else 0%Z))
  | Some (JNum n) =>
      inr (if (Z.abs (integer n) <=? 8640000000000000)%Z then Some (integer n) else None)
  | Some (JStr s) => inr (Date_parse s)
  | Some j =>
      match to_string j with
      | inl e => inl e
      | inr s => inr (Date_parse s)
      end
  end.

End WithDate.

Fixpoint drop (n : nat) (s : string) : string :=
  match n, s with
  | O, _ => s
  | S n', String _ r => drop n' r
  | S _, EmptyString => EmptyString
  end.

(** [s.replace(pattern, replacement)] for a string pattern: the first
    occurrence only. *)
Fixpoint replace_first (pattern replacement s : string) : string :=
  if String.prefix pattern s then replacement ++ drop (String.length pattern) s
  else
    match s with
    | EmptyString => EmptyString
    | String c r => String c (replace_first pattern replacement r)
    end.

(** What the network answers to [fetch(url)]: [None] when the promise is
    rejected; [body] is the result of [response.json()], [None] when the
    text is not JSON. *)
Record response : Type := mk_response {
  ok : bool;
  status : nat;
  body : option json
}.

Definition network : Type := string -> option response.

End Js.

Import Js.

(** ** album-list.js *)

Module AlbumList.

(** An element of [albumsData]: the parsed [data] and what [album.folderName]
    reads after [albumData.folderName = albumName]. The script is a classic
    script, so the assignment to a number, string or boolean is dropped. *)
Record album : Type := mk_album {
  data : json;
  folderName : value
}.

(** [createAlbumCard]: what the card shows and where it leads. *)
Definition PHOTO_SERVER_URL : string := "https://pikapp-photos.ct-42210.com".

Record card : Type := mk_card {
  aria_label : string;
  image_src : string;
  image_alt : string;
  title : string;
  target : value
}.

Inductive page : Type :=
| AlbumGrid (cards : list card)
| ErrorMessage (prefix : string) (cause : exn).

(** [album.name] and the like: a property of the parsed document. *)
Definition property (name : string) (a : album) : value :=
  match get name (data a) with
  | inr v => v
  | inl _ => None
  end.

Definition createAlbumCard (a : album) : exn + card :=
  match value_to_string (property "name" a) with
  | inl e => inl e
  | inr name =>
      match value_to_string (folderName a) with
      | inl e => inl e
      | inr folder =>
          match value_to_string (property "coverPhoto" a) with
          | inl e => inl e
          | inr cover =>
              match text_content (property "name" a) with
              | inl e => inl e
              | inr shown =>
                  inr (mk_card ("Open album: " ++ name)
                               (PHOTO_SERVER_URL ++ "/" ++ folder ++ "/low/" ++ cover)
                               name shown (folderName a))
              end
          end
      end
  end.

(** [renderAlbumGrid]: the cards of the grid, or the error of the first
    card that cannot be made. *)
Fixpoint renderAlbumGrid (albumsData : list album) : exn + list card :=
  match albumsData with
  | [] => inr []
  | a :: r =>
      match createAlbumCard a with
      | inl e => inl e
      | inr c =>
          match renderAlbumGrid r with
          | inl e => inl e
          | inr cs => inr (c :: cs)
          end
      end
  end.

Section WithEngine.

Variable Date_parse : string -> option Z.

(** [Array.prototype.sort] with a comparison function: the order it
    leaves, or the error the comparison threw. The language leaves the
    sequence of comparisons, and the order where the comparison is not
    consistent, to the engine. *)
Variable Array_sort :
  (album -> album -> exn + option Z) -> list album -> exn + list album.

Definition date_of (a : album) : exn + option Z :=
  match get "date" (data a) with
  | inr v => new_Date Date_parse v
  | inl e => inl e
  end.

(** [(a, b) => new Date(b.date) - new Date(a.date)]; [None] is [NaN]. *)
Definition compare_albums (a b : album) : exn + option Z :=
  match date_of b with
  | inl e => inl e
  | inr db =>
      match date_of a with
      | inl e => inl e
      | inr da =>
          inr match db, da with
              | Some tb, Some ta => Some (tb - ta)%Z
              | _, _ => None
              end
      end
  end.

(** The callback of [manifest.albums.map]: [None] is the [null] it returns
    for an album that did not load. *)
Definition load_album_data (fetch : network) (albumName : json) : option album :=
  match to_string albumName with
  | inl _ => None
  | inr name =>
      match fetch ("albums/" ++ name ++ ".json") with
      | None => None
      | Some dataResponse =>
          if negb (ok dataResponse) then None
          else
            match body dataResponse with
            | None => None
            | Some JNull => None
            | Some (JObj fields) => Some (mk_album (JObj fields) (Some albumName))
            | Some (JArr items) => Some (mk_album (JArr items) (Some albumName))
            | Some albumData => Some (mk_album albumData None)
            end
      end
  end.

Fixpoint keep_loaded (results : list (option album)) : list album :=
  match results with
  | [] => []
  | Some a :: r => a :: keep_loaded r
  | None :: r => keep_loaded r
  end.

(** [loadAlbums]: the new value of [albumsData], or the error it rethrows. *)
Definition loadAlbums (fetch : network) : exn + list album :=
  match fetch "albums.json" with
  | None => inl TypeError
  | Some response =>
      if negb (ok response) then
        inl (Error ("HTTP error! status: " ++ dec (status response)))
      else
        match body response with
        | None => inl SyntaxError
        | Some manifest =>
            match get "albums" manifest with
            | inr (Some (JArr names)) =>
                let results := map (load_album_data fetch) names in
                Array_sort compare_albums (keep_loaded results)
            | _ => inl TypeError
            end
        end
  end.

(** [initAlbumList]: what the page shows. *)
Definition initAlbumList (fetch : network) : page :=
  match loadAlbums fetch with
  | inr albumsData =>
      match renderAlbumGrid albumsData with
      | inr cards => AlbumGrid cards
      | inl error => ErrorMessage "Failed to load albums: " error
      end
  | inl error => ErrorMessage "Failed to load albums: " error
  end.

End WithEngine.

End AlbumList.

(** ** album-view.js *)

Module AlbumView.

Record photo : Type := mk_photo {
  thumbnail : string;
  lightbox : string;
  original : string
}.

(** The callback of [currentAlbum.photos.map]. *)
Definition load_photo (albumFolder : string) (p : json) : exn + photo :=
  let legacy :=
    match to_string p with
    | inl e => inl e
    | inr name =>
        inr (mk_photo ("albums/" ++ albumFolder ++ "/low/" ++ name)
                      ("albums/" ++ albumFolder ++ "/low/" ++ name)
                      ("albums/" ++ albumFolder ++ "/full/" ++ name))
    end in
  if typeof_object p then
    match get "webp" p with
    | inl e => inl e
    | inr webp =>
        if truthy webp then
          match webp with
          | Some (JStr w) =>
              let baseName := replace_first ".webp" EmptyString w in
              match get "ext" p with
              | inl e => inl e
              | inr v =>
                  match value_to_string v with
                  | inl e => inl e
                  | inr ext =>
                      inr (mk_photo
                             ("albums/" ++ albumFolder ++ "/low/" ++ w)
                             ("albums/" ++ albumFolder ++ "/low/" ++ w)
                             ("albums/" ++ albumFolder ++ "/full/" ++ baseName ++ "."
                                ++ ext))
                  end
              end
          | _ => inl TypeError
          end
        else legacy
    end
  else legacy.

Fixpoint map_photos (albumFolder : string) (photos : list json) : exn + list photo :=
  match photos with
  | [] => inr []
  | p :: r =>
      match load_photo albumFolder p with
      | inl e => inl e
      | inr x =>
          match map_photos albumFolder r with
          | inl e => inl e
          | inr xs => inr (x :: xs)
          end
      end
  end.

(** [loadPhotos(albumFolder)] on the [currentAlbum] that [loadAlbum] stored:
    the new value of [albumPhotos], or the error it throws. *)
Definition loadPhotos (currentAlbum : json) (albumFolder : string) : exn + list photo :=
  let no_photos := Error "No photos found in album data" in
  let thrown :=
    match get "photos" currentAlbum with
    | inl e => inl e
    | inr photos =>
        if negb (truthy photos) then inl no_photos
        else
          match photos with
          | Some (JArr []) => inl no_photos
          | Some (JArr items) => map_photos albumFolder items
          | Some (JObj fields) =>
              match field "length" fields with
              | Some (JNum n) =>
                  if Z.eqb (integer n) 0 then inl no_photos else inl TypeError
              | _ => inl TypeError
              end
          | _ => inl TypeError
          end
    end in
  match thrown with
  | inl e => inl (Rethrown "Could not load photos: " e)
  | inr photos => inr photos
  end.

(** [obj.name = v] on the properties of an object. *)
Fixpoint set_field (name : string) (v : json) (fields : list (string * json))
  : list (string * json) :=
  match fields with
  | [] => [(name, v)]
  | (k, w) :: r =>
      if String.eqb k name then (k, v) :: r else (k, w) :: set_field name v r
  end.

(** [loadAlbum(albumFolder)]: the new value of [currentAlbum], or the error
    it throws. *)
Definition loadAlbum (fetch : network) (albumFolder : string) : exn + json :=
  let thrown :=
    match fetch ("albums/" ++ albumFolder ++ "/data.json") with
    | None => inl TypeError
    | Some response =>
        if negb (ok response) then
          inl (Error ("HTTP error! status: " ++ dec (status response)))
        else
          match body response with
          | None => inl SyntaxError
          | Some JNull => inl TypeError
          | Some (JObj fields) =>
              inr (JObj (set_field "folderName" (JStr albumFolder) fields))
          | Some v => inr v
          end
    end in
  match thrown with
  | inl e => inl (Rethrown "Could not load album data: " e)
  | inr v => inr v
  end.

(** The link that [createPhotoThumbnail] builds. *)
Record thumbnail_link : Type := mk_thumbnail_link {
  href : string;
  data_original : option string;
  img_src : string;
  img_alt : string
}.

Definition album_property (name : string) (currentAlbum : json) : value :=
  match get name currentAlbum with
  | inr v => v
  | inl _ => None
  end.

Definition createPhotoThumbnail (currentAlbum : json) (p : photo) (index : nat)
  : exn + thumbnail_link :=
  match value_to_string (album_property "name" currentAlbum) with
  | inl e => inl e
  | inr name =>
      inr (mk_thumbnail_link
             (lightbox p)
             (if String.eqb (original p) EmptyString then None else Some (original p))
             (thumbnail p)
             (name ++ " - Photo " ++ dec (index + 1)))
  end.

(** The loop of [renderPhotoGrid], from the index [index] on. *)
Fixpoint thumbnails_from (currentAlbum : json) (index : nat) (photos : list photo)
  : exn + list thumbnail_link :=
  match photos with
  | [] => inr []
  | p :: r =>
      match createPhotoThumbnail currentAlbum p index with
      | inl e => inl e
      | inr t =>
          match thumbnails_from currentAlbum (S index) r with
          | inl e => inl e
          | inr ts => inr (t :: ts)
          end
      end
  end.

(** What the album page shows: the name, the photographer and the time
    value of the date that the header is written from, with the grid; or the
    message of [displayError]. *)
Inductive page : Type :=
| AlbumPage (name photographer : string) (date : option Z) (grid : list thumbnail_link)
| ErrorPage (message : string) (cause : option exn).

Section WithDate.

Variable Date_parse : string -> option Z.

(** [renderAlbumHeader]: the name, the time value of the date and the
    photographer. *)
Definition renderAlbumHeader (currentAlbum : json) : exn + string * option Z * string :=
  match text_content (album_property "name" currentAlbum) with
  | inl e => inl e
  | inr name =>
      match new_Date Date_parse (album_property "date" currentAlbum) with
      | inl e => inl e
      | inr date =>
          match value_to_string (album_property "photographer" currentAlbum) with
          | inl e => inl e
          | inr photographer => inr (name, date, photographer)
          end
      end
  end.

(** [renderAlbumHeader] and [renderPhotoGrid]. *)
Definition render (currentAlbum : json) (albumPhotos : list photo) : exn + page :=
  match renderAlbumHeader currentAlbum with
  | inl e => inl e
  | inr (name, date, photographer) =>
      match albumPhotos with
      | [] => inr (ErrorPage "No photos found in this album" None)
      | _ =>
          match thumbnails_from currentAlbum 0 albumPhotos with
          | inl e => inl e
          | inr grid => inr (AlbumPage name photographer date grid)
          end
      end
  end.

(** [initAlbumView], given what [urlParams.get('album')] returns. *)
Definition initAlbumView (fetch : network) (albumFolder : option string) : page :=
  match albumFolder with
  | None => ErrorPage "No album specified in URL" None
  | Some folder =>
      if String.eqb folder EmptyString then ErrorPage "No album specified in URL" None
      else
        match loadAlbum fetch folder with
        | inl error => ErrorPage "Failed to load album: " (Some error)
        | inr currentAlbum =>
            match loadPhotos currentAlbum folder with
            | inl error => ErrorPage "Failed to load album: " (Some error)
            | inr albumPhotos =>
                match render currentAlbum albumPhotos with
                | inl error => ErrorPage "Failed to load album: " (Some error)
                | inr shown => shown
                end
            end
        end
  end.

End WithDate.

End AlbumView.

(** ** lightbox.js *)

Module Lightbox.

(** [downloadUrl] of [addDownloadShareButtons]: the [data-original] of the
    gallery element at the index of the slide, else the one of the trigger
    of the slide, else the address the slide displays. *)
Definition attribute_or (found : option string) (fallback : option string)
  : option string :=
  match found with
  | Some s => if String.eqb s EmptyString then fallback else Some s
  | None => fallback
  end.

Definition download_url (galleryElements : list AlbumView.thumbnail_link)
    (index : option nat) (trigger : option AlbumView.thumbnail_link)
    (displayUrl : string) : string :=
  let at_index :=
    match index with
    | Some i =>
        match nth_error galleryElements i with
        | Some element => AlbumView.data_original element
        | None => None
        end
    | None => None
    end in
  let from_trigger :=
    match trigger with
    | Some element => AlbumView.data_original element
    | None => None
    end in
  match attribute_or at_index (attribute_or from_trigger None) with
  | Some originalUrl => originalUrl
  | None => displayUrl
  end.

(** [imageUrl.substring(imageUrl.lastIndexOf('/') + 1)]: what follows the
    last slash, the whole address when it has none. *)
Definition filename_of (imageUrl : string) : string := after_last "/" imageUrl.

End Lightbox.

(** * The vocabulary of the properties *)

(** The extension of a file name in the words of the specification: what
    follows the last dot, compared without regard to case. *)
Definition extension_of (name : string) : string := lower (after_last "." name).

Definition extension_matches (name : string) : bool :=
  contains_char "." name &&
  (String.eqb (extension_of name) "jpg" || String.eqb (extension_of name) "jpeg"
   || String.eqb (extension_of name) "png").

(** The names [process_album] gives to the [index]-th photo. *)
Definition base_name (folderName : string) (index : nat) : string :=
  folderName ++ "_" ++ dec index.

Definition webp_name (folderName : string) (index : nat) : string :=
  base_name folderName index ++ ".webp".

Definition full_name (folderName : string) (index : nat) (ext : string) : string :=
  base_name folderName index ++ "." ++ ext.

(** The photos with their 1-based indices. *)
Fixpoint numbered (start : nat) (names : list string) : list (nat * string) :=
  match names with
  | [] => []
  | n :: r => (start, n) :: numbered (S start) r
  end.

(** The bytes of a regular file of a directory. *)
Definition content_of (d : dir) (name : string) : string :=
  match lookup name d with
  | Some (File c) => c
  | _ => EmptyString
  end.

Definition thumb_of (ffmpeg : string -> option string) (c : string) : string :=
  match ffmpeg c with
  | Some t => t
  | None => EmptyString
  end.

(** What publishing puts in [full/], in [low/] and in [photo_data] for the
    photo [snd ip] of the album [album0] at index [fst ip]. *)
Definition full_entry (folderName : string) (album0 : dir) (ip : nat * string)
  : string * node :=
  (full_name folderName (fst ip) (extension_of (snd ip)),
   File (content_of album0 (snd ip))).

Definition low_entry (ffmpeg : string -> option string) (folderName : string)
    (album0 : dir) (ip : nat * string) : string * node :=
  (webp_name folderName (fst ip), File (thumb_of ffmpeg (content_of album0 (snd ip)))).

Definition data_entry (folderName : string) (ip : nat * string) : string :=
  webp_name folderName (fst ip) ++ ":" ++ extension_of (snd ip).

(** A raw album: no metadata and no derived directory. *)
Definition raw_album (album : dir) : Prop :=
  lookup "data.json" album = None /\ lookup "low" album = None
  /\ lookup "full" album = None.

(** The two fields that [photo_record] writes for a [photo_data] entry. *)
Definition photo_fields (entry : string) : string * string :=
  (before_first ":" entry, after_last ":" entry).

(** Where [process_album] leaves the album: under the folder name, or, when a
    directory of that name was there before, inside that directory under
    the old name. *)
Definition album_at (albums : dir) (folderName album_dir_name : string) (album : dir)
  : Prop :=
  lookup folderName albums = Some (Dir album) \/
  exists target, lookup folderName albums = Some (Dir target) /\
                 lookup album_dir_name target = Some (Dir album).

(** [a] is listed before [b] only if it is at least as recent. *)
Definition newest_first (Date_parse : string -> option Z) (a b : AlbumList.album) : Prop :=
  match AlbumList.date_of Date_parse a, AlbumList.date_of Date_parse b with
  | inr (Some ta), inr (Some tb) => (tb <= ta)%Z
  | _, _ => False
  end.

(** Of two albums with valid dates, the more recent is listed first. *)
Definition most_recent_first (Date_parse : string -> option Z)
    (l : list AlbumList.album) : Prop :=
  forall i j a b ta tb,
    i < j -> nth_error l i = Some a -> nth_error l j = Some b ->
    AlbumList.date_of Date_parse a = inr (Some ta) ->
    AlbumList.date_of Date_parse b = inr (Some tb) ->
    (tb <= ta)%Z.

(** *** What the language asks of [Array.prototype.sort]

    The comparison returns for every two elements of [l]. *)
Definition returns_on (cmp : AlbumList.album -> AlbumList.album -> exn + option Z)
    (l : list AlbumList.album) : Prop :=
  forall a b, In a l -> In b l -> exists r, cmp a b = inr r.

(** A consistent comparison function for the elements of [l]: it returns a
    number [d a b] that is not [NaN]; an element ties with itself; ties are
    symmetric and transitive; so are, each for itself, the negative and the
    positive results. *)
Definition consistent_on (cmp : AlbumList.album -> AlbumList.album -> exn + option Z)
    (l : list AlbumList.album) : Prop :=
  exists d : AlbumList.album -> AlbumList.album -> Z,
    (forall a b, In a l -> In b l -> cmp a b = inr (Some (d a b))) /\
    (forall a, In a l -> d a a = 0%Z) /\
    (forall a b, In a l -> In b l -> d a b = 0%Z -> d b a = 0%Z) /\
    (forall a b c, In a l -> In b l -> In c l ->
       d a b = 0%Z -> d b c = 0%Z -> d a c = 0%Z) /\
    (forall a b c, In a l -> In b l -> In c l ->
       (d a b < 0)%Z -> (d b c < 0)%Z -> (d a c < 0)%Z) /\
    (forall a b c, In a l -> In b l -> In c l ->
       (0 < d a b)%Z -> (0 < d b c)%Z -> (0 < d a c)%Z).

(** The comparison puts [a] before [b]: its result is negative. *)
Definition sorts_before (cmp : AlbumList.album -> AlbumList.album -> exn + option Z)
    (a b : AlbumList.album) : Prop :=
  exists d, cmp a b = inr (Some d) /\ (d < 0)%Z.

(** A sort that conforms: where the comparison returns, it returns the
    elements in some order; and where the comparison is consistent, no
    element stands before one that the comparison puts before it. *)
Definition conforming_sort
    (Array_sort : (AlbumList.album -> AlbumList.album -> exn + option Z) ->
                  list AlbumList.album -> exn + list AlbumList.album) : Prop :=
  forall cmp l,
    returns_on cmp l ->
    exists l',
      Array_sort cmp l = inr l' /\ Permutation l' l /\
      (consistent_on cmp l ->
       StronglySorted (fun x y => ~ sorts_before cmp y x) l').

(** One engine: a stable insertion, in which a comparison that is [NaN]
    moves nothing. *)
Definition comes_first (cmp : AlbumList.album -> AlbumList.album -> exn + option Z)
    (a b : AlbumList.album) : exn + bool :=
  match cmp a b with
  | inl e => inl e
  | inr (Some d) => inr (d <=? 0)%Z
  | inr None => inr true
  end.

Fixpoint insert_album (cmp : AlbumList.album -> AlbumList.album -> exn + option Z)
    (a : AlbumList.album) (l : list AlbumList.album) : exn + list AlbumList.album :=
  match l with
  | [] => inr [a]
  | b :: r =>
      match comes_first cmp a b with
      | inl e => inl e
      | inr true => inr (a :: l)
      | inr false =>
          match insert_album cmp a r with
          | inl e => inl e
          | inr r' => inr (b :: r')
          end
      end
  end.

Fixpoint insertion_sort (cmp : AlbumList.album -> AlbumList.album -> exn + option Z)
    (l : list AlbumList.album) : exn + list AlbumList.album :=
  match l with
  | [] => inr []
  | a :: r =>
      match insertion_sort cmp r with
      | inl e => inl e
      | inr r' => insert_album cmp a r'
      end
  end.

(** What [album.folderName] reads after the assignment of the callback. *)
Definition assigned_folderName (albumData albumName : json) : value :=
  match albumData with
  | JObj _ | JArr _ => Some albumName
  | _ => None
  end.

(** The metadata of [albumName] loaded: the name prints, the request made
    from it was answered with success and the body parsed to a value other
    than [null]. *)
Definition metadata_loaded (fetch : network) (albumName : json) (a : AlbumList.album)
  : Prop :=
  exists name dataResponse,
    to_string albumName = inr name /\
    fetch ("albums/" ++ name ++ ".json") = Some dataResponse /\
    ok dataResponse = true /\
    body dataResponse = Some (AlbumList.data a) /\
    AlbumList.data a <> JNull /\
    AlbumList.folderName a = assigned_folderName (AlbumList.data a) albumName.

(** The time values of the two dates of the example below. *)
Definition example_dates (s : string) : option Z :=
  if String.eqb s "2024-03-01T00:00:00Z" then Some 1709251200000%Z
  else if String.eqb s "2023-01-01T00:00:00Z" then Some 1672531200000%Z
  else None.

Definition example_album (name date : string) : json :=
  JObj [("name", JStr name); ("photographer", JStr "Bob"); ("date", JStr date);
        ("coverPhoto", JStr (name ++ "_1.webp"));
        ("photos", JArr [JObj [("webp", JStr (name ++ "_1.webp")); ("ext", JStr "jpg")]])].

(** Three published albums; the metadata of [broken] is not JSON. *)
Definition example_network : network := fun url =>
  if String.eqb url "albums.json" then
    Some (mk_response true 200
            (Some (JObj [("albums", JArr [JStr "winter"; JStr "broken"; JStr "spring"])])))
  else if String.eqb url "albums/winter.json" then
    Some (mk_response true 200 (Some (example_album "winter" "2023-01-01T00:00:00Z")))
  else if String.eqb url "albums/broken.json" then
    Some (mk_response true 200 None)
  else if String.eqb url "albums/spring.json" then
    Some (mk_response true 200 (Some (example_album "spring" "2024-03-01T00:00:00Z")))
  else Some (mk_response false 404 None).

(** Three albums that load; the metadata of [undated] has no date. *)
Definition undated_network : network := fun url =>
  if String.eqb url "albums.json" then
    Some (mk_response true 200
            (Some (JObj [("albums", JArr [JStr "winter"; JStr "undated"; JStr "spring"])])))
  else if String.eqb url "albums/winter.json" then
    Some (mk_response true 200 (Some (example_album "winter" "2023-01-01T00:00:00Z")))
  else if String.eqb url "albums/undated.json" then
    Some (mk_response true 200 (Some (JObj [("name", JStr "undated")])))
  else if String.eqb url "albums/spring.json" then
    Some (mk_response true 200 (Some (example_album "spring" "2024-03-01T00:00:00Z")))
  else Some (mk_response false 404 None).

(** A photo entry of one of the two shapes: a bare file name, or a record
    with a non-empty webp name and an extension, both strings. *)
Definition photo_entry (p : json) : Prop :=
  (exists name, p = JStr name) \/
  (exists fields webp ext,
     p = JObj fields /\ field "webp" fields = Some (JStr webp) /\ webp <> EmptyString
     /\ field "ext" fields = Some (JStr ext)).

(** What the two shapes decode to. *)
Definition legacy_photo (albumFolder name : string) : AlbumView.photo :=
  AlbumView.mk_photo ("albums/" ++ albumFolder ++ "/low/" ++ name)
                     ("albums/" ++ albumFolder ++ "/low/" ++ name)
                     ("albums/" ++ albumFolder ++ "/full/" ++ name).

Definition structured_photo (albumFolder webp ext : string) : AlbumView.photo :=
  AlbumView.mk_photo
    ("albums/" ++ albumFolder ++ "/low/" ++ webp)
    ("albums/" ++ albumFolder ++ "/low/" ++ webp)
    ("albums/" ++ albumFolder ++ "/full/"
       ++ replace_first ".webp" EmptyString webp ++ "." ++ ext).

(** The photo record that a photo entry stands for. *)
Definition decoded (albumFolder : string) (p : json) (x : AlbumView.photo) : Prop :=
  (exists name, p = JStr name /\ x = legacy_photo albumFolder name) \/
  (exists fields webp ext,
     p = JObj fields /\ field "webp" fields = Some (JStr webp) /\ webp <> EmptyString
     /\ field "ext" fields = Some (JStr ext)
     /\ x = structured_photo albumFolder webp ext).

(** The bytes of a folder name: lowercase letters, digits, underscore. *)
Definition is_folder_char (c : ascii) : bool :=
  is_lower c || is_digit c || Ascii.eqb c "_".

(** The path of an album directory as the scans of [upload.sh] write it. *)
Definition album_dir_path (name : string) : string :=
  Upload.ALBUMS_DIR ++ "/" ++ name ++ "/".

(** The albums directory an outcome leaves. *)
Definition albums_of (o : Upload.outcome) : dir :=
  match o with
  | Upload.Processed albums _ => albums
  | Upload.NoPhotos albums => albums
  | Upload.Aborted _ albums => albums
  end.

Definition state_of (o : ResetAlbum.outcome) : dir :=
  match o with
  | ResetAlbum.ResetDone albums _ => albums
  | ResetAlbum.AlreadyOriginal albums => albums
  | ResetAlbum.Cancelled albums _ => albums
  | ResetAlbum.ResetFailed _ albums => albums
  end.

(** Where the album stands after a run of [process_album]. *)
Definition album_after (o : Upload.outcome) (folderName album_dir_name : string)
    (album : dir) : Prop :=
  match o with
  | Upload.Processed albums _ => album_at albums folderName album_dir_name album
  | Upload.NoPhotos albums => lookup album_dir_name albums = Some (Dir album)
  | Upload.Aborted _ albums => lookup album_dir_name albums = Some (Dir album)
  end.

(** An album holds the bytes [c]: in a regular file of its root or of its
    [full/]. *)
Definition keeps_bytes (album : dir) (c : string) : Prop :=
  (exists n, lookup n album = Some (File c)) \/
  (exists full n, lookup "full" album = Some (Dir full) /\ lookup n full = Some (File c)).

(** Directory names without a newline, each carried by one entry. *)
Definition plain_names (d : dir) : Prop :=
  NoDup (map fst d) /\ forall name, In name (map fst d) -> contains_char nl name = false.

(** The album a run of the loop leaves, completed or not. *)
Definition loop_album (r : result dir Upload.loop_state) : dir :=
  match r with
  | Ok st => Upload.st_album st
  | Died _ a => a
  end.

Definition published_dir (r : result dir (dir * list string)) : dir :=
  match r with
  | Ok (a, _) => a
  | Died _ a => a
  end.

(** *** The texts that the scripts write

    [echo -e] on an argument that is no option and in which every backslash
    starts the escape [\n]: the argument with a newline for each escape,
    and the newline that ends the output. *)
Fixpoint newline_escapes_only (s : string) : bool :=
  match s with
  | EmptyString => true
  | String c r =>
      if Ascii.eqb c "\" then
        match r with
        | String "n" r' => newline_escapes_only r'
        | _ => false
        end
      else newline_escapes_only r
  end.

Fixpoint expand_newline_escapes (s : string) : string :=
  match s with
  | EmptyString => EmptyString
  | String c r =>
      if Ascii.eqb c "\" then
        match r with
        | String "n" r' => String nl (expand_newline_escapes r')
        | _ => String c (expand_newline_escapes r)
        end
      else String c (expand_newline_escapes r)
  end.

Definition expands_newlines (echo_e : string -> string) : Prop :=
  forall s, is_echo_option s = false -> newline_escapes_only s = true ->
            echo_e s = expand_newline_escapes s ++ Upload.NL.

(** The items of a JSON array as the scripts lay them out: one to a line,
    behind four spaces, with a comma after each but the last. *)
Fixpoint more_lines (items : list string) : string :=
  match items with
  | [] => EmptyString
  | x :: r => "," ++ Upload.NL ++ "    " ++ x ++ more_lines r
  end.

Definition lines_text (items : list string) : string :=
  match items with
  | [] => EmptyString
  | x :: r => Upload.NL ++ "    " ++ x ++ more_lines r
  end.

(** The same items as the scripts hold them before [echo -e]: with the two
    bytes backslash and [n] for each newline. *)
Fixpoint more_lines_source (items : list string) : string :=
  match items with
  | [] => EmptyString
  | x :: r => ",\n    " ++ x ++ more_lines_source r
  end.

Definition lines_source (items : list string) : string :=
  match items with
  | [] => EmptyString
  | x :: r => "\n    " ++ x ++ more_lines_source r
  end.

(** The manifest that lists [names]. *)
Definition manifest_text (names : list string) : string :=
  "{" ++ Upload.NL
  ++ "  " ++ Upload.quoted "albums" ++ ": [" ++ lines_text (map Upload.quoted names)
  ++ Upload.NL ++ "  ]" ++ Upload.NL
  ++ "}" ++ Upload.NL.

(** The record of a photo, from its webp name and its extension. *)
Definition record_text (r : string * string) : string :=
  "{" ++ Upload.quoted "webp" ++ ": " ++ Upload.quoted (fst r) ++ ", "
      ++ Upload.quoted "ext" ++ ": " ++ Upload.quoted (snd r) ++ "}".

(** The metadata of an album with the photo records [records]. *)
Definition metadata_text (album_name photographer_name timestamp coverPhoto : string)
    (records : list (string * string)) : string :=
  "{" ++ Upload.NL
  ++ "  " ++ Upload.quoted "name" ++ ": " ++ Upload.quoted album_name ++ "," ++ Upload.NL
  ++ "  " ++ Upload.quoted "photographer" ++ ": " ++ Upload.quoted photographer_name
  ++ "," ++ Upload.NL
  ++ "  " ++ Upload.quoted "date" ++ ": " ++ Upload.quoted timestamp ++ "," ++ Upload.NL
  ++ "  " ++ Upload.quoted "coverPhoto" ++ ": " ++ Upload.quoted coverPhoto ++ ","
  ++ Upload.NL
  ++ "  " ++ Upload.quoted "photos" ++ ": [" ++ lines_text (map record_text records)
  ++ Upload.NL ++ "  ]" ++ Upload.NL
  ++ "}" ++ Upload.NL.

(** The records of the photos of an album in the order of publishing. *)
Definition photo_records (folderName : string) (photos : list string)
  : list (string * string) :=
  map (fun ip => (webp_name folderName (fst ip), extension_of (snd ip)))
      (numbered 1 photos).

(** *** JSON texts

    The texts of the JSON grammar made of objects, arrays that are not empty
    and strings of printable ASCII without quote and backslash, with the
    value each denotes. *)
Definition is_json_space (c : ascii) : bool :=
  Ascii.eqb c " " || Nat.eqb (nat_of_ascii c) 9 || Nat.eqb (nat_of_ascii c) 10
  || Nat.eqb (nat_of_ascii c) 13.

Definition json_plain (c : ascii) : bool :=
  in_range 32 126 c && negb (Nat.eqb (nat_of_ascii c) 34) && negb (Ascii.eqb c "\").

Inductive json_text : string -> json -> Prop :=
| text_string (s : string) :
    sforall json_plain s = true -> json_text (Upload.quoted s) (JStr s)
| text_padded (before t after : string) (v : json) :
    sforall is_json_space before = true -> sforall is_json_space after = true ->
    json_text t v -> json_text (before ++ t ++ after) v
| text_array (ts : string) (vs : list json) :
    json_elements ts vs -> json_text ("[" ++ ts ++ "]") (JArr vs)
| text_object (ms : string) (fields : list (string * json)) :
    json_members ms fields -> NoDup (map fst fields) ->
    json_text ("{" ++ ms ++ "}") (JObj fields)
with json_elements : string -> list json -> Prop :=
| elements_one (t : string) (v : json) :
    json_text t v -> json_elements t [v]
| elements_more (t ts : string) (v : json) (vs : list json) :
    json_text t v -> json_elements ts vs -> json_elements (t ++ "," ++ ts) (v :: vs)
with json_members : string -> list (string * json) -> Prop :=
| members_one (before k after t : string) (v : json) :
    sforall is_json_space before = true -> sforall is_json_space after = true ->
    sforall json_plain k = true -> json_text t v ->
    json_members (before ++ Upload.quoted k ++ after ++ ":" ++ t) [(k, v)]
| members_more (before k after t ms : string) (v : json)
    (fields : list (string * json)) :
    sforall is_json_space before = true -> sforall is_json_space after = true ->
    sforall json_plain k = true -> json_text t v -> json_members ms fields ->
    json_members (before ++ Upload.quoted k ++ after ++ ":" ++ t ++ "," ++ ms)
                 ((k, v) :: fields).

(** The values that the records and the metadata denote. *)
Definition record_object (r : string * string) : json :=
  JObj [("webp", JStr (fst r)); ("ext", JStr (snd r))].

Definition album_document (album_name photographer_name timestamp coverPhoto : string)
    (records : list (string * string)) : json :=
  JObj [("name", JStr album_name); ("photographer", JStr photographer_name);
        ("date", JStr timestamp); ("coverPhoto", JStr coverPhoto);
        ("photos", JArr (map record_object records))].

(** The addresses of the photo that publishing numbered [fst ip]. *)
Definition published_photo (folderName : string) (ip : nat * string) : AlbumView.photo :=
  AlbumView.mk_photo
    ("albums/" ++ folderName ++ "/low/" ++ webp_name folderName (fst ip))
    ("albums/" ++ folderName ++ "/low/" ++ webp_name folderName (fst ip))
    ("albums/" ++ folderName ++ "/full/"
       ++ full_name folderName (fst ip) (extension_of (snd ip))).

(** * Properties *)

(** ** Strings *)

Section StringFacts.

Lemma append_nil_r (s : string) : s ++ EmptyString = s.
Proof. induction s as [|c r IH]; simpl; [reflexivity | now rewrite IH]. Qed.

Lemma append_assoc (a b c : string) : (a ++ b) ++ c = a ++ (b ++ c).
Proof. induction a as [|x r IH]; simpl; [reflexivity | now rewrite IH]. Qed.

Lemma smap_app (f : ascii -> ascii) (a b : string) :
  smap f (a ++ b) = smap f a ++ smap f b.
Proof. induction a as [|x r IH]; simpl; [reflexivity | now rewrite IH]. Qed.

Lemma sfilter_app (p : ascii -> bool) (a b : string) :
  sfilter p (a ++ b) = sfilter p a ++ sfilter p b.
Proof.
  induction a as [|x r IH]; simpl; [reflexivity|].
  destruct (p x); simpl; now rewrite IH.
Qed.

Lemma sforall_app (p : ascii -> bool) (a b : string) :
  sforall p (a ++ b) = sforall p a && sforall p b.
Proof.
  induction a as [|x r IH]; simpl; [reflexivity|].
  now rewrite IH, andb_assoc.
Qed.

Lemma sforall_sfilter (p : ascii -> bool) (s : string) :
  sforall p (sfilter p s) = true.
Proof.
  induction s as [|c r IH]; simpl; [reflexivity|].
  destruct (p c) eqn:E; simpl; [now rewrite E | exact IH].
Qed.

Lemma sforall_impl (p q : ascii -> bool) (s : string) :
  (forall c, p c = true -> q c = true) ->
  sforall p s = true -> sforall q s = true.
Proof.
  intros Hpq. induction s as [|c r IH]; simpl; [reflexivity|].
  intros H. apply andb_true_iff in H as [H1 H2].
  now rewrite (Hpq _ H1), IH.
Qed.

Lemma contains_char_app (c : ascii) (a b : string) :
  contains_char c (a ++ b) = contains_char c a || contains_char c b.
Proof.
  induction a as [|x r IH]; simpl; [reflexivity|].
  now rewrite IH, orb_assoc.
Qed.

(** A string all of whose bytes avoid [c] does not contain [c]. *)
Lemma contains_char_avoid (c : ascii) (p : ascii -> bool) (s : string) :
  p c = false -> sforall p s = true -> contains_char c s = false.
Proof.
  intros Hc. induction s as [|x r IH]; simpl; [reflexivity|].
  intros H. apply andb_true_iff in H as [H1 H2].
  rewrite (IH H2), orb_false_r.
  destruct (Ascii.eqb_spec x c) as [->|]; [congruence | reflexivity].
Qed.

Lemma cmd_subst_no_newline (s : string) :
  contains_char nl s = false -> cmd_subst s = s.
Proof.
  induction s as [|c r IH]; simpl; [reflexivity|].
  intros H. apply orb_false_iff in H as [H1 H2].
  now rewrite H1, (IH H2).
Qed.

Lemma cmd_subst_newline (s : string) :
  contains_char nl s = false -> cmd_subst (s ++ String nl EmptyString) = s.
Proof.
  induction s as [|c r IH]; simpl; [reflexivity|].
  intros H. apply orb_false_iff in H as [H1 H2].
  now rewrite H1, (IH H2).
Qed.

Lemma before_first_app (c : ascii) (a b : string) :
  contains_char c a = false -> before_first c (a ++ String c b) = a.
Proof.
  induction a as [|x r IH]; simpl.
  - now rewrite Ascii.eqb_refl.
  - intros H. apply orb_false_iff in H as [H1 H2].
    now rewrite H1, (IH H2).
Qed.

Lemma after_last_app (c : ascii) (a b : string) :
  contains_char c b = false -> after_last c (a ++ String c b) = b.
Proof.
  intros Hb. induction a as [|x r IH]; simpl.
  - now rewrite Hb, Ascii.eqb_refl.
  - rewrite contains_char_app. simpl. rewrite Ascii.eqb_refl, orb_true_r.
    exact IH.
Qed.

End StringFacts.

(** The classes of bytes, checked on every byte. *)
Ltac each_byte c :=
  destruct c as [[] [] [] [] [] [] [] []]; try reflexivity; try discriminate.

Lemma to_lower_nl : to_lower nl = nl.
Proof. reflexivity. Qed.

Lemma snake_pipeline_class (s : string) :
  sforall alnum_or_underscore (snake_pipeline s) = true.
Proof. apply sforall_sfilter. Qed.

Lemma class_no_char (c : ascii) (s : string) :
  alnum_or_underscore c = false ->
  sforall alnum_or_underscore s = true -> contains_char c s = false.
Proof. apply contains_char_avoid. Qed.

Lemma to_snake_case_plain (s : string) :
  is_echo_option s = false -> to_snake_case s = snake_pipeline s.
Proof.
  intros H. unfold to_snake_case, echo. rewrite H.
  unfold tr_upper_lower, tr_space_underscore, tr_cd_alnum_underscore.
  rewrite !smap_app, sfilter_app. simpl.
  rewrite append_nil_r. apply cmd_subst_no_newline.
  apply (class_no_char nl); [reflexivity | apply snake_pipeline_class].
Qed.

Lemma to_snake_case_option (s : string) :
  is_echo_option s = true -> to_snake_case s = EmptyString.
Proof.
  intros H. unfold to_snake_case, echo. rewrite H.
  destruct (contains_char "n" s); reflexivity.
Qed.

(** The folder name is made of lowercase letters, digits and underscores,
    whatever the operator typed. *)
Lemma to_snake_case_class (s : string) :
  sforall alnum_or_underscore (to_snake_case s) = true.
Proof.
  destruct (is_echo_option s) eqn:E.
  - now rewrite to_snake_case_option.
  - rewrite to_snake_case_plain by assumption. apply snake_pipeline_class.
Qed.

(** ** C5: folder-name normalisation *)

(** C5, as amended. For every display name that [echo] does not take for an
    option, the folder name is the name with uppercase letters lowered, each
    space replaced by one underscore, and every byte that is neither
    alphanumeric nor an underscore removed. *)
Theorem to_snake_case_spec (displayName : string) :
  is_echo_option displayName = false ->
  to_snake_case displayName =
  sfilter alnum_or_underscore (smap space_to_underscore (smap to_lower displayName)).
Proof. apply to_snake_case_plain. Qed.

Lemma to_snake_case_spec_witness :
  is_echo_option "Spring Formal 2024!" = false /\
  to_snake_case "Spring Formal 2024!" = "spring_formal_2024".
Proof.
  split; [reflexivity|].
  rewrite (to_snake_case_spec "Spring Formal 2024!"); reflexivity.
Defined.

(** C5 as stated fails: a run of two spaces gives two underscores where the
    specification collapses the run to one, and a tab is stripped where the
    specification turns it into an underscore. *)
Lemma to_snake_case_not_collapsing :
  ~ (forall displayName, to_snake_case displayName = spec_normalize displayName) /\
  to_snake_case "a  b" = "a__b" /\ spec_normalize "a  b" = "a_b" /\
  to_snake_case ("a" ++ String (ascii_of_nat 9) "b") = "ab" /\
  spec_normalize ("a" ++ String (ascii_of_nat 9) "b") = "a_b".
Proof.
  split; [|repeat split].
  intros H. specialize (H "a  b"). vm_compute in H. discriminate H.
Qed.

(** ** Directories *)

Section DirFacts.

Lemma lookup_set_eq (name : string) (n : node) (d : dir) :
  lookup name (set_entry name n d) = Some n.
Proof.
  induction d as [|[k m] r IH]; simpl.
  - now rewrite String.eqb_refl.
  - destruct (String.eqb k name) eqn:E; simpl; rewrite E; [reflexivity | exact IH].
Qed.

Lemma lookup_set_neq (name other : string) (n : node) (d : dir) :
  other <> name -> lookup other (set_entry name n d) = lookup other d.
Proof.
  intros Hne. induction d as [|[k m] r IH]; simpl.
  - destruct (String.eqb_spec name other); [congruence | reflexivity].
  - destruct (String.eqb_spec k name) as [->|]; simpl.
    + destruct (String.eqb_spec name other); [congruence | reflexivity].
    + destruct (String.eqb k other); [reflexivity | exact IH].
Qed.

Lemma lookup_remove_eq (name : string) (d : dir) :
  lookup name (remove_entry name d) = None.
Proof.
  induction d as [|[k m] r IH]; simpl; [reflexivity|].
  destruct (String.eqb k name) eqn:E; simpl; [exact IH | now rewrite E].
Qed.

Lemma lookup_remove_neq (name other : string) (d : dir) :
  other <> name -> lookup other (remove_entry name d) = lookup other d.
Proof.
  intros Hne. induction d as [|[k m] r IH]; simpl; [reflexivity|].
  destruct (String.eqb_spec k name) as [->|]; simpl.
  - destruct (String.eqb_spec name other); [congruence | exact IH].
  - destruct (String.eqb k other); [reflexivity | exact IH].
Qed.

Lemma set_entry_twice (name : string) (n m : node) (d : dir) :
  set_entry name n (set_entry name m d) = set_entry name n d.
Proof.
  induction d as [|[k x] r IH]; simpl.
  - now rewrite String.eqb_refl.
  - destruct (String.eqb k name) eqn:E; simpl; rewrite E; [reflexivity | now rewrite IH].
Qed.

Lemma in_set_entry (name k : string) (n x : node) (d : dir) :
  In (k, x) (set_entry name n d) -> (k = name /\ x = n) \/ In (k, x) d.
Proof.
  induction d as [|[k' m] r IH]; simpl.
  - intros [H|[]]. inversion H; subst. now left.
  - destruct (String.eqb_spec k' name) as [->|]; simpl.
    + intros [H|H]; [inversion H; subst; now left | right; now right].
    + intros [H|H]; [right; now left|].
      destruct (IH H) as [?|?]; [now left | right; now right].
Qed.

Lemma in_remove_entry (name k : string) (x : node) (d : dir) :
  In (k, x) (remove_entry name d) <-> k <> name /\ In (k, x) d.
Proof.
  unfold remove_entry. rewrite filter_In. simpl.
  rewrite negb_true_iff, String.eqb_neq. tauto.
Qed.

Lemma lookup_in (name : string) (n : node) (d : dir) :
  lookup name d = Some n -> In (name, n) d.
Proof.
  induction d as [|[k m] r IH]; simpl; [discriminate|].
  destruct (String.eqb_spec k name) as [->|].
  - intros H. inversion H. now left.
  - intros H. right. now apply IH.
Qed.

Lemma lookup_app_none (name : string) (d e : dir) :
  lookup name d = None -> lookup name (d ++ e)%list = lookup name e.
Proof.
  induction d as [|[k m] r IH]; simpl; [reflexivity|].
  destruct (String.eqb k name); [discriminate | exact IH].
Qed.

(** Sorting the expansion keeps its entries. *)
Lemma in_insert_by_name (e x : string * node) (l : dir) :
  In x (insert_by_name e l) <-> x = e \/ In x l.
Proof.
  induction l as [|y r IH]; simpl.
  - intuition.
  - destruct (String.leb (fst e) (fst y)); simpl; [intuition|].
    rewrite IH. intuition.
Qed.

Lemma in_sort_by_name (x : string * node) (d : dir) :
  In x (sort_by_name d) <-> In x d.
Proof.
  induction d as [|y r IH]; simpl; [reflexivity|].
  rewrite in_insert_by_name, IH. intuition.
Qed.

Lemma in_glob_star (name : string) (n : node) (d : dir) :
  In (name, n) (glob_star d) <-> In (name, n) d /\ hidden name = false.
Proof.
  unfold glob_star. rewrite in_sort_by_name, filter_In. simpl.
  now rewrite negb_true_iff.
Qed.

End DirFacts.

(** ** Extensions *)

Lemma to_lower_dot (c : ascii) : Ascii.eqb (to_lower c) "." = Ascii.eqb c ".".
Proof. each_byte c. Qed.

Lemma contains_dot_lower (s : string) :
  contains_char "." (lower s) = contains_char "." s.
Proof.
  induction s as [|c r IH]; simpl; [reflexivity|].
  unfold lower in IH. now rewrite IH, to_lower_dot.
Qed.

Lemma after_last_lower (s : string) :
  after_last "." (lower s) = lower (after_last "." s).
Proof.
  induction s as [|c r IH]; simpl; [reflexivity|].
  fold (lower r). rewrite contains_dot_lower, to_lower_dot.
  destruct (contains_char "." r); [exact IH|].
  destruct (Ascii.eqb c "."); reflexivity.
Qed.

Lemma has_suffix_cons (suf : string) (c : ascii) (r : string) :
  has_suffix suf (String c r) = String.eqb (String c r) suf || has_suffix suf r.
Proof. reflexivity. Qed.

Lemma has_suffix_dot (e s : string) :
  contains_char "." e = false ->
  has_suffix (String "." e) s =
  contains_char "." s && String.eqb (after_last "." s) e.
Proof.
  intros He. induction s as [|c r IH]; [reflexivity|].
  rewrite has_suffix_cons, IH. cbn [contains_char after_last].
  destruct (contains_char "." r) eqn:Hr.
  - rewrite orb_true_r. cbn [andb].
    destruct (String.eqb_spec (String c r) (String "." e)) as [E|_]; [|reflexivity].
    inversion E; subst. congruence.
  - rewrite orb_false_r. cbn [andb]. rewrite orb_false_r.
    destruct (Ascii.eqb_spec c ".") as [->|Hc]; cbn [andb].
    + destruct (String.eqb_spec r e) as [->|Hne].
      * apply String.eqb_refl.
      * apply String.eqb_neq. congruence.
    + apply String.eqb_neq. congruence.
Qed.

Lemma is_photo_name_extension (name : string) :
  Upload.is_photo_name name = extension_matches name.
Proof.
  unfold Upload.is_photo_name, Upload.iname, extension_matches, extension_of.
  rewrite !has_suffix_dot by reflexivity.
  rewrite contains_dot_lower, after_last_lower.
  destruct (contains_char "." name); reflexivity.
Qed.

Lemma after_last_prefix (c : ascii) (a b : string) :
  contains_char c b = true -> after_last c (a ++ b) = after_last c b.
Proof.
  intros Hb. induction a as [|x r IH]; simpl; [reflexivity|].
  now rewrite contains_char_app, Hb, orb_true_r.
Qed.

(** The extension the loop computes from a found path is the lowercase
    extension of the entry name. *)
Lemma extension_lower_of_photo (album_path name : string) :
  Upload.is_photo_name name = true ->
  cmd_subst (tr_upper_lower (echo (after_last "." (album_path ++ name))))
  = extension_of name.
Proof.
  rewrite is_photo_name_extension. unfold extension_matches.
  intros H. apply andb_true_iff in H as [Hdot Hext].
  rewrite after_last_prefix by assumption.
  unfold extension_of in *. set (x := after_last "." name) in *.
  assert (Hplain : is_echo_option x = false).
  { destruct x as [|c r]; [reflexivity|].
    destruct (Ascii.eqb_spec c "-") as [->|Hc].
    - exfalso. cbn in Hext. discriminate Hext.
    - unfold is_echo_option.
      destruct c as [[] [] [] [] [] [] [] []]; try reflexivity.
      now elim Hc. }
  unfold echo. rewrite Hplain. unfold tr_upper_lower.
  rewrite smap_app. simpl. fold (lower x). rewrite to_lower_nl.
  apply cmd_subst_newline.
  repeat (apply orb_true_iff in Hext as [Hext|Hext]);
    apply String.eqb_eq in Hext; rewrite Hext; reflexivity.
Qed.

Lemma extension_of_photo (name : string) :
  Upload.is_photo_name name = true ->
  extension_of name = "jpg" \/ extension_of name = "jpeg" \/ extension_of name = "png".
Proof.
  rewrite is_photo_name_extension. unfold extension_matches.
  intros H. apply andb_true_iff in H as [_ H].
  repeat (apply orb_true_iff in H as [H|H]); apply String.eqb_eq in H; auto.
Qed.

Lemma find_photos_in (album : dir) (name : string) :
  In name (Upload.find_photos album) <->
  exists c, In (name, File c) album /\ Upload.is_photo_name name = true.
Proof.
  induction album as [|[k n] r IH]; simpl.
  - split; [intros [] | intros (c & [] & _)].
  - destruct n as [c|es].
    + destruct (Upload.is_photo_name k) eqn:E; simpl; rewrite IH; split.
      * intros [<-|(c' & Hin & Hp)]; [exists c; auto | exists c'; auto].
      * intros (c' & [Heq|Hin] & Hp); [inversion Heq; now left | right; eauto].
      * intros (c' & Hin & Hp). eauto.
      * intros (c' & [Heq|Hin] & Hp); [inversion Heq; subst; congruence | eauto].
    + rewrite IH. split.
      * intros (c & Hin & Hp). eauto.
      * intros (c & [Heq|Hin] & Hp); [discriminate Heq | eauto].
Qed.

(** ** C9: an album without photos *)

Lemma find_photos_none (album : dir) :
  (forall name content, In (name, File content) album -> extension_matches name = false) ->
  Upload.find_photos album = [].
Proof.
  intros H. destruct (Upload.find_photos album) as [|name rest] eqn:E; [reflexivity|].
  assert (Hin : In name (Upload.find_photos album)) by (rewrite E; now left).
  apply find_photos_in in Hin as (c & Hin & Hp).
  rewrite is_photo_name_extension, (H _ _ Hin) in Hp. discriminate Hp.
Qed.

(** C9. In an album directory without a regular file whose extension is jpg,
    jpeg or png in any case, [process_album] reports that there are no
    photos and leaves the albums directory as it found it: no [low/] or
    [full/], no [data.json], no file removed, no directory renamed. *)
Theorem process_album_empty
    (ffmpeg : string -> option string) (echo_e : string -> string)
    (albums album : dir)
    (album_dir_name album_name photographer_name timestamp : string) (random : nat) :
  lookup album_dir_name albums = Some (Dir album) ->
  (forall name content, In (name, File content) album -> extension_matches name = false) ->
  Upload.process_album ffmpeg echo_e albums album_dir_name album_name
    photographer_name timestamp random = Upload.NoPhotos albums.
Proof.
  intros Hdir Hnone. unfold Upload.process_album.
  now rewrite Hdir, (find_photos_none album Hnone).
Qed.

Lemma process_album_empty_witness :
  Upload.process_album (fun c => Some c) (fun t => t)
    [("Trip", Dir [("notes.txt", File "text"); ("raw", Dir [("a.jpg", File "x")])])]
    "Trip" "Trip 2024" "Ann" "2024-05-01T10:00:00Z" 7
  = Upload.NoPhotos
      [("Trip", Dir [("notes.txt", File "text"); ("raw", Dir [("a.jpg", File "x")])])].
Proof.
  apply (process_album_empty _ _ _
           [("notes.txt", File "text"); ("raw", Dir [("a.jpg", File "x")])]).
  - reflexivity.
  - intros name content [H|[H|[]]]; inversion H; reflexivity.
Defined.

(** ** The escapes of [echo -e] *)

Lemma expand_plain_prefix (a b : string) :
  contains_char "\" a = false ->
  newline_escapes_only (a ++ b) = newline_escapes_only b /\
  expand_newline_escapes (a ++ b) = a ++ expand_newline_escapes b.
Proof.
  induction a as [|c r IH]; [auto|].
  cbn [contains_char]. intros H. apply orb_false_iff in H as [Hc Hr].
  destruct (IH Hr) as [IH1 IH2].
  cbn [append newline_escapes_only expand_newline_escapes].
  rewrite Hc, IH1, IH2. auto.
Qed.

Lemma quoted_plain (c : ascii) (x : string) :
  Ascii.eqb (ascii_of_nat 34) c = false ->
  contains_char c x = false -> contains_char c (Upload.quoted x) = false.
Proof.
  intros Hq Hx. unfold Upload.quoted, Upload.DQ.
  rewrite !contains_char_app, Hx. cbn [contains_char]. now rewrite Hq.
Qed.

Lemma more_lines_expand (items : list string) (rest : string) :
  (forall x, In x items -> contains_char "\" x = false) ->
  newline_escapes_only (more_lines_source items ++ rest) = newline_escapes_only rest /\
  expand_newline_escapes (more_lines_source items ++ rest)
  = more_lines items ++ expand_newline_escapes rest.
Proof.
  induction items as [|x r IH]; intros H; [auto|].
  destruct (IH (fun y Hy => H y (or_intror Hy))) as [IH1 IH2].
  destruct (expand_plain_prefix ("    " ++ x) (more_lines_source r ++ rest)) as [E1 E2].
  { rewrite contains_char_app, (H x (or_introl eq_refl)). reflexivity. }
  cbn [more_lines_source more_lines].
  rewrite !append_assoc in *.
  cbn [append newline_escapes_only expand_newline_escapes Ascii.eqb Bool.eqb Upload.NL] in *.
  rewrite E1, E2, IH1, IH2. auto.
Qed.

(** ** C7: the global manifest *)

Lemma in_published_albums (entries : dir) (x : string) :
  In x (Upload.published_albums entries) <->
  exists name d, In (name, Dir d) entries
                 /\ is_file (lookup "data.json" d) = true
                 /\ x = Upload.basename name.
Proof.
  induction entries as [|[k n] r IH]; simpl.
  - split; [intros [] | intros (? & ? & [] & _)].
  - destruct n as [c|d].
    + rewrite IH. split.
      * intros (name & d & Hin & H). exists name, d. auto.
      * intros (name & d & [Heq|Hin] & H); [discriminate Heq|]. exists name, d. auto.
    + destruct (is_file (lookup "data.json" d)) eqn:E; simpl; rewrite IH; split.
      * intros [<-|(name & d' & Hin & H)]; [exists k, d; auto|].
        exists name, d'. tauto.
      * intros (name & d' & [Heq|Hin] & Hf & ->);
          [inversion Heq; now left | right; exists name, d'; auto].
      * intros (name & d' & Hin & H). exists name, d'. tauto.
      * intros (name & d' & [Heq|Hin] & Hf & ->);
          [inversion Heq; subst; congruence | exists name, d'; auto].
Qed.

(** A directory name without a newline is what [basename] prints. *)
Lemma basename_plain (name : string) :
  contains_char nl name = false -> Upload.basename name = name.
Proof. apply cmd_subst_newline. Qed.

Lemma write_file_set (name text : string) (d : dir) :
  is_dir (lookup name d) = false ->
  write_file name text d = Some (set_entry name (File text) d).
Proof.
  intros H. unfold write_file, redirect, run_steps, apply_step.
  destruct (lookup name d) as [[c|es]|] eqn:E; try discriminate H;
    rewrite lookup_set_eq; simpl; now rewrite set_entry_twice.
Qed.

Lemma write_file_dir (name text : string) (d : dir) :
  is_dir (lookup name d) = true -> write_file name text d = None.
Proof.
  unfold write_file, redirect, run_steps, apply_step.
  destruct (lookup name d) as [[c|es]|]; try discriminate; reflexivity.
Qed.

Lemma generate_albums_manifest_ok (echo_e : string -> string) (pub pub' : dir) :
  Upload.generate_albums_manifest echo_e pub = Ok pub' ->
  (exists albums, lookup "albums" pub = Some (Dir albums) /\
     pub' = set_entry "albums.json"
              (File (echo_e (Upload.json_content (Upload.manifest_albums albums)))) pub)
  \/ (is_dir (lookup "albums" pub) = false /\ pub' = pub).
Proof.
  unfold Upload.generate_albums_manifest.
  destruct (lookup "albums" pub) as [[c|albums]|] eqn:E.
  - intros H. inversion H. now right.
  - destruct (is_dir (lookup "albums.json" pub)) eqn:Hd.
    + rewrite write_file_dir by assumption. discriminate.
    + rewrite write_file_set by assumption. intros H. inversion H.
      left. exists albums. auto.
  - intros H. inversion H. now right.
Qed.

Lemma lines_expand (items : list string) (rest : string) :
  (forall x, In x items -> contains_char "\" x = false) ->
  newline_escapes_only (lines_source items ++ rest) = newline_escapes_only rest /\
  expand_newline_escapes (lines_source items ++ rest)
  = lines_text items ++ expand_newline_escapes rest.
Proof.
  destruct items as [|x r]; intros H; [auto|].
  destruct (more_lines_expand r rest (fun y Hy => H y (or_intror Hy))) as [M1 M2].
  destruct (expand_plain_prefix ("    " ++ x) (more_lines_source r ++ rest)) as [E1 E2].
  { rewrite contains_char_app, (H x (or_introl eq_refl)). reflexivity. }
  cbn [lines_source lines_text].
  rewrite !append_assoc in *.
  cbn [append newline_escapes_only expand_newline_escapes Ascii.eqb Bool.eqb Upload.NL] in *.
  rewrite E1, E2, M1, M2. auto.
Qed.

Lemma manifest_items_source (names : list string) :
  Upload.manifest_items false names = more_lines_source (map Upload.quoted names) /\
  Upload.manifest_items true names = lines_source (map Upload.quoted names).
Proof.
  assert (H : forall l, Upload.manifest_items false l
                        = more_lines_source (map Upload.quoted l)).
  { induction l as [|a r IH]; [reflexivity|]. cbn [Upload.manifest_items map more_lines_source].
    now rewrite IH. }
  split; [apply H|]. destruct names as [|a r]; [reflexivity|].
  cbn [Upload.manifest_items map lines_source]. now rewrite H.
Qed.

(** What [echo -e "$json_content"] prints for names without a backslash. *)
Lemma json_content_written (echo_e : string -> string) (names : list string) :
  expands_newlines echo_e ->
  (forall x, In x names -> contains_char "\" x = false) ->
  echo_e (Upload.json_content names) = manifest_text names.
Proof.
  intros Hecho Hnames.
  assert (Hq : forall x, In x (map Upload.quoted names) -> contains_char "\" x = false).
  { intros x Hx. apply in_map_iff in Hx as (y & <- & Hy).
    apply quoted_plain; [reflexivity | now apply Hnames]. }
  destruct (lines_expand (map Upload.quoted names) "\n  ]\n}" Hq) as [L1 L2].
  unfold Upload.json_content. rewrite (proj2 (manifest_items_source names)).
  set (X := lines_source (map Upload.quoted names) ++ "\n  ]\n}") in *.
  rewrite Hecho.
  - change (expand_newline_escapes ("{\n  " ++ Upload.quoted "albums" ++ ": [" ++ X))
      with ("{" ++ Upload.NL ++ "  " ++ Upload.quoted "albums" ++ ": ["
              ++ expand_newline_escapes X).
    rewrite L2. unfold manifest_text. rewrite !append_assoc. reflexivity.
  - reflexivity.
  - change (newline_escapes_only X = true). rewrite L1. reflexivity.
Qed.




(** ** Generated names *)

Section NameFacts.

Lemma length_append (a b : string) :
  String.length (a ++ b) = String.length a + String.length b.
Proof. induction a as [|c r IH]; simpl; [reflexivity | now rewrite IH]. Qed.

Lemma append_inj_l (a x y : string) : a ++ x = a ++ y -> x = y.
Proof.
  induction a as [|c r IH]; simpl; [trivial|].
  intros H. inversion H. auto.
Qed.

Lemma append_inj_r (s x y : string) : x ++ s = y ++ s -> x = y.
Proof.
  revert y. induction x as [|c r IH]; intros [|d t] H; simpl in H.
  - reflexivity.
  - apply (f_equal String.length) in H. simpl in H. rewrite length_append in H. lia.
  - apply (f_equal String.length) in H. simpl in H. rewrite length_append in H. lia.
  - inversion H. f_equal. auto.
Qed.

Lemma dec_digits (n : nat) : sforall is_digit (dec n) = true.
Proof.
  unfold dec. induction (Nat.to_uint n) as [|d IH|d IH|d IH|d IH|d IH|d IH|d IH|d IH|d IH|d IH];
    simpl; auto.
Qed.

Lemma dec_inj (i j : nat) : dec i = dec j -> i = j.
Proof.
  unfold dec. intros H. apply DecimalNat.Unsigned.to_uint_inj.
  apply (f_equal NilEmpty.uint_of_string) in H.
  rewrite !NilEmpty.usu in H. now inversion H.
Qed.

Lemma digit_class (c : ascii) : is_digit c = true -> alnum_or_underscore c = true.
Proof. each_byte c. Qed.

Lemma base_name_class (album_name : string) (i : nat) :
  sforall alnum_or_underscore (base_name (to_snake_case album_name) i) = true.
Proof.
  unfold base_name. rewrite !sforall_app, to_snake_case_class. simpl.
  apply (sforall_impl is_digit); [apply digit_class | apply dec_digits].
Qed.

Lemma base_name_avoids (c : ascii) (album_name : string) (i : nat) :
  alnum_or_underscore c = false ->
  contains_char c (base_name (to_snake_case album_name) i) = false.
Proof. intros H. apply (class_no_char c _ H), base_name_class. Qed.

Lemma base_name_inj (f : string) (i j : nat) :
  base_name f i = base_name f j -> i = j.
Proof.
  unfold base_name. intros H. apply append_inj_l in H.
  apply (append_inj_l "_") in H. now apply dec_inj.
Qed.

Lemma webp_name_inj (f : string) (i j : nat) :
  webp_name f i = webp_name f j -> i = j.
Proof.
  unfold webp_name. intros H. apply append_inj_r in H. now apply base_name_inj in H.
Qed.

Lemma full_name_inj (album_name : string) (i j : nat) (e e' : string) :
  full_name (to_snake_case album_name) i e = full_name (to_snake_case album_name) j e' ->
  i = j.
Proof.
  unfold full_name. intros H.
  apply (f_equal (before_first ".")) in H.
  change (?b ++ "." ++ ?x) with (b ++ String "." x) in H.
  rewrite !before_first_app in H by (apply base_name_avoids; reflexivity).
  now apply base_name_inj in H.
Qed.

(** A photo entry ["webp_name:extension"] splits back into its two parts. *)
Lemma entry_webp (album_name : string) (i : nat) (e : string) :
  before_first ":" (webp_name (to_snake_case album_name) i ++ ":" ++ e)
  = webp_name (to_snake_case album_name) i.
Proof.
  change (?b ++ ":" ++ ?x) with (b ++ String ":" x).
  apply before_first_app. unfold webp_name.
  rewrite contains_char_app, base_name_avoids by reflexivity. reflexivity.
Qed.

Lemma entry_ext (w e : string) :
  contains_char ":" e = false -> after_last ":" (w ++ ":" ++ e) = e.
Proof. intros H. change (w ++ ":" ++ e) with (w ++ String ":" e). now apply after_last_app. Qed.

Lemma extension_no_colon (name : string) :
  Upload.is_photo_name name = true -> contains_char ":" (extension_of name) = false.
Proof.
  intros H. destruct (extension_of_photo name H) as [->|[->| ->]]; reflexivity.
Qed.

Lemma hidden_full_name (album_name : string) (i : nat) (e : string) :
  hidden (full_name (to_snake_case album_name) i e) = false.
Proof.
  pose proof (to_snake_case_class album_name) as Hc.
  unfold full_name, base_name.
  destruct (to_snake_case album_name) as [|c r]; [reflexivity|].
  simpl in Hc. apply andb_true_iff in Hc as [Hc _]. simpl.
  destruct c as [[] [] [] [] [] [] [] []]; try reflexivity; discriminate Hc.
Qed.

Lemma full_name_is_photo (album_name name : string) (i : nat) :
  Upload.is_photo_name name = true ->
  Upload.is_photo_name (full_name (to_snake_case album_name) i (extension_of name)) = true.
Proof.
  intros H.
  destruct (extension_of_photo name H) as [E|[E|E]]; rewrite E;
    rewrite is_photo_name_extension; unfold extension_matches, extension_of, full_name;
    change (?b ++ "." ++ ?x) with (b ++ String "." x);
    rewrite contains_char_app, after_last_app by reflexivity;
    simpl; now rewrite orb_true_r.
Qed.

Lemma photo_name_not_reserved (name : string) :
  Upload.is_photo_name name = true ->
  name <> "low" /\ name <> "full" /\ name <> "data.json".
Proof. intros H. repeat split; intros ->; discriminate H. Qed.

End NameFacts.

(** ** The loop of [process_album] *)

Lemma set_entry_absent (name : string) (n : node) (d : dir) :
  lookup name d = None -> set_entry name n d = (d ++ [(name, n)])%list.
Proof.
  induction d as [|[k m] r IH]; simpl; [reflexivity|].
  destruct (String.eqb k name); [discriminate|].
  intros H. now rewrite IH.
Qed.

Lemma length_numbered (start : nat) (names : list string) :
  List.length (numbered start names) = List.length names.
Proof.
  revert start. induction names as [|n r IH]; intros start; simpl; [reflexivity|].
  now rewrite IH.
Qed.

Lemma in_numbered (start : nat) (names : list string) (ip : nat * string) :
  In ip (numbered start names) ->
  start <= fst ip < start + List.length names /\ In (snd ip) names.
Proof.
  revert start. induction names as [|n r IH]; intros start; simpl; [intros []|].
  intros [<-|H]; simpl.
  - split; [lia | now left].
  - apply IH in H as [H1 H2]. split; [lia | now right].
Qed.

Section Loop.

Variable ffmpeg : string -> option string.
Variables album_path album_name : string.

Let folder : string := to_snake_case album_name.

Lemma process_photo_ok (st st1 : Upload.loop_state) (p : string) (low full : dir) :
  Upload.process_photo ffmpeg album_path folder st p = Ok st1 ->
  Upload.is_photo_name p = true ->
  lookup "low" (Upload.st_album st) = Some (Dir low) ->
  lookup "full" (Upload.st_album st) = Some (Dir full) ->
  lookup (webp_name folder (Upload.st_index st)) low = None ->
  lookup (full_name folder (Upload.st_index st) (extension_of p)) full = None ->
  exists c t,
    lookup p (Upload.st_album st) = Some (File c) /\ ffmpeg c = Some t /\
    Upload.st_index st1 = S (Upload.st_index st) /\
    Upload.st_photo_data st1 =
      (Upload.st_photo_data st ++ [data_entry folder (Upload.st_index st, p)])%list /\
    Upload.st_album st1 =
      remove_entry p
        (set_entry "low"
           (Dir (low ++ [(webp_name folder (Upload.st_index st), File t)])%list)
           (set_entry "full"
              (Dir (full ++ [(full_name folder (Upload.st_index st) (extension_of p),
                              File c)])%list)
              (Upload.st_album st))).
Proof.
  intros Hrun Hp Hlow Hfull Hw Hf.
  destruct (photo_name_not_reserved p Hp) as (Hpl & Hpf & _).
  unfold Upload.process_photo in Hrun.
  rewrite extension_lower_of_photo in Hrun by assumption.
  fold (base_name folder (Upload.st_index st)) in Hrun.
  fold (full_name folder (Upload.st_index st) (extension_of p)) in Hrun.
  fold (webp_name folder (Upload.st_index st)) in Hrun.
  unfold Upload.cp_to_full in Hrun. rewrite Hfull, Hf in Hrun.
  destruct (lookup p (Upload.st_album st)) as [[c|es]|] eqn:Hsrc; try discriminate Hrun.
  unfold Upload.ffmpeg_to_low in Hrun.
  rewrite !lookup_set_neq, Hsrc, Hlow, Hw in Hrun by (congruence || discriminate).
  destruct (ffmpeg c) as [t|] eqn:Ht; try discriminate Hrun.
  unfold Upload.rm_file in Hrun.
  rewrite !lookup_set_neq, Hsrc in Hrun by congruence.
  inversion Hrun; subst st1; clear Hrun. simpl.
  exists c, t.
  rewrite (set_entry_absent _ _ low Hw), (set_entry_absent _ _ full Hf).
  repeat split; try reflexivity; try assumption. now rewrite Nat.add_1_r.
Qed.

Lemma process_photos_ok (ps : list string) :
  forall (st st' : Upload.loop_state) (low0 full0 : dir),
  Upload.process_photos ffmpeg album_path folder ps st = Ok st' ->
  Forall (fun p => Upload.is_photo_name p = true) ps ->
  lookup "low" (Upload.st_album st) = Some (Dir low0) ->
  lookup "full" (Upload.st_album st) = Some (Dir full0) ->
  (forall j, Upload.st_index st <= j -> lookup (webp_name folder j) low0 = None) ->
  (forall j e, Upload.st_index st <= j -> lookup (full_name folder j e) full0 = None) ->
  let items := numbered (Upload.st_index st) ps in
  NoDup ps /\
  (forall p, In p ps ->
     exists c t, lookup p (Upload.st_album st) = Some (File c) /\ ffmpeg c = Some t) /\
  Upload.st_photo_data st' =
    (Upload.st_photo_data st ++ map (data_entry folder) items)%list /\
  lookup "low" (Upload.st_album st') =
    Some (Dir (low0 ++ map (low_entry ffmpeg folder (Upload.st_album st)) items)%list) /\
  lookup "full" (Upload.st_album st') =
    Some (Dir (full0 ++ map (full_entry folder (Upload.st_album st)) items)%list) /\
  (forall n, n <> "low" -> n <> "full" ->
     lookup n (Upload.st_album st') =
       if in_dec string_dec n ps then None else lookup n (Upload.st_album st)) /\
  (forall k x, In (k, x) (Upload.st_album st') ->
     k = "low" \/ k = "full" \/ (~ In k ps /\ In (k, x) (Upload.st_album st))).
Proof.
  induction ps as [|p rest IH]; intros st st' low0 full0 Hrun Hps Hlow Hfull Hw Hf items.
  - simpl in Hrun. inversion Hrun; subst st'. subst items. simpl.
    rewrite !app_nil_r. repeat split; auto.
    + constructor.
    + intros p [].
  - simpl in Hrun.
    destruct (Upload.process_photo ffmpeg album_path folder st p) as [st1|why a] eqn:Hstep;
      [|discriminate Hrun].
    inversion Hps as [|? ? Hp Hrest]; subst.
    destruct (photo_name_not_reserved p Hp) as (Hpl & Hpf & _).
    destruct (process_photo_ok st st1 p low0 full0 Hstep Hp Hlow Hfull
                (Hw _ (le_n _)) (Hf _ _ (le_n _)))
      as (c & t & Hsrc & Ht & Hidx & Hdata & Halbum).
    assert (Hlook : forall n, n <> "low" -> n <> "full" -> n <> p ->
              lookup n (Upload.st_album st1) = lookup n (Upload.st_album st)).
    { intros n H1 H2 H3. rewrite Halbum.
      now rewrite lookup_remove_neq, !lookup_set_neq by assumption. }
    assert (Hlow1 : lookup "low" (Upload.st_album st1) =
              Some (Dir (low0 ++ [(webp_name folder (Upload.st_index st), File t)])%list)).
    { rewrite Halbum, lookup_remove_neq by congruence. apply lookup_set_eq. }
    assert (Hfull1 : lookup "full" (Upload.st_album st1) =
              Some (Dir (full0 ++ [(full_name folder (Upload.st_index st) (extension_of p),
                                    File c)])%list)).
    { rewrite Halbum, lookup_remove_neq, lookup_set_neq by (congruence || discriminate).
      apply lookup_set_eq. }
    specialize (IH st1 st' _ _ Hrun Hrest Hlow1 Hfull1).
    destruct IH as (Hnd & Hsrcs & Hdata' & Hlow' & Hfull' & Hlook' & Hin').
    { intros j Hj. rewrite Hidx in Hj. rewrite lookup_app_none by (apply Hw; lia).
      simpl. destruct (String.eqb_spec (webp_name folder (Upload.st_index st))
                         (webp_name folder j)) as [E|_]; [|reflexivity].
      apply webp_name_inj in E. lia. }
    { intros j e Hj. rewrite Hidx in Hj. rewrite lookup_app_none by (apply Hf; lia).
      simpl. destruct (String.eqb_spec
                         (full_name folder (Upload.st_index st) (extension_of p))
                         (full_name folder j e)) as [E|_]; [|reflexivity].
      apply full_name_inj in E. lia. }
    assert (Hnotin : ~ In p rest).
    { intros Hin. destruct (Hsrcs p Hin) as (c' & _ & Hc' & _).
      rewrite Halbum, lookup_remove_eq in Hc'. discriminate Hc'. }
    assert (Hcontent : forall ip, In ip (numbered (Upload.st_index st1) rest) ->
              content_of (Upload.st_album st1) (snd ip)
              = content_of (Upload.st_album st) (snd ip)).
    { intros ip Hip. apply in_numbered in Hip as [_ Hip].
      rewrite Forall_forall in Hrest.
      destruct (photo_name_not_reserved _ (Hrest _ Hip)) as (H1 & H2 & _).
      unfold content_of. rewrite Hlook; auto.
      intros E. rewrite E in Hip. contradiction. }
    subst items. cbn [numbered map]. rewrite Hidx in *.
    repeat split.
    + now constructor.
    + intros q [<-|Hq]; [exists c, t; auto|].
      destruct (Hsrcs q Hq) as (c' & t' & Hc' & Ht').
      exists c', t'. split; [|assumption]. rewrite <- Hc'. symmetry.
      rewrite Forall_forall in Hrest.
      destruct (photo_name_not_reserved _ (Hrest _ Hq)) as (H1 & H2 & _).
      apply Hlook; auto. intros ->. contradiction.
    + rewrite Hdata', Hdata, <- app_assoc. reflexivity.
    + rewrite Hlow', <- app_assoc. cbn [app]. do 3 f_equal. f_equal.
      * unfold low_entry, thumb_of, content_of. simpl. now rewrite Hsrc, Ht.
      * apply map_ext_in. intros ip Hip. unfold low_entry.
        now rewrite (Hcontent ip Hip).
    + rewrite Hfull', <- app_assoc. cbn [app]. do 3 f_equal. f_equal.
      * unfold full_entry, content_of. simpl. now rewrite Hsrc.
      * apply map_ext_in. intros ip Hip. unfold full_entry.
        now rewrite (Hcontent ip Hip).
    + intros n H1 H2. rewrite (Hlook' n H1 H2).
      destruct (in_dec string_dec n rest) as [Hn|Hn];
        destruct (in_dec string_dec n (p :: rest)) as [Hn'|Hn']; try reflexivity.
      * exfalso. apply Hn'. now right.
      * destruct Hn' as [<-|Hn']; [|contradiction].
        rewrite Halbum. apply lookup_remove_eq.
      * apply Hlook; auto. intros ->. apply Hn'. now left.
    + intros k x Hk. destruct (Hin' k x Hk) as [?|[?|[Hk1 Hk2]]]; auto.
      rewrite Halbum in Hk2. apply in_remove_entry in Hk2 as [Hkp Hk2].
      apply in_set_entry in Hk2 as [[? _]|Hk2]; auto.
      apply in_set_entry in Hk2 as [[? _]|Hk2]; auto.
      right; right. split; [|assumption]. intros [?|?]; [congruence | contradiction].
Qed.

End Loop.

(** ** Publishing an album *)

Lemma find_photos_nil (d : dir) :
  (forall name c, In (name, File c) d -> Upload.is_photo_name name = false) ->
  Upload.find_photos d = [].
Proof.
  intros H. apply find_photos_none. intros name c Hin.
  rewrite <- is_photo_name_extension. eauto.
Qed.

Lemma count_files_map (A : Type) (name : A -> string) (bytes : A -> string) (l : list A) :
  count_files (Dir (map (fun x => (name x, File (bytes x))) l)) = List.length l.
Proof. induction l as [|x r IH]; simpl in *; [reflexivity | now rewrite IH]. Qed.

Lemma album_path_eqb (src dst : string) :
  String.eqb (Upload.ALBUMS_DIR ++ "/" ++ src ++ "/")
             ((Upload.ALBUMS_DIR ++ "/" ++ dst) ++ "/")
  = String.eqb src dst.
Proof.
  destruct (String.eqb_spec src dst) as [->|Hne].
  - rewrite !append_assoc. apply String.eqb_refl.
  - apply String.eqb_neq. intros H. apply Hne.
    rewrite !append_assoc in H. apply append_inj_l in H.
    apply (append_inj_l "/") in H. now apply append_inj_r in H.
Qed.

Lemma mv_album_at (src dst : string) (album albums albums' : dir) :
  src <> dst ->
  Upload.mv_album src dst album albums = Some albums' ->
  album_at albums' dst src album /\
  (lookup dst albums = None -> lookup dst albums' = Some (Dir album)).
Proof.
  intros Hne. unfold Upload.mv_album.
  destruct (String.eqb dst EmptyString); [discriminate|].
  destruct (lookup dst albums) as [[c|target]|] eqn:Hdst; [discriminate| |].
  - intros H. split; [|discriminate].
    assert (E : albums' = set_entry dst (Dir (set_entry src (Dir album) target))
                            (remove_entry src albums)).
    { destruct (lookup src target) as [[c|[|e es]]|]; inversion H; reflexivity. }
    subst albums'. right. exists (set_entry src (Dir album) target).
    now rewrite !lookup_set_eq.
  - intros H. inversion H; subst albums'; clear H.
    assert (E : lookup dst (remove_entry src albums ++ [(dst, Dir album)])%list
                = Some (Dir album)).
    { rewrite lookup_app_none by (rewrite lookup_remove_neq by congruence; assumption).
      simpl. now rewrite String.eqb_refl. }
    split; [now left | intros _; exact E].
Qed.

Section Publish.

Variable ffmpeg : string -> option string.
Variable echo_e : string -> string.

Lemma process_album_dir_ok
    (album_path album_name photographer_name timestamp : string) (random : nat)
    (album album' : dir) (photo_data : list string) :
  raw_album album ->
  Upload.process_album_dir ffmpeg echo_e album_path album_name photographer_name
    timestamp random album = Ok (album', photo_data) ->
  let folder := to_snake_case album_name in
  let photos := Upload.find_photos album in
  let items := numbered 1 photos in
  NoDup photos /\
  (forall p, In p photos ->
     exists c t, lookup p album = Some (File c) /\ ffmpeg c = Some t) /\
  photo_data = map (data_entry folder) items /\
  lookup "low" album' = Some (Dir (map (low_entry ffmpeg folder album) items)) /\
  lookup "full" album' = Some (Dir (map (full_entry folder album) items)) /\
  lookup "data.json" album' =
    Some (File (Upload.data_json echo_e album_name photographer_name timestamp
                  (Upload.cover_photo random photo_data) photo_data)) /\
  (forall n, n <> "low" -> n <> "full" -> n <> "data.json" ->
     lookup n album' = if in_dec string_dec n photos then None else lookup n album) /\
  Upload.find_photos album' = [].
Proof.
  intros (Hd & Hl & Hf) Hrun folder photos items.
  unfold Upload.process_album_dir, mkdir_p in Hrun.
  rewrite Hl in Hrun.
  rewrite lookup_set_neq, Hf in Hrun by discriminate.
  set (a2 := set_entry "full" (Dir []) (set_entry "low" (Dir []) album)) in Hrun.
  destruct (Upload.process_photos ffmpeg album_path (to_snake_case album_name)
              (Upload.find_photos album) (Upload.mk_loop_state a2 1 []))
    as [st|why a] eqn:Hloop; [|discriminate Hrun].
  assert (Hphotos : Forall (fun p => Upload.is_photo_name p = true) photos).
  { apply Forall_forall. intros p Hp. apply find_photos_in in Hp as (c & _ & Hp). exact Hp. }
  assert (Ha2 : forall n, n <> "low" -> n <> "full" -> lookup n a2 = lookup n album).
  { intros n H1 H2. unfold a2. now rewrite !lookup_set_neq by assumption. }
  destruct (process_photos_ok ffmpeg album_path album_name photos _ st [] [] Hloop Hphotos)
    as (Hnd & Hsrc & Hdata & Hlow & Hfull & Hlook & Hin).
  { unfold a2. simpl. rewrite lookup_set_neq by discriminate. apply lookup_set_eq. }
  { unfold a2. simpl. apply lookup_set_eq. }
  { reflexivity. }
  { reflexivity. }
  simpl in Hdata, Hlow, Hfull, Hlook, Hin, Hsrc. fold folder in Hdata, Hlow, Hfull.
  assert (Hcontent : forall ip, In ip items -> content_of a2 (snd ip) = content_of album (snd ip)).
  { intros ip Hip. apply in_numbered in Hip as [_ Hip].
    rewrite Forall_forall in Hphotos.
    destruct (photo_name_not_reserved _ (Hphotos _ Hip)) as (H1 & H2 & _).
    unfold content_of. now rewrite Ha2. }
  assert (Hjson : is_dir (lookup "data.json" (Upload.st_album st)) = false).
  { rewrite Hlook by discriminate.
    destruct (in_dec string_dec "data.json" photos); [reflexivity|].
    rewrite Ha2 by discriminate. now rewrite Hd. }
  rewrite write_file_set in Hrun by assumption.
  inversion Hrun; subst album' photo_data; clear Hrun.
  repeat split.
  - exact Hnd.
  - intros p Hp. destruct (Hsrc p Hp) as (c & t & Hc & Ht). exists c, t.
    split; [|assumption]. rewrite <- Hc. symmetry.
    rewrite Forall_forall in Hphotos.
    destruct (photo_name_not_reserved _ (Hphotos _ Hp)) as (H1 & H2 & _). now apply Ha2.
  - exact Hdata.
  - rewrite lookup_set_neq, Hlow by discriminate. do 2 f_equal.
    apply map_ext_in. intros ip Hip. unfold low_entry. now rewrite Hcontent.
  - rewrite lookup_set_neq, Hfull by discriminate. do 2 f_equal.
    apply map_ext_in. intros ip Hip. unfold full_entry. now rewrite Hcontent.
  - apply lookup_set_eq.
  - intros n H1 H2 H3. rewrite lookup_set_neq, Hlook by assumption.
    destruct (in_dec string_dec n photos); [reflexivity | now apply Ha2].
  - apply find_photos_nil. intros name c Hname.
    destruct (Upload.is_photo_name name) eqn:Hp; [exfalso | reflexivity].
    destruct (photo_name_not_reserved _ Hp) as (H1 & H2 & H3).
    apply in_set_entry in Hname as [[? _]|Hname]; [contradiction|].
    apply Hin in Hname as [?|[?|[Hnot Hname]]]; try contradiction.
    unfold a2 in Hname.
    apply in_set_entry in Hname as [[? _]|Hname]; [contradiction|].
    apply in_set_entry in Hname as [[? _]|Hname]; [contradiction|].
    apply Hnot. apply find_photos_in. eauto.
Qed.

End Publish.

(** How a completed run of [process_album] decomposes. *)
Lemma process_album_processed
    (ffmpeg : string -> option string) (echo_e : string -> string)
    (albums album albums' : dir)
    (album_dir_name album_name photographer_name timestamp : string)
    (random photo_count : nat) :
  lookup album_dir_name albums = Some (Dir album) ->
  Upload.process_album ffmpeg echo_e albums album_dir_name album_name
    photographer_name timestamp random = Upload.Processed albums' photo_count ->
  let folderName := to_snake_case album_name in
  let N := List.length (Upload.find_photos album) in
  photo_count = N /\ N <> 0 /\
  exists (album' : dir) (photo_data : list string),
    Upload.process_album_dir ffmpeg echo_e
      (Upload.ALBUMS_DIR ++ "/" ++ album_dir_name ++ "/")
      album_name photographer_name timestamp random album = Ok (album', photo_data) /\
    album_at albums' folderName album_dir_name album' /\
    (album_dir_name = folderName \/ lookup folderName albums = None ->
     lookup folderName albums' = Some (Dir album')).
Proof.
  intros Hdir Hrun folderName N.
  unfold Upload.process_album in Hrun. rewrite Hdir in Hrun. fold N in Hrun.
  destruct (Nat.eqb_spec N 0) as [|HN]; [discriminate Hrun|].
  destruct (Upload.process_album_dir ffmpeg echo_e _ album_name photographer_name
              timestamp random album) as [[album' photo_data]|why a] eqn:Hpub;
    [|discriminate Hrun].
  rewrite album_path_eqb in Hrun. fold folderName in Hrun.
  destruct (String.eqb_spec album_dir_name folderName) as [E|Hne].
  - inversion Hrun; subst albums' photo_count.
    assert (Hl : lookup folderName (set_entry album_dir_name (Dir album') albums)
                 = Some (Dir album')) by (rewrite <- E; apply lookup_set_eq).
    split; [reflexivity|]. split; [assumption|].
    exists album', photo_data. split; [reflexivity|]. split; [now left | auto].
  - destruct (Upload.mv_album album_dir_name folderName album'
                (set_entry album_dir_name (Dir album') albums)) as [albums2|] eqn:Hmv;
      [|discriminate Hrun].
    inversion Hrun; subst albums2 photo_count.
    destruct (mv_album_at _ _ _ _ _ Hne Hmv) as [Hat Hfresh].
    split; [reflexivity|]. split; [assumption|].
    exists album', photo_data. split; [reflexivity|]. split; [assumption|].
    intros [E|Hnone]; [contradiction|]. apply Hfresh.
    rewrite lookup_set_neq by congruence. exact Hnone.
Qed.

Lemma map_fst_numbered (start : nat) (names : list string) :
  map fst (numbered start names) = seq start (List.length names).
Proof.
  revert start. induction names as [|n r IH]; intros start; simpl; [reflexivity|].
  now rewrite IH.
Qed.

Lemma photo_fields_data_entry (album_name : string) (ip : nat * string) :
  Upload.is_photo_name (snd ip) = true ->
  photo_fields (data_entry (to_snake_case album_name) ip)
  = (webp_name (to_snake_case album_name) (fst ip), extension_of (snd ip)).
Proof.
  intros H. unfold photo_fields, data_entry.
  now rewrite entry_webp, entry_ext by now apply extension_no_colon.
Qed.

Lemma cover_photo_in (album_name : string) (random : nat) (items : list (nat * string)) :
  items <> [] ->
  In (Upload.cover_photo random (map (data_entry (to_snake_case album_name)) items))
     (map (fun ip => webp_name (to_snake_case album_name) (fst ip)) items).
Proof.
  intros Hne. unfold Upload.cover_photo. rewrite length_map.
  assert (Hlt : random mod List.length items < List.length items).
  { apply Nat.mod_upper_bound. destruct items; [congruence | discriminate]. }
  set (k := random mod List.length items) in *.
  rewrite (nth_indep _ EmptyString (data_entry (to_snake_case album_name) (0, EmptyString)))
    by now rewrite length_map.
  rewrite map_nth. unfold data_entry at 1. rewrite entry_webp.
  apply (in_map (fun ip => webp_name (to_snake_case album_name) (fst ip))).
  now apply nth_In.
Qed.

(** ** C1: what publishing leaves *)

Lemma cmd_subst_line (a : string) (c : ascii) :
  Ascii.eqb c nl = false ->
  cmd_subst (a ++ String c Upload.NL) = a ++ String c EmptyString.
Proof.
  intros Hc. induction a as [|x r IH].
  - cbn [append cmd_subst Upload.NL]. rewrite Ascii.eqb_refl, Hc. reflexivity.
  - cbn [append cmd_subst]. rewrite IH.
    destruct r; cbn [append String.eqb]; now rewrite andb_false_r.
Qed.

Lemma photos_json_items_source (photo_data : list string) :
  Upload.photos_json_items false photo_data
  = more_lines_source (map record_text (map photo_fields photo_data)) /\
  Upload.photos_json_items true photo_data
  = lines_source (map record_text (map photo_fields photo_data)).
Proof.
  assert (H : forall l, Upload.photos_json_items false l
                        = more_lines_source (map record_text (map photo_fields l))).
  { induction l as [|a r IH]; [reflexivity|].
    cbn [Upload.photos_json_items map more_lines_source]. now rewrite IH. }
  split; [apply H|]. destruct photo_data as [|a r]; [reflexivity|].
  cbn [Upload.photos_json_items map lines_source]. now rewrite H.
Qed.

Lemma record_text_plain (r : string * string) :
  contains_char "\" (fst r) = false -> contains_char "\" (snd r) = false ->
  contains_char "\" (record_text r) = false.
Proof.
  intros H1 H2. unfold record_text.
  rewrite !contains_char_app, !quoted_plain by (reflexivity || assumption).
  reflexivity.
Qed.

(** What the here-document of [process_album] writes for records without a
    backslash. *)
Lemma data_json_written (echo_e : string -> string)
    (album_name photographer_name timestamp coverPhoto : string)
    (photo_data : list string) :
  expands_newlines echo_e ->
  (forall e, In e photo_data ->
     contains_char "\" (fst (photo_fields e)) = false /\
     contains_char "\" (snd (photo_fields e)) = false) ->
  Upload.data_json echo_e album_name photographer_name timestamp coverPhoto photo_data
  = metadata_text album_name photographer_name timestamp coverPhoto
      (map photo_fields photo_data).
Proof.
  intros Hecho Hplain.
  set (records := map record_text (map photo_fields photo_data)).
  assert (Hr : forall x, In x records -> contains_char "\" x = false).
  { intros x Hx. unfold records in Hx. rewrite map_map in Hx.
    apply in_map_iff in Hx as (e & <- & He).
    destruct (Hplain e He). now apply record_text_plain. }
  destruct (lines_expand records "\n  ]" Hr) as [L1 L2].
  assert (Hout : cmd_subst (echo_e (Upload.photos_json photo_data))
                 = "[" ++ lines_text records ++ Upload.NL ++ "  ]").
  { unfold Upload.photos_json. rewrite (proj2 (photos_json_items_source photo_data)).
    fold records. set (X := lines_source records ++ "\n  ]") in *.
    rewrite Hecho.
    - change (expand_newline_escapes ("[" ++ X)) with ("[" ++ expand_newline_escapes X).
      rewrite L2.
      change (expand_newline_escapes "\n  ]") with (Upload.NL ++ "  " ++ String "]" EmptyString).
      replace (("[" ++ lines_text records ++ Upload.NL ++ "  " ++ String "]" EmptyString)
                 ++ Upload.NL)
        with (("[" ++ lines_text records ++ Upload.NL ++ "  ") ++ String "]" Upload.NL)
        by (rewrite !append_assoc; reflexivity).
      rewrite cmd_subst_line by reflexivity.
      rewrite !append_assoc. reflexivity.
    - reflexivity.
    - change (newline_escapes_only X = true). rewrite L1. reflexivity. }
  unfold Upload.data_json, metadata_text. rewrite Hout. fold records.
  rewrite !append_assoc. reflexivity.
Qed.

Lemma extension_no_backslash (name : string) :
  Upload.is_photo_name name = true -> contains_char "\" (extension_of name) = false.
Proof.
  intros H. destruct (extension_of_photo name H) as [->|[->| ->]]; reflexivity.
Qed.

(** C1. For a raw album with N photos (regular files named [*.jpg],
    [*.jpeg] or [*.png] in any case, N >= 1 for the run to get this far), a
    run of [process_album] that reaches its end reports N photos and leaves
    an album in which [low/] and [full/] each hold exactly N files, named
    [{folderName}_{i}.webp] and [{folderName}_{i}.{ext}] for i = 1..N in the
    order the photos were found; [data.json] is, with [echo -e] turning each
    [\n] of the script into a newline, the text that gives the name, the
    photographer, the date and the cover photo and lists exactly the N
    records [{"webp": "{folderName}_{i}.webp", "ext": "{ext}"}] in that
    order, the cover photo being the webp name of one of them; and a new
    search of the album finds no photo. *)
Theorem process_album_published
    (ffmpeg : string -> option string) (echo_e : string -> string)
    (albums album albums' : dir)
    (album_dir_name album_name photographer_name timestamp : string)
    (random photo_count : nat) :
  expands_newlines echo_e ->
  lookup album_dir_name albums = Some (Dir album) ->
  raw_album album ->
  Upload.process_album ffmpeg echo_e albums album_dir_name album_name
    photographer_name timestamp random = Upload.Processed albums' photo_count ->
  let folderName := to_snake_case album_name in
  let photos := Upload.find_photos album in
  let N := List.length photos in
  let records := photo_records folderName photos in
  photo_count = N /\ 1 <= N /\
  exists (album' low full : dir) (coverPhoto : string),
    album_at albums' folderName album_dir_name album' /\
    lookup "low" album' = Some (Dir low) /\
    count_files (Dir low) = N /\
    map fst low = map (webp_name folderName) (seq 1 N) /\
    lookup "full" album' = Some (Dir full) /\
    count_files (Dir full) = N /\
    map fst full =
      map (fun ip => full_name folderName (fst ip) (extension_of (snd ip)))
          (numbered 1 photos) /\
    lookup "data.json" album' =
      Some (File (metadata_text album_name photographer_name timestamp
                    coverPhoto records)) /\
    List.length records = N /\
    In coverPhoto (map fst records) /\
    Upload.find_photos album' = [].
Proof.
  intros Hecho Hdir Hraw Hrun folderName photos N records.
  destruct (process_album_processed _ _ _ _ _ _ _ _ _ _ _ Hdir Hrun)
    as (-> & HN & album' & photo_data & Hpub & Hat & _).
  fold photos N in HN. fold folderName in Hat.
  destruct (process_album_dir_ok ffmpeg echo_e _ _ _ _ _ _ _ _ Hraw Hpub)
    as (Hnd & Hsrc & Hdata & Hlow & Hfull & Hjson & Hlook & Hfind).
  fold folderName photos in Hsrc, Hdata, Hlow, Hfull, Hlook.
  assert (Hitems : forall ip, In ip (numbered 1 photos) ->
            Upload.is_photo_name (snd ip) = true).
  { intros ip Hip. apply in_numbered in Hip as [_ Hip].
    apply find_photos_in in Hip as (c & _ & Hp). exact Hp. }
  assert (Hfields : map photo_fields photo_data = records).
  { rewrite Hdata, map_map. apply map_ext_in. intros ip Hip.
    apply photo_fields_data_entry. auto. }
  assert (Hplain : forall e, In e photo_data ->
            contains_char "\" (fst (photo_fields e)) = false /\
            contains_char "\" (snd (photo_fields e)) = false).
  { intros e He. rewrite Hdata in He. apply in_map_iff in He as (ip & <- & Hip).
    unfold folderName. rewrite photo_fields_data_entry by auto. cbn [fst snd]. split.
    - unfold webp_name. rewrite contains_char_app, base_name_avoids by reflexivity.
      reflexivity.
    - apply extension_no_backslash. auto. }
  split; [reflexivity|]. split; [lia|].
  exists album', (map (low_entry ffmpeg folderName album) (numbered 1 photos)),
    (map (full_entry folderName album) (numbered 1 photos)),
    (Upload.cover_photo random photo_data).
  repeat split; try assumption.
  - unfold low_entry. rewrite count_files_map. apply length_numbered.
  - rewrite map_map. cbn [low_entry fst].
    rewrite <- (map_map fst (webp_name folderName)), map_fst_numbered. reflexivity.
  - unfold full_entry. rewrite count_files_map. apply length_numbered.
  - now rewrite map_map.
  - rewrite Hjson, (data_json_written echo_e _ _ _ _ _ Hecho Hplain), Hfields.
    reflexivity.
  - unfold records, photo_records. rewrite length_map. apply length_numbered.
  - unfold records, photo_records. rewrite map_map. cbn [fst]. rewrite Hdata.
    apply cover_photo_in.
    destruct photos; [contradiction HN; reflexivity | discriminate].
Qed.

Lemma process_album_published_witness :
  2 = List.length
        (Upload.find_photos
           [("IMG_1.JPG", File "aaa"); ("notes.txt", File "n"); ("b.png", File "bbb")]).
Proof.
  refine (proj1 (process_album_published
    (fun c => Some ("webp " ++ c)) (fun s => expand_newline_escapes s ++ Upload.NL)
    [("My Album", Dir [("IMG_1.JPG", File "aaa"); ("notes.txt", File "n");
                       ("b.png", File "bbb")])]
    [("IMG_1.JPG", File "aaa"); ("notes.txt", File "n"); ("b.png", File "bbb")]
    [("spring_formal_2024",
      Dir [("notes.txt", File "n");
           ("low", Dir [("spring_formal_2024_1.webp", File "webp aaa");
                        ("spring_formal_2024_2.webp", File "webp bbb")]);
           ("full", Dir [("spring_formal_2024_1.jpg", File "aaa");
                         ("spring_formal_2024_2.png", File "bbb")]);
           ("data.json",
            File (metadata_text "Spring Formal 2024!" "Bob"
                    "2024-01-01T00:00:00Z" "spring_formal_2024_2.webp"
                    [("spring_formal_2024_1.webp", "jpg");
                     ("spring_formal_2024_2.webp", "png")]))])]
    "My Album" "Spring Formal 2024!" "Bob" "2024-01-01T00:00:00Z" 5 2
    _ eq_refl (conj eq_refl (conj eq_refl eq_refl)) eq_refl)).
  intros s _ _. reflexivity.
Defined.

(** ** Resetting a published album *)

Lemma insert_by_name_perm (e : string * node) (l : dir) :
  Permutation (insert_by_name e l) (e :: l).
Proof.
  induction l as [|x r IH]; simpl; [reflexivity|].
  destruct (String.leb (fst e) (fst x)); [reflexivity|].
  rewrite IH. apply perm_swap.
Qed.

Lemma sort_by_name_perm (d : dir) : Permutation (sort_by_name d) d.
Proof.
  induction d as [|x r IH]; simpl; [reflexivity|].
  rewrite insert_by_name_perm. now constructor.
Qed.

Lemma filter_all (A : Type) (f : A -> bool) (l : list A) :
  (forall x, In x l -> f x = true) -> filter f l = l.
Proof.
  induction l as [|x r IH]; simpl; [reflexivity|].
  intros H. rewrite (H x (or_introl eq_refl)), IH; auto.
Qed.

Lemma glob_star_visible (d : dir) :
  (forall e, In e d -> hidden (fst e) = false) ->
  Permutation (glob_star d) d.
Proof.
  intros H. unfold glob_star. rewrite filter_all; [apply sort_by_name_perm|].
  intros e He. now rewrite (H e He).
Qed.

(** Moving entries whose names are free in the album root. *)
Lemma mv_all_fresh (sources : dir) :
  forall (album full : dir),
  NoDup (map fst sources) ->
  (forall name n, In (name, n) sources -> lookup name album = None /\ name <> "full") ->
  lookup "full" album = Some (Dir full) ->
  exists album1 full1,
    ResetAlbum.mv_all sources album = (album1, true) /\
    lookup "full" album1 = Some (Dir full1) /\
    (forall name n, In (name, n) sources -> lookup name album1 = Some n) /\
    (forall k, k <> "full" -> ~ In k (map fst sources) -> lookup k album1 = lookup k album).
Proof.
  induction sources as [|[name n] rest IH]; intros album full Hnd Hfree Hfull.
  - exists album, full. simpl. repeat split; auto. intros ? ? [].
  - inversion Hnd as [|? ? Hnotin Hnd']; subst.
    destruct (Hfree name n (or_introl eq_refl)) as [Hnone Hname].
    cbn [ResetAlbum.mv_all]. unfold ResetAlbum.mv_to_root. rewrite Hnone, Hfull. cbn [ResetAlbum.may_replace].
    set (mid := set_entry name n (set_entry "full" (Dir (remove_entry name full)) album)).
    assert (Hmid : forall k, k <> "full" -> k <> name -> lookup k mid = lookup k album).
    { intros k H1 H2. unfold mid. now rewrite !lookup_set_neq by assumption. }
    destruct (IH mid (remove_entry name full) Hnd') as (album1 & full1 & Hmv & Hf1 & Hin & Hout).
    { intros k m Hk. destruct (Hfree k m (or_intror Hk)) as [Hk1 Hk2].
      split; [|assumption]. rewrite Hmid; auto.
      intros ->. apply Hnotin. now apply (in_map fst) in Hk. }
    { unfold mid. rewrite lookup_set_neq by congruence. apply lookup_set_eq. }
    exists album1, full1. repeat split; auto.
    + intros k m [E|Hk]; [|now apply Hin].
      inversion E; subst k m. rewrite Hout; auto. apply lookup_set_eq.
    + intros k H1 H2. simpl in H2. rewrite Hout by tauto.
      apply Hmid; auto.
Qed.

Lemma full_names_nodup (album_name : string) (album0 : dir) (names : list string) (start : nat) :
  NoDup (map fst (map (full_entry (to_snake_case album_name) album0) (numbered start names))).
Proof.
  revert start. induction names as [|n r IH]; intros start; simpl; constructor; [|apply IH].
  rewrite map_map. intros H. apply in_map_iff in H as (ip & E & Hip).
  apply in_numbered in Hip as [Hip _]. simpl in E.
  apply full_name_inj in E. lia.
Qed.

Lemma count_files_regular (d : dir) :
  (forall name n, In (name, n) d -> exists c, n = File c) ->
  count_files (Dir d) = List.length d.
Proof.
  induction d as [|[k n] r IH]; intros H; [reflexivity|].
  destruct (H k n (or_introl eq_refl)) as [c ->].
  change (count_files (Dir ((k, File c) :: r))) with (S (count_files (Dir r))).
  simpl. f_equal. apply IH. intros name m Hin. apply (H name m). now right.
Qed.

(** A confirmed reset of an album whose [full/] holds visible regular files
    under names that are free in the album root: each of them is moved to
    the root, the count reported is their number, and the rest of the root
    stays but for [low/], [full/] and [data.json]. Of [data.json] only the
    presence enters. *)
Lemma reset_album_restores (albums album full : dir) (album_name confirm : string) :
  lookup album_name albums = Some (Dir album) ->
  is_file (lookup "data.json" album) = true ->
  lookup "full" album = Some (Dir full) ->
  full <> [] ->
  NoDup (map fst full) ->
  (forall name n, In (name, n) full ->
     hidden name = false /\ (exists c, n = File c) /\ lookup name album = None) ->
  confirm = "y" \/ confirm = "Y" ->
  exists restored,
    ResetAlbum.reset_album albums album_name confirm
      = ResetAlbum.ResetDone (set_entry album_name (Dir restored) albums)
          (List.length full) /\
    (forall name n, In (name, n) full -> lookup name restored = Some n) /\
    (forall k, ~ In k (map fst full) -> k <> "low" -> k <> "full" -> k <> "data.json" ->
       lookup k restored = lookup k album) /\
    is_dir (lookup "low" restored) = false /\
    (is_dir (lookup "low" album) = true -> lookup "low" restored = None) /\
    lookup "full" restored = None /\
    lookup "data.json" restored = None.
Proof.
  intros Hdir Hjson Hfull Hne Hnd Hfiles Hconfirm.
  assert (Hperm : Permutation (glob_star full) full).
  { apply glob_star_visible. intros [name n] He. now apply (Hfiles name n). }
  assert (Hsrc : forall name, In name (map fst (glob_star full)) <-> In name (map fst full)).
  { intros name. split; apply Permutation_in;
      [|apply Permutation_sym]; apply Permutation_map; exact Hperm. }
  destruct (mv_all_fresh (glob_star full) album full) as
    (album1 & full1 & Hmv & Hfull1 & Hmoved & Hkept).
  { apply (Permutation_NoDup (Permutation_sym (Permutation_map fst Hperm))), Hnd. }
  { intros name n Hin. apply (Permutation_in _ Hperm) in Hin.
    destruct (Hfiles name n Hin) as (_ & _ & Hnone).
    split; [assumption | intros ->; congruence]. }
  { exact Hfull. }
  assert (Hjson1 : lookup "data.json" album1 = lookup "data.json" album).
  { apply Hkept; [discriminate|]. rewrite Hsrc. intros Hin.
    apply in_map_iff in Hin as ([name n] & E & Hin). simpl in E. subst name.
    destruct (Hfiles _ _ Hin) as (_ & _ & Hnone). rewrite Hnone in Hjson.
    discriminate Hjson. }
  set (album2 := if is_dir (lookup "low" album1) then remove_entry "low" album1 else album1).
  set (album3 := remove_entry "full" album2).
  assert (H2 : forall k, k <> "low" -> lookup k album2 = lookup k album1).
  { intros k Hk. unfold album2. destruct (is_dir (lookup "low" album1)); [|reflexivity].
    now apply lookup_remove_neq. }
  assert (Hlow2 : is_dir (lookup "low" album2) = false).
  { unfold album2. destruct (is_dir (lookup "low" album1)) eqn:E; [|exact E].
    now rewrite lookup_remove_eq. }
  assert (Hlow2' : forall n, lookup "low" album1 = Some (File n) ->
            lookup "low" album2 = Some (File n)).
  { intros n E. unfold album2. now rewrite E. }
  assert (Hjson3 : is_file (lookup "data.json" album3) = true).
  { unfold album3. rewrite lookup_remove_neq, H2, Hjson1 by discriminate. exact Hjson. }
  exists (remove_entry "data.json" album3).
  split; [|split; [|split; [|split; [|split; [|split]]]]].
  - unfold ResetAlbum.reset_album. rewrite Hdir, Hjson, Hfull. cbn [negb].
    assert (Hc : negb (String.eqb confirm "y") && negb (String.eqb confirm "Y") = false)
      by (destruct Hconfirm; subst confirm; reflexivity).
    rewrite Hc, count_files_regular by (intros name n Hin; now apply (Hfiles name n)).
    destruct (glob_star full) as [|e sources] eqn:Hg.
    + apply Permutation_nil in Hperm. contradiction.
    + rewrite Hmv. fold album2 album3. now rewrite Hjson3.
  - intros name n Hin. destruct (Hfiles name n Hin) as (_ & [c ->] & Hnone).
    assert (Hname : name <> "full" /\ name <> "data.json").
    { split; intros ->; [congruence | rewrite Hnone in Hjson; discriminate Hjson]. }
    destruct Hname as [Hn1 Hn2].
    assert (H1 : lookup name album1 = Some (File c)).
    { apply Hmoved. now apply (Permutation_in _ (Permutation_sym Hperm)). }
    unfold album3. rewrite !lookup_remove_neq by assumption.
    destruct (string_dec name "low") as [->|Hn3]; [now apply Hlow2'|].
    now rewrite H2.
  - intros k Hk H1 H3 H4. unfold album3.
    rewrite !lookup_remove_neq, H2 by assumption.
    apply Hkept; [assumption | now rewrite Hsrc].
  - unfold album3. now rewrite !lookup_remove_neq by discriminate.
  - intros Hlow. unfold album3. rewrite !lookup_remove_neq by discriminate.
    assert (E : lookup "low" album1 = lookup "low" album).
    { apply Hkept; [discriminate|]. rewrite Hsrc. intros Hin.
      apply in_map_iff in Hin as ([name n] & E & Hin). simpl in E. subst name.
      destruct (Hfiles _ _ Hin) as (_ & _ & Hnone). rewrite Hnone in Hlow.
      discriminate Hlow. }
    unfold album2. rewrite E, Hlow. apply lookup_remove_eq.
  - unfold album3. rewrite lookup_remove_neq by discriminate. apply lookup_remove_eq.
  - apply lookup_remove_eq.
Qed.

(** ** C2: reset after publish *)

(** C2, as amended. Take a raw album with N photos in which no subdirectory
    is named like a photo, published under a folder name that no other
    album holds, and answer the prompt of the reset with [y] or [Y]. Then
    the reset ends
    normally, reports N photos, and leaves an album root in which the file
    [{folderName}_{i}.{ext}] has the bytes of the i-th original photo, for
    i = 1..N; these N names are distinct and are the only photo files of the
    root; an original name that is not one of them is gone; and [low/],
    [full/] and [data.json] are gone. *)
Theorem reset_after_publish
    (ffmpeg : string -> option string) (echo_e : string -> string)
    (albums album albums' : dir)
    (album_dir_name album_name photographer_name timestamp confirm : string)
    (random photo_count : nat) :
  lookup album_dir_name albums = Some (Dir album) ->
  raw_album album ->
  (forall name es, In (name, Dir es) album -> Upload.is_photo_name name = false) ->
  album_dir_name = to_snake_case album_name
    \/ lookup (to_snake_case album_name) albums = None ->
  confirm = "y" \/ confirm = "Y" ->
  Upload.process_album ffmpeg echo_e albums album_dir_name album_name
    photographer_name timestamp random = Upload.Processed albums' photo_count ->
  let folderName := to_snake_case album_name in
  let photos := Upload.find_photos album in
  let N := List.length photos in
  let restored_name (ip : nat * string) :=
    full_name folderName (fst ip) (extension_of (snd ip)) in
  exists (albums'' restored : dir),
    ResetAlbum.reset_album albums' folderName confirm = ResetAlbum.ResetDone albums'' N /\
    lookup folderName albums'' = Some (Dir restored) /\
    List.length (numbered 1 photos) = N /\
    NoDup (map restored_name (numbered 1 photos)) /\
    (forall ip, In ip (numbered 1 photos) ->
       lookup (restored_name ip) restored = Some (File (content_of album (snd ip)))) /\
    (forall name, Upload.is_photo_name name = true ->
       is_file (lookup name restored) = true ->
       In name (map restored_name (numbered 1 photos))) /\
    (forall p, In p photos -> ~ In p (map restored_name (numbered 1 photos)) ->
       lookup p restored = None) /\
    lookup "low" restored = None /\ lookup "full" restored = None /\
    lookup "data.json" restored = None.
Proof.
  intros Hdir Hraw Hnodir Hfree Hconfirm Hrun folderName photos N restored_name.
  destruct (process_album_processed _ _ _ _ _ _ _ _ _ _ _ Hdir Hrun)
    as (-> & HN & album' & photo_data & Hpub & _ & Hloc).
  specialize (Hloc Hfree). fold folderName in Hloc. fold photos N in HN.
  destruct (process_album_dir_ok ffmpeg echo_e _ _ _ _ _ _ _ _ Hraw Hpub)
    as (_ & _ & _ & Hlow & Hfull & Hjson & Hlook & _).
  fold folderName photos in Hlow, Hfull, Hlook.
  set (items := numbered 1 photos) in *.
  set (full := map (full_entry folderName album) items) in *.
  assert (Hitems : forall ip, In ip items -> Upload.is_photo_name (restored_name ip) = true).
  { intros ip Hip. apply full_name_is_photo.
    apply in_numbered in Hip as [_ Hip].
    apply find_photos_in in Hip as (c & _ & Hp). exact Hp. }
  assert (Hnames : map fst full = map restored_name items).
  { unfold full. now rewrite map_map. }
  assert (Hlen : List.length full = N).
  { unfold full, items. rewrite length_map. apply length_numbered. }
  assert (Hold : forall name, Upload.is_photo_name name = true ->
            is_file (lookup name album') = false /\
            (In name (map restored_name items) -> lookup name album' = None)).
  { intros name Hp. destruct (photo_name_not_reserved _ Hp) as (H1 & H2 & H3).
    rewrite Hlook by assumption.
    destruct (in_dec string_dec name photos) as [|Hnot]; [auto|].
    destruct (lookup name album) as [[c|es]|] eqn:E; auto.
    - exfalso. apply Hnot. apply find_photos_in. exists c. split; [|assumption].
      now apply lookup_in.
    - apply lookup_in in E. rewrite (Hnodir _ _ E) in Hp. discriminate Hp. }
  destruct (reset_album_restores albums' album' full folderName confirm Hloc)
    as (restored & Hreset & Hmoved & Hkept & _ & Hlow' & Hfull' & Hjson');
    try assumption.
  { now rewrite Hjson. }
  { intros E. apply HN. now rewrite <- Hlen, E. }
  { apply full_names_nodup. }
  { intros name n Hin. apply in_map_iff in Hin as (ip & E & Hip).
    inversion E; subst name n. fold (restored_name ip).
    split; [apply hidden_full_name|]. split; [eauto|].
    apply Hold; [now apply Hitems | now apply in_map]. }
  rewrite Hlen in Hreset. rewrite Hnames in Hkept.
  exists (set_entry folderName (Dir restored) albums'), restored.
  split; [exact Hreset|]. split; [apply lookup_set_eq|].
  split; [apply length_numbered|].
  split; [rewrite <- Hnames; apply full_names_nodup|].
  split; [|split; [|split; [|split; [|split]]]].
  - intros ip Hip. apply Hmoved. unfold full. apply in_map_iff. exists ip. auto.
  - intros name Hp Hfile.
    destruct (photo_name_not_reserved _ Hp) as (H1 & H2 & H3).
    destruct (in_dec string_dec name (map restored_name items)) as [|Hnot]; [assumption|].
    rewrite Hkept in Hfile by assumption.
    destruct (Hold name Hp) as [Hf _]. congruence.
  - intros q Hq Hnot.
    assert (Hp : Upload.is_photo_name q = true).
    { apply find_photos_in in Hq as (c & _ & Hp). exact Hp. }
    destruct (photo_name_not_reserved _ Hp) as (H1 & H2 & H3).
    rewrite Hkept, Hlook by assumption.
    destruct (in_dec string_dec q photos); [reflexivity | contradiction].
  - apply Hlow'. now rewrite Hlow.
  - exact Hfull'.
  - exact Hjson'.
Qed.

Lemma reset_after_publish_witness :
  exists (albums'' restored : dir),
    ResetAlbum.reset_album
      [("trip", Dir [("notes.txt", File "n");
                     ("low", Dir [("trip_1.webp", File "webp aaa");
                                  ("trip_2.webp", File "webp bbb")]);
                     ("full", Dir [("trip_1.jpg", File "aaa"); ("trip_2.png", File "bbb")]);
                     ("data.json",
                      File (Upload.data_json (fun t => t) "Trip" "Bob"
                              "2024-01-01T00:00:00Z" "trip_2.webp"
                              ["trip_1.webp:jpg"; "trip_2.webp:png"]))])]
      "trip" "y" = ResetAlbum.ResetDone albums'' 2 /\
    lookup "trip" albums'' = Some (Dir restored) /\
    lookup "trip_1.jpg" restored = Some (File "aaa") /\
    lookup "trip_2.png" restored = Some (File "bbb").
Proof.
  destruct (reset_after_publish
    (fun c => Some ("webp " ++ c)) (fun t => t)
    [("Trip photos", Dir [("IMG_1.JPG", File "aaa"); ("notes.txt", File "n");
                          ("b.png", File "bbb")])]
    [("IMG_1.JPG", File "aaa"); ("notes.txt", File "n"); ("b.png", File "bbb")]
    [("trip", Dir [("notes.txt", File "n");
                   ("low", Dir [("trip_1.webp", File "webp aaa");
                                ("trip_2.webp", File "webp bbb")]);
                   ("full", Dir [("trip_1.jpg", File "aaa"); ("trip_2.png", File "bbb")]);
                   ("data.json",
                    File (Upload.data_json (fun t => t) "Trip" "Bob"
                            "2024-01-01T00:00:00Z" "trip_2.webp"
                            ["trip_1.webp:jpg"; "trip_2.webp:png"]))])]
    "Trip photos" "Trip" "Bob" "2024-01-01T00:00:00Z" "y" 5 2
    eq_refl (conj eq_refl (conj eq_refl eq_refl)))
    as (albums'' & restored & H1 & H2 & _ & _ & H5 & _).
  - intros name es [H|[H|[H|[]]]]; inversion H.
  - right. reflexivity.
  - left. reflexivity.
  - reflexivity.
  - exists albums'', restored. split; [exact H1|]. split; [exact H2|]. split.
    + apply (H5 (1, "IMG_1.JPG")). left. reflexivity.
    + apply (H5 (2, "b.png")). right. left. reflexivity.
Defined.

(** C2 as stated fails, for not every raw album comes back. Where the
    album root holds a directory under a name that publishing gives to a
    photo, [mv] cannot put the photo over it and the reset stops with the
    photo still in [full/]. Where another album already stands under the
    folder name, publishing moves the album into it, and the reset of that
    name finds an album without metadata and restores nothing. In both cases
    publishing had ended normally. *)
Lemma reset_after_publish_not_every_album :
  ~ (forall (ffmpeg : string -> option string) (echo_e : string -> string)
       (albums album albums' : dir)
       (album_dir_name album_name photographer_name timestamp : string)
       (random photo_count : nat),
       lookup album_dir_name albums = Some (Dir album) ->
       raw_album album ->
       Upload.process_album ffmpeg echo_e albums album_dir_name album_name
         photographer_name timestamp random = Upload.Processed albums' photo_count ->
       exists albums'',
         ResetAlbum.reset_album albums' (to_snake_case album_name) "y"
         = ResetAlbum.ResetDone albums'' photo_count) /\
  (exists albums',
     Upload.process_album (fun c => Some c) (fun t => t)
       [("trip", Dir [("a.jpg", File "aaa"); ("trip_1.jpg", Dir [])])]
       "trip" "trip" "Bob" "2024-01-01T00:00:00Z" 0 = Upload.Processed albums' 1 /\
     ResetAlbum.reset_album albums' "trip" "y" = ResetAlbum.ResetFailed MvFailed albums' /\
     forall restored, lookup "trip" albums' = Some (Dir restored) ->
                      lookup "trip_1.jpg" restored = Some (Dir [])) /\
  (exists albums',
     Upload.process_album (fun c => Some c) (fun t => t)
       [("Trip", Dir [("a.jpg", File "aaa")]); ("trip", Dir [("old.txt", File "x")])]
       "Trip" "Trip" "Bob" "2024-01-01T00:00:00Z" 0 = Upload.Processed albums' 1 /\
     ResetAlbum.reset_album albums' "trip" "y" = ResetAlbum.AlreadyOriginal albums').
Proof.
  split; [|split].
  - intros H.
    destruct (H (fun c => Some c) (fun t => t)
                [("Trip", Dir [("a.jpg", File "aaa")]); ("trip", Dir [("old.txt", File "x")])]
                [("a.jpg", File "aaa")] _
                "Trip" "Trip" "Bob" "2024-01-01T00:00:00Z" 0 1
                eq_refl (conj eq_refl (conj eq_refl eq_refl)) eq_refl) as [albums'' E].
    vm_compute in E. discriminate E.
  - eexists. split; [reflexivity|]. split; [reflexivity|].
    intros restored E. vm_compute in E. inversion E. reflexivity.
  - eexists. split; reflexivity.
Qed.

(** ** C3: writing [data.json] *)

(** C3 as stated fails: while [cat > data.json] runs on an album that had no
    metadata, the album can be seen with an empty [data.json], which is
    neither the absence from before nor the complete document. *)
Lemma data_json_write_not_atomic :
  ~ (forall (d d' : dir) (text : string),
       In d' (visible_states "data.json" (redirect text) d) ->
       lookup "data.json" d' = lookup "data.json" d
       \/ lookup "data.json" d' = Some (File text)).
Proof.
  intros H.
  destruct (H [("low", Dir []); ("full", Dir [])]
              [("low", Dir []); ("full", Dir []); ("data.json", File EmptyString)]
              (Upload.data_json (fun t => t) "Trip" "Bob" "2024-01-01T00:00:00Z"
                 "trip_1.webp" ["trip_1.webp:jpg"]))
    as [E|E].
  - right. left. reflexivity.
  - discriminate E.
  - vm_compute in E. discriminate E.
Qed.

(** C3, as amended. Writing a file through a redirection truncates it and
    then fills it in place. When the target is not a directory the write
    ends with the complete text in the file, and on the way the file is seen
    empty; when the target is a directory nothing is written and the state
    stays as it was. *)
Theorem write_file_truncates_then_fills (name text : string) (d : dir) :
  (is_dir (lookup name d) = false ->
   write_file name text d = Some (set_entry name (File text) d) /\
   visible_states name (redirect text) d =
     [d; set_entry name (File EmptyString) d; set_entry name (File text) d]) /\
  (is_dir (lookup name d) = true ->
   write_file name text d = None /\
   visible_states name (redirect text) d = [d]).
Proof.
  split; intros H.
  - split; [now apply write_file_set|].
    unfold redirect, visible_states, apply_step.
    destruct (lookup name d) as [[c|es]|] eqn:E; try discriminate H;
      rewrite lookup_set_eq; simpl; now rewrite set_entry_twice.
  - split; [now apply write_file_dir|].
    unfold redirect, visible_states, apply_step.
    destruct (lookup name d) as [[c|es]|]; try discriminate H; reflexivity.
Qed.

Lemma write_file_truncates_then_fills_witness :
  write_file "data.json" "{}" [("low", Dir []); ("data.json", File "old")]
  = Some [("low", Dir []); ("data.json", File "{}")] /\
  visible_states "data.json" (redirect "{}") [("low", Dir []); ("data.json", File "old")]
  = [[("low", Dir []); ("data.json", File "old")];
     [("low", Dir []); ("data.json", File EmptyString)];
     [("low", Dir []); ("data.json", File "{}")]].
Proof.
  apply (proj1 (write_file_truncates_then_fills "data.json" "{}"
                  [("low", Dir []); ("data.json", File "old")])).
  reflexivity.
Defined.

(** ** C10: what the reset restores *)

(** C10 fails on a [full/] that holds a hidden file: [find] counts it, the
    expansion of [full/*] leaves it out, and [rm -rf] deletes it. The reset
    reports two photos and restores one. *)
Lemma reset_album_hidden_file :
  ResetAlbum.reset_album
    [("trip", Dir [("data.json", File "{}");
                   ("low", Dir [("trip_1.webp", File "w1")]);
                   ("full", Dir [(".DS_Store", File "finder");
                                 ("trip_1.jpg", File "p1")])])]
    "trip" "y"
  = ResetAlbum.ResetDone [("trip", Dir [("trip_1.jpg", File "p1")])] 2.
Proof. reflexivity. Qed.

(** On an empty [full/] the expansion of [full/*] matches nothing, [mv] fails
    and the script ends there: the album keeps its metadata and directories. *)
Lemma reset_album_empty_full :
  ResetAlbum.reset_album
    [("trip", Dir [("data.json", File "{}"); ("low", Dir []); ("full", Dir [])])]
    "trip" "y"
  = ResetAlbum.ResetFailed MvFailed
      [("trip", Dir [("data.json", File "{}"); ("low", Dir []); ("full", Dir [])])].
Proof. reflexivity. Qed.

(** ** The album list *)

Lemma StronglySorted_impl_in (A : Type) (R R' : A -> A -> Prop) (l : list A) :
  (forall x y, In x l -> In y l -> R x y -> R' x y) ->
  StronglySorted R l -> StronglySorted R' l.
Proof.
  intros H Hs. induction Hs as [|a r Hs IH Ha]; constructor.
  - apply IH. intros x y Hx Hy. apply H; now right.
  - rewrite Forall_forall in *. intros y Hy. apply H; [now left | now right | auto].
Qed.

(** *** The insertion sort conforms *)

Section InsertionSort.

Variable cmp : AlbumList.album -> AlbumList.album -> exn + option Z.

Lemma insert_album_returns (a : AlbumList.album) (l : list AlbumList.album) :
  (forall b, In b l -> exists r, cmp a b = inr r) ->
  exists l', insert_album cmp a l = inr l' /\ Permutation l' (a :: l).
Proof.
  induction l as [|b r IH]; intros H; cbn [insert_album].
  - exists [a]. split; reflexivity.
  - destruct (H b (or_introl eq_refl)) as [res E]. unfold comes_first. rewrite E.
    destruct IH as (r' & E' & P); [intros x Hx; apply H; now right|].
    destruct res as [d|]; [destruct (d <=? 0)%Z|].
    + exists (a :: b :: r). split; reflexivity.
    + rewrite E'. exists (b :: r'). split; [reflexivity|].
      rewrite P. apply perm_swap.
    + exists (a :: b :: r). split; reflexivity.
Qed.

Lemma insertion_sort_returns (l : list AlbumList.album) :
  returns_on cmp l ->
  exists l', insertion_sort cmp l = inr l' /\ Permutation l' l.
Proof.
  induction l as [|a r IH]; intros H; cbn [insertion_sort].
  - exists []. split; reflexivity.
  - destruct IH as (r' & E & P).
    { intros x y Hx Hy. apply H; now right. }
    rewrite E.
    destruct (insert_album_returns a r') as (l' & E' & P').
    { intros b Hb. apply H; [now left|]. right. now apply (Permutation_in _ P). }
    exists l'. split; [exact E'|]. rewrite P'. now constructor.
Qed.

Variable l : list AlbumList.album.
Variable d : AlbumList.album -> AlbumList.album -> Z.

Hypothesis cmp_d : forall a b, In a l -> In b l -> cmp a b = inr (Some (d a b)).
Hypothesis tie_refl : forall a, In a l -> d a a = 0%Z.
Hypothesis tie_sym : forall a b, In a l -> In b l -> d a b = 0%Z -> d b a = 0%Z.
Hypothesis tie_trans : forall a b c, In a l -> In b l -> In c l ->
  d a b = 0%Z -> d b c = 0%Z -> d a c = 0%Z.
Hypothesis before_trans : forall a b c, In a l -> In b l -> In c l ->
  (d a b < 0)%Z -> (d b c < 0)%Z -> (d a c < 0)%Z.
Hypothesis after_trans : forall a b c, In a l -> In b l -> In c l ->
  (0 < d a b)%Z -> (0 < d b c)%Z -> (0 < d a c)%Z.

Lemma before_after (a b : AlbumList.album) :
  In a l -> In b l -> (d a b < 0)%Z -> (0 < d b a)%Z.
Proof.
  intros Ha Hb H.
  pose proof (tie_refl a Ha). pose proof (tie_sym b a Hb Ha).
  pose proof (before_trans a b a Ha Hb Ha). lia.
Qed.

Lemma insert_album_sorted (a : AlbumList.album) (r r' : list AlbumList.album) :
  In a l -> (forall x, In x r -> In x l) ->
  StronglySorted (fun x y => (0 <= d y x)%Z) r ->
  insert_album cmp a r = inr r' ->
  StronglySorted (fun x y => (0 <= d y x)%Z) r'.
Proof.
  intros Ha. revert r'. induction r as [|b r IH]; intros r' Hr Hs; cbn [insert_album].
  - intros E. inversion E. repeat constructor.
  - assert (Hb : In b l) by (apply Hr; now left).
    inversion Hs as [|? ? Hs' Hbr]; subst. rewrite Forall_forall in Hbr.
    unfold comes_first. rewrite (cmp_d a b Ha Hb).
    destruct (Z.leb_spec (d a b) 0) as [Hle|Hgt].
    + intros E. inversion E; subst r'. constructor; [exact Hs|].
      apply Forall_forall. intros y [<-|Hy].
      * pose proof (tie_refl a Ha). pose proof (tie_sym a b Ha Hb).
        pose proof (before_trans a b a Ha Hb Ha). lia.
      * assert (Hyl : In y l) by (apply Hr; now right).
        pose proof (Hbr y Hy) as Hyb.
        destruct (Z.lt_ge_cases (d y a) 0) as [Hya|Hya]; [exfalso | exact Hya].
        pose proof (before_after y a Hyl Ha Hya).
        pose proof (before_trans y a b Hyl Ha Hb Hya).
        pose proof (after_trans a y b Ha Hyl Hb).
        pose proof (tie_sym a b Ha Hb). pose proof (tie_trans y b a Hyl Hb Ha).
        lia.
    + destruct (insert_album cmp a r) as [e|ins] eqn:Ei; [discriminate|].
      intros E. inversion E; subst r'.
      destruct (insert_album_returns a r) as (ins' & Ei' & P).
      { intros x Hx. rewrite (cmp_d a x Ha); [eauto | apply Hr; now right]. }
      rewrite Ei in Ei'. inversion Ei'; subst ins'.
      constructor.
      * apply IH; [intros x Hx; apply Hr; now right | exact Hs' | reflexivity].
      * apply Forall_forall. intros y Hy.
        apply (Permutation_in _ P) in Hy as [<-|Hy]; [lia | now apply Hbr].
Qed.

Lemma insertion_sort_sorted (r r' : list AlbumList.album) :
  (forall x, In x r -> In x l) ->
  insertion_sort cmp r = inr r' ->
  StronglySorted (fun x y => (0 <= d y x)%Z) r'.
Proof.
  revert r'. induction r as [|a r IH]; intros r' Hr; cbn [insertion_sort].
  - intros E. inversion E. constructor.
  - destruct (insertion_sort cmp r) as [e|s] eqn:Es; [discriminate|].
    intros E.
    destruct (insertion_sort_returns r) as (s' & Es' & P).
    { intros x y Hx Hy. rewrite (cmp_d x y); [eauto | |]; apply Hr; now right. }
    rewrite Es in Es'. inversion Es'; subst s'.
    apply (insert_album_sorted a s r').
    + apply Hr. now left.
    + intros x Hx. apply Hr. right. now apply (Permutation_in _ P).
    + apply IH; [intros x Hx; apply Hr; now right | reflexivity].
    + exact E.
Qed.

End InsertionSort.

Lemma insertion_sort_conforms : conforming_sort insertion_sort.
Proof.
  intros cmp l Hret.
  destruct (insertion_sort_returns cmp l Hret) as (l' & E & P).
  exists l'. split; [exact E|]. split; [exact P|].
  intros (d & Hd & H1 & H2 & H3 & H4 & H5).
  pose proof (insertion_sort_sorted cmp l d Hd H1 H2 H3 H4 H5 l l' (fun x Hx => Hx) E)
    as Hs.
  apply (StronglySorted_impl_in _ (fun x y => (0 <= d y x)%Z)); [|exact Hs].
  intros x y Hx Hy Hxy (d' & Ed & Hneg).
  rewrite Hd in Ed by (apply (Permutation_in _ P); assumption).
  inversion Ed. lia.
Qed.

(** *** What [loadAlbums] keeps *)

Section AlbumListFacts.

Variable Date_parse : string -> option Z.

Lemma load_album_data_some (fetch : network) (albumName : json) (a : AlbumList.album) :
  AlbumList.load_album_data fetch albumName = Some a <-> metadata_loaded fetch albumName a.
Proof.
  unfold AlbumList.load_album_data, metadata_loaded.
  destruct (to_string albumName) as [e|name] eqn:Hname.
  { split; [discriminate|]. intros (n & r & E & _). discriminate E. }
  destruct (fetch ("albums/" ++ name ++ ".json")) as [r|] eqn:Hf; simpl in *.
  - destruct (ok r) eqn:Hok; simpl.
    + destruct (body r) as [v|] eqn:Hbody.
      * split.
        -- intros H. exists name, r.
           destruct v; inversion H; subst a; simpl;
             repeat split; try assumption; discriminate.
        -- intros (n & r' & En & E & _ & Hb & Hnull & Hfo). destruct a as [doc f].
           simpl in *. inversion En; subst n. rewrite Hf in E. inversion E; subst r'.
           rewrite Hbody in Hb. inversion Hb; subst v.
           rewrite Hfo. destruct doc; try reflexivity. contradiction.
      * split; [discriminate|]. intros (n & r' & En & E & _ & Hb & _).
        inversion En; subst n. rewrite Hf in E. inversion E; subst r'.
        rewrite Hbody in Hb. discriminate Hb.
    + split; [discriminate|]. intros (n & r' & En & E & Hok' & _).
      inversion En; subst n. rewrite Hf in E. inversion E; subst r'. congruence.
  - split; [discriminate|]. intros (n & r' & En & E & _).
    inversion En; subst n. rewrite Hf in E. discriminate E.
Qed.

Lemma in_keep_loaded (results : list (option AlbumList.album)) (a : AlbumList.album) :
  In a (AlbumList.keep_loaded results) <-> In (Some a) results.
Proof.
  induction results as [|[b|] r IH]; simpl.
  - reflexivity.
  - rewrite IH. split; intros [H|H]; auto; left; congruence.
  - rewrite IH. split; [auto | intros [H|H]; [discriminate | assumption]].
Qed.

(** The comparison of two albums returns where their dates convert. *)
Lemma compare_albums_returns (l : list AlbumList.album) :
  (forall a, In a l -> exists t, AlbumList.date_of Date_parse a = inr t) ->
  returns_on (AlbumList.compare_albums Date_parse) l.
Proof.
  intros H a b Ha Hb. unfold AlbumList.compare_albums.
  destruct (H a Ha) as [ta ->], (H b Hb) as [tb ->]. eauto.
Qed.

(** With valid dates the comparison is the difference of two time values. *)
Lemma compare_albums_valid (a b : AlbumList.album) (ta tb : Z) :
  AlbumList.date_of Date_parse a = inr (Some ta) ->
  AlbumList.date_of Date_parse b = inr (Some tb) ->
  AlbumList.compare_albums Date_parse a b = inr (Some (tb - ta)%Z).
Proof. intros Ha Hb. unfold AlbumList.compare_albums. now rewrite Ha, Hb. Qed.

Lemma compare_albums_consistent (l : list AlbumList.album) :
  (forall a, In a l -> exists t, AlbumList.date_of Date_parse a = inr (Some t)) ->
  consistent_on (AlbumList.compare_albums Date_parse) l.
Proof.
  intros H.
  set (time := fun a => match AlbumList.date_of Date_parse a with
                        | inr (Some t) => t
                        | _ => 0%Z
                        end).
  exists (fun a b => (time b - time a)%Z).
  split; [|repeat split; intros; lia].
  intros a b Ha Hb. destruct (H a Ha) as [ta Ea], (H b Hb) as [tb Eb].
  unfold time. rewrite Ea, Eb. now apply compare_albums_valid.
Qed.

Lemma sorted_newest_first (l : list AlbumList.album) :
  (forall a, In a l -> exists t, AlbumList.date_of Date_parse a = inr (Some t)) ->
  StronglySorted
    (fun x y => ~ sorts_before (AlbumList.compare_albums Date_parse) y x) l ->
  StronglySorted (newest_first Date_parse) l.
Proof.
  intros H. apply StronglySorted_impl_in. intros x y Hx Hy Hxy.
  destruct (H x Hx) as [tx Ex], (H y Hy) as [ty Ey].
  unfold newest_first. rewrite Ex, Ey.
  destruct (Z.le_gt_cases ty tx) as [Hle|Hgt]; [exact Hle|].
  exfalso. apply Hxy. exists (tx - ty)%Z.
  split; [now apply compare_albums_valid | lia].
Qed.

End AlbumListFacts.

(** ** C6: albums that fail to load *)




(** ** C4: a manifest that is not there *)

(** C4 as stated fails: on a 404 for [albums.json], [loadAlbums] does not
    yield the empty list. *)
Lemma loadAlbums_manifest_404_not_empty :
  ~ (forall (Date_parse : string -> option Z)
       (Array_sort : (AlbumList.album -> AlbumList.album -> exn + option Z) ->
                     list AlbumList.album -> exn + list AlbumList.album)
       (fetch : network) (response : response),
       fetch "albums.json" = Some response ->
       ok response = false -> status response = 404 ->
       AlbumList.loadAlbums Date_parse Array_sort fetch = inr []).
Proof.
  intros H.
  specialize (H (fun _ => None) insertion_sort
                (fun _ => Some (mk_response false 404 None))
                (mk_response false 404 None) eq_refl eq_refl eq_refl).
  discriminate H.
Qed.

(** C4, as amended. When the request for [albums.json] is answered without
    success, [loadAlbums] throws ["HTTP error! status: <status>"] and the
    page shows ["Failed to load albums: "] followed by that message, not an
    album grid. *)
Theorem loadAlbums_manifest_missing
    (Date_parse : string -> option Z)
    (Array_sort : (AlbumList.album -> AlbumList.album -> exn + option Z) ->
                  list AlbumList.album -> exn + list AlbumList.album)
    (fetch : network) (response : response) :
  fetch "albums.json" = Some response ->
  ok response = false ->
  AlbumList.loadAlbums Date_parse Array_sort fetch
    = inl (Error ("HTTP error! status: " ++ dec (status response))) /\
  AlbumList.initAlbumList Date_parse Array_sort fetch
    = AlbumList.ErrorMessage "Failed to load albums: "
        (Error ("HTTP error! status: " ++ dec (status response))).
Proof.
  intros Hfetch Hok. unfold AlbumList.initAlbumList, AlbumList.loadAlbums.
  rewrite Hfetch, Hok. split; reflexivity.
Qed.

Lemma loadAlbums_manifest_missing_witness :
  AlbumList.initAlbumList example_dates insertion_sort
    (fun _ => Some (mk_response false 404 None))
  = AlbumList.ErrorMessage "Failed to load albums: " (Error "HTTP error! status: 404").
Proof.
  apply (proj2 (loadAlbums_manifest_missing example_dates insertion_sort
                  (fun _ => Some (mk_response false 404 None))
                  (mk_response false 404 None) eq_refl eq_refl)).
Defined.

(** ** C8: the two shapes of a photo entry *)

Lemma replace_first_webp (baseName : string) :
  contains_char "." baseName = false ->
  replace_first ".webp" EmptyString (baseName ++ ".webp") = baseName.
Proof.
  induction baseName as [|c r IH]; [reflexivity|].
  cbn [contains_char]. intros H. apply orb_false_iff in H as [Hc Hr].
  cbn [append replace_first String.prefix].
  destruct (ascii_dec "." c) as [E|_]; [subst c; discriminate Hc|].
  now rewrite (IH Hr).
Qed.

Lemma load_photo_legacy (albumFolder name : string) :
  AlbumView.load_photo albumFolder (JStr name) = inr (legacy_photo albumFolder name).
Proof. reflexivity. Qed.

Lemma load_photo_structured (albumFolder webp ext : string)
    (fields : list (string * json)) :
  field "webp" fields = Some (JStr webp) -> webp <> EmptyString ->
  field "ext" fields = Some (JStr ext) ->
  AlbumView.load_photo albumFolder (JObj fields)
  = inr (structured_photo albumFolder webp ext).
Proof.
  intros Hw Hne He. unfold AlbumView.load_photo. simpl. rewrite Hw, He. simpl.
  destruct (String.eqb_spec webp EmptyString); [contradiction | reflexivity].
Qed.

Lemma load_photo_entry (albumFolder : string) (p : json) :
  photo_entry p -> exists x, AlbumView.load_photo albumFolder p = inr x
                             /\ decoded albumFolder p x.
Proof.
  intros [(name & ->)|(fields & webp & ext & -> & Hw & Hne & He)].
  - exists (legacy_photo albumFolder name). split; [reflexivity|]. left. eauto.
  - exists (structured_photo albumFolder webp ext).
    split; [now apply load_photo_structured|]. right. exists fields, webp, ext. auto.
Qed.

Lemma map_photos_entries (albumFolder : string) (photos : list json) :
  Forall photo_entry photos ->
  exists l, AlbumView.map_photos albumFolder photos = inr l
            /\ Forall2 (decoded albumFolder) photos l.
Proof.
  induction 1 as [|p r Hp _ IH]; simpl.
  - exists []. split; [reflexivity | constructor].
  - destruct IH as (l & -> & Hl).
    destruct (load_photo_entry albumFolder p Hp) as (x & -> & Hx).
    exists (x :: l). split; [reflexivity | now constructor].
Qed.



(** * Further properties of the scripts and of the pages *)

(** ** Folder names *)

Lemma folder_char_fixed (c : ascii) :
  is_folder_char c = true ->
  to_lower c = c /\ space_to_underscore c = c /\ alnum_or_underscore c = true
  /\ Ascii.eqb c "-" = false.
Proof. each_byte c; intros _; repeat split. Qed.

Lemma snake_pipeline_folder_chars (s : string) :
  sforall is_folder_char (snake_pipeline s) = true.
Proof.
  unfold snake_pipeline. induction s as [|c r IH]; [reflexivity|].
  cbn [smap sfilter].
  destruct (alnum_or_underscore (space_to_underscore (to_lower c))) eqn:E; [|exact IH].
  cbn [sforall]. rewrite IH, andb_true_r.
  revert E. each_byte c.
Qed.

Lemma snake_pipeline_fixed (t : string) :
  sforall is_folder_char t = true -> snake_pipeline t = t.
Proof.
  unfold snake_pipeline. induction t as [|c r IH]; [reflexivity|].
  cbn [sforall smap sfilter]. intros H. apply andb_true_iff in H as [Hc Hr].
  destruct (folder_char_fixed c Hc) as (-> & -> & -> & _). now rewrite IH.
Qed.

(** X1. The folder name that [to_snake_case] gives is made of lowercase letters,
    digits and underscores whatever was typed, and normalising it again
    gives it back: an album directory that already carries its folder name
    is not renamed. *)
Theorem to_snake_case_idempotent (album_name : string) :
  sforall is_folder_char (to_snake_case album_name) = true /\
  to_snake_case (to_snake_case album_name) = to_snake_case album_name.
Proof.
  assert (H : sforall is_folder_char (to_snake_case album_name) = true).
  { destruct (is_echo_option album_name) eqn:E.
    - now rewrite to_snake_case_option.
    - rewrite to_snake_case_plain by assumption. apply snake_pipeline_folder_chars. }
  split; [exact H|].
  rewrite (to_snake_case_plain (to_snake_case album_name)).
  - now apply snake_pipeline_fixed.
  - destruct (to_snake_case album_name) as [|c r]; [reflexivity|].
    simpl in H. apply andb_true_iff in H as [Hc _].
    destruct (folder_char_fixed c Hc) as (_ & _ & _ & Hd).
    unfold is_echo_option.
    destruct c as [[] [] [] [] [] [] [] []]; try reflexivity; discriminate Hd.
Qed.

(** ** The scans of [upload.sh] *)

Lemma in_uninitialized (entries : dir) (path : string) :
  In path (Upload.uninitialized entries) <->
  exists name d, In (name, Dir d) entries
                 /\ is_file (lookup "data.json" d) = false
                 /\ path = album_dir_path name.
Proof.
  induction entries as [|[k n] r IH]; simpl.
  - split; [intros [] | intros (? & ? & [] & _)].
  - destruct n as [c|d].
    + rewrite IH. split.
      * intros (name & d & Hin & H). exists name, d. auto.
      * intros (name & d & [Heq|Hin] & H); [discriminate Heq|]. exists name, d. auto.
    + destruct (is_file (lookup "data.json" d)) eqn:E; simpl; rewrite IH; split.
      * intros (name & d' & Hin & H). exists name, d'. tauto.
      * intros (name & d' & [Heq|Hin] & Hf & ->);
          [inversion Heq; subst; congruence | exists name, d'; auto].
      * intros [<-|(name & d' & Hin & H)]; [exists k, d; auto|].
        exists name, d'. tauto.
      * intros (name & d' & [Heq|Hin] & Hf & ->);
          [inversion Heq; now left | right; exists name, d'; auto].
Qed.

Lemma in_albums_to_upload (entries : dir) (x : string) :
  In x (Upload.albums_to_upload entries) <->
  exists name d, In (name, Dir d) entries
                 /\ is_dir (lookup "low" d) && is_dir (lookup "full" d) = true
                 /\ x = Upload.basename name.
Proof.
  induction entries as [|[k n] r IH]; simpl.
  - split; [intros [] | intros (? & ? & [] & _)].
  - destruct n as [c|d].
    + rewrite IH. split.
      * intros (name & d & Hin & H). exists name, d. auto.
      * intros (name & d & [Heq|Hin] & H); [discriminate Heq|]. exists name, d. auto.
    + destruct (is_dir (lookup "low" d) && is_dir (lookup "full" d)) eqn:E;
        simpl; rewrite IH; split.
      * intros [<-|(name & d' & Hin & H)]; [exists k, d; auto|].
        exists name, d'. tauto.
      * intros (name & d' & [Heq|Hin] & Hf & ->);
          [inversion Heq; now left | right; exists name, d'; auto].
      * intros (name & d' & Hin & H). exists name, d'. tauto.
      * intros (name & d' & [Heq|Hin] & Hf & ->);
          [inversion Heq; subst; congruence | exists name, d'; auto].
Qed.

Lemma album_dir_path_inj (a b : string) : album_dir_path a = album_dir_path b -> a = b.
Proof.
  unfold album_dir_path. intros H. apply append_inj_l in H.
  apply (append_inj_l "/") in H. now apply append_inj_r in H.
Qed.

Lemma nodup_entry (d : dir) (name : string) (a b : node) :
  NoDup (map fst d) -> In (name, a) d -> In (name, b) d -> a = b.
Proof.
  induction d as [|[k n] r IH]; simpl; [intros _ []|].
  intros Hnd Ha Hb. inversion Hnd as [|? ? Hnot Hnd']; subst.
  destruct Ha as [Ha|Ha], Hb as [Hb|Hb].
  - congruence.
  - inversion Ha; subst. exfalso. apply Hnot. now apply (in_map fst) in Hb.
  - inversion Hb; subst. exfalso. apply Hnot. now apply (in_map fst) in Ha.
  - now apply IH.
Qed.

(** X2. Of the album directories, [find_uninitialized_albums] prints the paths
    of those that [generate_albums_manifest] does not list, and no other:
    a visible directory is either pending or published, never both. The
    scan itself leaves the state as it is. *)
Theorem pending_or_published
    (echo_e : string -> string) (pub albums : dir) (name : string) (d : dir) :
  lookup "albums" pub = Some (Dir albums) ->
  plain_names albums ->
  In (name, Dir d) albums -> hidden name = false ->
  let pending := Upload.uninitialized (glob_star albums) in
  Upload.find_uninitialized_albums echo_e pub = (pub, Upload.echo_each pending) /\
  ((In (album_dir_path name) pending /\ ~ In name (Upload.manifest_albums albums)) \/
   (In name (Upload.manifest_albums albums) /\ ~ In (album_dir_path name) pending)).
Proof.
  intros Hpub [Hnd Hplain] Hin Hvis pending.
  split; [unfold Upload.find_uninitialized_albums; now rewrite Hpub|].
  assert (Hglob : In (name, Dir d) (glob_star albums)) by now apply in_glob_star.
  assert (Hbase : Upload.basename name = name).
  { apply basename_plain, Hplain. now apply (in_map fst) in Hin. }
  destruct (is_file (lookup "data.json" d)) eqn:Hjson.
  - right. split.
    + apply in_published_albums. exists name, d. auto.
    + intros Hp. apply in_uninitialized in Hp as (name' & d' & Hin' & Hf & E).
      apply album_dir_path_inj in E. subst name'.
      apply in_glob_star in Hin' as [Hin' _].
      assert (Dir d = Dir d') by now apply (nodup_entry albums name).
      congruence.
  - left. split.
    + apply in_uninitialized. exists name, d. auto.
    + intros Hp. apply in_published_albums in Hp as (name' & d' & Hin' & Hf & E).
      apply in_glob_star in Hin' as [Hin' _].
      rewrite basename_plain in E by (apply Hplain; now apply (in_map fst) in Hin').
      subst name'.
      assert (Dir d = Dir d') by now apply (nodup_entry albums name).
      congruence.
Qed.

Lemma pending_or_published_witness :
  In (album_dir_path "new")
     (Upload.uninitialized
        (glob_star [("zoo", Dir [("data.json", File "{}")]);
                    ("new", Dir [("IMG.jpg", File "p")])])) /\
  ~ In "new"
      (Upload.manifest_albums [("zoo", Dir [("data.json", File "{}")]);
                               ("new", Dir [("IMG.jpg", File "p")])]).
Proof.
  destruct (pending_or_published (fun t => t)
              [("albums", Dir [("zoo", Dir [("data.json", File "{}")]);
                               ("new", Dir [("IMG.jpg", File "p")])])]
              [("zoo", Dir [("data.json", File "{}")]);
               ("new", Dir [("IMG.jpg", File "p")])]
              "new" [("IMG.jpg", File "p")] eq_refl) as [_ [H|[H _]]].
  - split.
    + repeat constructor; simpl; intuition discriminate.
    + intros n [<-|[<-|[]]]; reflexivity.
  - right. left. reflexivity.
  - reflexivity.
  - exact H.
  - exfalso. vm_compute in H. destruct H as [H|[]]. discriminate H.
Defined.

(** ** Every outcome of [process_album] *)

Lemma lookup_app (k : string) (d e : dir) :
  lookup k (d ++ e)%list =
  match lookup k d with
  | Some x => Some x
  | None => lookup k e
  end.
Proof.
  induction d as [|[k' m] r IH]; simpl; [reflexivity|].
  destruct (String.eqb k' k); [reflexivity | exact IH].
Qed.

Section Outcomes.

Variable ffmpeg : string -> option string.
Variable echo_e : string -> string.
Variables album_path album_name : string.

Let folder : string := to_snake_case album_name.

Lemma process_photo_died (st : Upload.loop_state) (p : string) (low full : dir)
    (why : failure) (a : dir) :
  Upload.process_photo ffmpeg album_path folder st p = Died why a ->
  Upload.is_photo_name p = true ->
  lookup "low" (Upload.st_album st) = Some (Dir low) ->
  lookup "full" (Upload.st_album st) = Some (Dir full) ->
  lookup (webp_name folder (Upload.st_index st)) low = None ->
  lookup (full_name folder (Upload.st_index st) (extension_of p)) full = None ->
  (why = CpFailed /\ a = Upload.st_album st) \/
  (why = FfmpegFailed /\ exists c,
     lookup p (Upload.st_album st) = Some (File c) /\
     a = set_entry "full"
           (Dir (full ++ [(full_name folder (Upload.st_index st) (extension_of p),
                           File c)])%list)
           (Upload.st_album st)).
Proof.
  intros Hrun Hp Hlow Hfull Hw Hf.
  destruct (photo_name_not_reserved p Hp) as (Hpl & Hpf & _).
  unfold Upload.process_photo in Hrun.
  rewrite extension_lower_of_photo in Hrun by assumption.
  fold (base_name folder (Upload.st_index st)) in Hrun.
  fold (full_name folder (Upload.st_index st) (extension_of p)) in Hrun.
  fold (webp_name folder (Upload.st_index st)) in Hrun.
  unfold Upload.cp_to_full in Hrun. rewrite Hfull, Hf in Hrun.
  destruct (lookup p (Upload.st_album st)) as [[c|es]|] eqn:Hsrc;
    try (inversion Hrun; now left).
  unfold Upload.ffmpeg_to_low in Hrun.
  rewrite !lookup_set_neq, Hsrc, Hlow, Hw in Hrun by (congruence || discriminate).
  destruct (ffmpeg c) as [t|] eqn:Ht.
  - unfold Upload.rm_file in Hrun.
    rewrite !lookup_set_neq, Hsrc in Hrun by congruence. discriminate Hrun.
  - inversion Hrun. right. split; [reflexivity|]. exists c. split; [reflexivity|].
    now rewrite (set_entry_absent _ _ full Hf).
Qed.

Lemma process_photos_keeps (ps : list string) :
  forall (st : Upload.loop_state) (low0 full0 : dir),
  Forall (fun p => Upload.is_photo_name p = true) ps ->
  lookup "low" (Upload.st_album st) = Some (Dir low0) ->
  lookup "full" (Upload.st_album st) = Some (Dir full0) ->
  (forall j, Upload.st_index st <= j -> lookup (webp_name folder j) low0 = None) ->
  (forall j e, Upload.st_index st <= j -> lookup (full_name folder j e) full0 = None) ->
  let r := Upload.process_photos ffmpeg album_path folder ps st in
  exists full',
    lookup "full" (loop_album r) = Some (Dir full') /\
    (forall n x, lookup n full0 = Some x -> lookup n full' = Some x) /\
    (forall n c, n <> "low" -> n <> "full" ->
       lookup n (Upload.st_album st) = Some (File c) ->
       lookup n (loop_album r) = Some (File c) \/ exists m, lookup m full' = Some (File c)) /\
    lookup "data.json" (loop_album r) = lookup "data.json" (Upload.st_album st) /\
    (forall why a, r = Died why a -> why = CpFailed \/ why = FfmpegFailed).
Proof.
  induction ps as [|p rest IH]; intros st low0 full0 Hps Hlow Hfull Hw Hf r.
  - exists full0. subst r. simpl. repeat split; auto. discriminate.
  - inversion Hps as [|? ? Hp Hrest]; subst.
    destruct (photo_name_not_reserved p Hp) as (Hpl & Hpf & Hpj).
    subst r. cbn [Upload.process_photos].
    destruct (Upload.process_photo ffmpeg album_path folder st p) as [st1|why a] eqn:Hstep.
    + destruct (process_photo_ok ffmpeg album_path album_name st st1 p low0 full0
                  Hstep Hp Hlow Hfull (Hw _ (le_n _)) (Hf _ _ (le_n _)))
        as (c & t & Hsrc & Ht & Hidx & _ & Halbum).
      fold folder in Halbum.
      set (F := full_name folder (Upload.st_index st) (extension_of p)) in *.
      set (full1 := (full0 ++ [(F, File c)])%list) in *.
      assert (Hlook : forall n, n <> "low" -> n <> "full" -> n <> p ->
                lookup n (Upload.st_album st1) = lookup n (Upload.st_album st)).
      { intros n H1 H2 H3. rewrite Halbum.
        now rewrite lookup_remove_neq, !lookup_set_neq by assumption. }
      destruct (IH st1 (low0 ++ [(webp_name folder (Upload.st_index st), File t)])%list
                  full1 Hrest) as (full' & Hf' & Hpersist & Hroot & Hjson & Hwhy).
      { rewrite Halbum, lookup_remove_neq by congruence. apply lookup_set_eq. }
      { rewrite Halbum, lookup_remove_neq, lookup_set_neq by (congruence || discriminate).
        apply lookup_set_eq. }
      { intros j Hj. rewrite Hidx in Hj. rewrite lookup_app_none by (apply Hw; lia).
        simpl. destruct (String.eqb_spec (webp_name folder (Upload.st_index st))
                           (webp_name folder j)) as [E|_]; [|reflexivity].
        apply webp_name_inj in E. lia. }
      { intros j e Hj. rewrite Hidx in Hj. unfold full1.
        rewrite lookup_app_none by (apply Hf; lia).
        simpl. destruct (String.eqb_spec F (full_name folder j e)) as [E|_]; [|reflexivity].
        apply full_name_inj in E. lia. }
      exists full'. split; [exact Hf'|]. split; [|split; [|split]].
      * intros n x Hn. apply Hpersist. unfold full1. now rewrite lookup_app, Hn.
      * intros n c0 H1 H2 Hn.
        destruct (string_dec n p) as [->|Hnp].
        -- right. exists F. apply Hpersist. unfold full1.
           rewrite lookup_app. unfold F at 1. rewrite (Hf _ _ (le_n _)).
           simpl. rewrite String.eqb_refl. congruence.
        -- apply Hroot; auto. now rewrite Hlook.
      * rewrite Hjson. apply Hlook; (discriminate || congruence).
      * exact Hwhy.
    + destruct (process_photo_died st p low0 full0 why a Hstep Hp Hlow Hfull
                  (Hw _ (le_n _)) (Hf _ _ (le_n _)))
        as [[-> ->]|(-> & c & Hsrc & ->)]; simpl.
      * exists full0. repeat split; auto. intros ? ? E. inversion E. now left.
      * eexists. split; [apply lookup_set_eq|]. split; [|split; [|split]].
        -- intros n x Hn. now rewrite lookup_app, Hn.
        -- intros n c0 H1 H2 Hn. left. now rewrite lookup_set_neq.
        -- now rewrite lookup_set_neq by discriminate.
        -- intros ? ? E. inversion E. now right.
Qed.

Lemma process_album_dir_keeps
    (photographer_name timestamp : string) (random : nat) (album : dir) :
  raw_album album ->
  let r := Upload.process_album_dir ffmpeg echo_e album_path album_name
             photographer_name timestamp random album in
  (forall n c, lookup n album = Some (File c) -> keeps_bytes (published_dir r) c) /\
  (forall why a, r = Died why a ->
     lookup "data.json" a = None /\ (why = CpFailed \/ why = FfmpegFailed)) /\
  (forall a photo_data, r = Ok (a, photo_data) ->
     is_file (lookup "data.json" a) = true).
Proof.
  intros (Hd & Hl & Hf) r. subst r.
  unfold Upload.process_album_dir, mkdir_p.
  rewrite Hl. rewrite lookup_set_neq, Hf by discriminate.
  set (a2 := set_entry "full" (Dir []) (set_entry "low" (Dir []) album)).
  assert (Ha2 : forall n, n <> "low" -> n <> "full" -> lookup n a2 = lookup n album).
  { intros n H1 H2. unfold a2. now rewrite !lookup_set_neq by assumption. }
  assert (Hphotos : Forall (fun p => Upload.is_photo_name p = true)
                      (Upload.find_photos album)).
  { apply Forall_forall. intros p Hp. apply find_photos_in in Hp as (c & _ & Hp). exact Hp. }
  destruct (process_photos_keeps (Upload.find_photos album)
              (Upload.mk_loop_state a2 1 []) [] [] Hphotos)
    as (full' & Hfull' & _ & Hroot & Hjson & Hwhy).
  { unfold a2. simpl. rewrite lookup_set_neq by discriminate. apply lookup_set_eq. }
  { unfold a2. simpl. apply lookup_set_eq. }
  { reflexivity. }
  { reflexivity. }
  fold folder.
  simpl in Hroot, Hjson. rewrite Ha2, Hd in Hjson by discriminate.
  assert (Hkeep : forall n c, lookup n album = Some (File c) ->
            keeps_bytes (loop_album (Upload.process_photos ffmpeg album_path folder
                           (Upload.find_photos album) (Upload.mk_loop_state a2 1 []))) c).
  { intros n c Hn.
    assert (n <> "low" /\ n <> "full") as [H1 H2] by (split; intros ->; congruence).
    destruct (Hroot n c H1 H2) as [H|[m H]].
    - now rewrite Ha2.
    - left. eauto.
    - right. eauto. }
  destruct (Upload.process_photos ffmpeg album_path folder (Upload.find_photos album)
              (Upload.mk_loop_state a2 1 [])) as [st|why a] eqn:Hloop; simpl in *.
  - rewrite write_file_set by now rewrite Hjson.
    simpl. split; [|split].
    + intros n c Hn. destruct (Hkeep n c Hn) as [[m H]|(f & m & H1 & H2)].
      * left. exists m. rewrite lookup_set_neq; [assumption|].
        intros ->. congruence.
      * right. exists f, m. now rewrite lookup_set_neq by discriminate.
    + discriminate.
    + intros a pd E. inversion E. now rewrite lookup_set_eq.
  - split; [exact Hkeep|]. split; [|discriminate].
    intros why' a' E. inversion E; subst. split; [assumption | eauto].
Qed.

End Outcomes.

(** The ways [process_album] ends, for an album that is there. *)
Lemma process_album_cases
    (ffmpeg : string -> option string) (echo_e : string -> string)
    (albums album : dir)
    (album_dir_name album_name photographer_name timestamp : string) (random : nat) :
  lookup album_dir_name albums = Some (Dir album) ->
  let folderName := to_snake_case album_name in
  let o := Upload.process_album ffmpeg echo_e albums album_dir_name album_name
             photographer_name timestamp random in
  let r := Upload.process_album_dir ffmpeg echo_e (album_dir_path album_dir_name)
             album_name photographer_name timestamp random album in
  let albums1 := set_entry album_dir_name (Dir (published_dir r)) albums in
  o = Upload.NoPhotos albums \/
  (exists why a, r = Died why a /\ o = Upload.Aborted why albums1) \/
  (exists a photo_data, r = Ok (a, photo_data) /\
     ((album_dir_name = folderName /\ exists n, o = Upload.Processed albums1 n) \/
      (album_dir_name <> folderName /\
       Upload.mv_album album_dir_name folderName a albums1 = None /\
       o = Upload.Aborted MvFailed albums1) \/
      (album_dir_name <> folderName /\ exists albums2 n,
         Upload.mv_album album_dir_name folderName a albums1 = Some albums2 /\
         o = Upload.Processed albums2 n))).
Proof.
  intros Hdir folderName o r albums1. subst o.
  unfold Upload.process_album. rewrite Hdir.
  destruct (Nat.eqb (List.length (Upload.find_photos album)) 0); [now left|].
  right. fold (album_dir_path album_dir_name). fold r.
  destruct r as [[a photo_data]|why a] eqn:Hr.
  - right. exists a, photo_data. split; [reflexivity|].
    unfold album_dir_path. rewrite album_path_eqb. fold folderName.
    subst albums1. simpl.
    destruct (String.eqb_spec album_dir_name folderName) as [E|Hne].
    + left. eauto.
    + right. destruct (Upload.mv_album album_dir_name folderName a
                         (set_entry album_dir_name (Dir a) albums)) as [albums2|].
      * right. split; [assumption|]. eauto.
      * left. auto.
  - left. exists why, a. auto.
Qed.

(** X3. The original photos, and every other regular file of the album root, are
    still there after [process_album], however it ends: each of them keeps
    its bytes in a file of the album root or of [full/]. With [cp] before
    [ffmpeg] and [rm] after it, a conversion that fails loses nothing. *)
Theorem process_album_keeps_files
    (ffmpeg : string -> option string) (echo_e : string -> string)
    (albums album : dir)
    (album_dir_name album_name photographer_name timestamp name content : string)
    (random : nat) :
  lookup album_dir_name albums = Some (Dir album) ->
  raw_album album ->
  lookup name album = Some (File content) ->
  exists album',
    album_after (Upload.process_album ffmpeg echo_e albums album_dir_name album_name
                   photographer_name timestamp random)
                (to_snake_case album_name) album_dir_name album' /\
    keeps_bytes album' content.
Proof.
  intros Hdir Hraw Hname.
  pose proof (process_album_cases ffmpeg echo_e albums album album_dir_name album_name
                photographer_name timestamp random Hdir) as Hcases.
  destruct (process_album_dir_keeps ffmpeg echo_e (album_dir_path album_dir_name)
              album_name photographer_name timestamp random album Hraw) as (Hkeep & _ & _).
  specialize (Hkeep name content Hname). cbv zeta in Hcases.
  set (r := Upload.process_album_dir ffmpeg echo_e (album_dir_path album_dir_name)
              album_name photographer_name timestamp random album) in *.
  destruct Hcases as [E|[(why & a & Hr & E)|(a & pd & Hr & Hcases)]].
  - rewrite E. exists album. split; [exact Hdir|]. left. eauto.
  - rewrite E. exists (published_dir r). split; [apply lookup_set_eq | exact Hkeep].
  - exists (published_dir r). split; [|exact Hkeep].
    destruct Hcases as [[Hsame [n E]]|[(Hne & Hmv & E)|(Hne & albums2 & n & Hmv & E)]];
      rewrite E; simpl.
    + left. rewrite <- Hsame. apply lookup_set_eq.
    + apply lookup_set_eq.
    + rewrite Hr in *. simpl in *. now apply (mv_album_at _ _ _ _ _ Hne Hmv).
Qed.

Lemma process_album_keeps_files_witness :
  exists album',
    album_after
      (Upload.process_album (fun _ => None) (fun t => t)
         [("Trip", Dir [("a.jpg", File "aaa"); ("b.png", File "bbb")])]
         "Trip" "Trip" "Bob" "2024-01-01T00:00:00Z" 0)
      "trip" "Trip" album' /\
    keeps_bytes album' "bbb".
Proof.
  apply (process_album_keeps_files (fun _ => None) (fun t => t)
           [("Trip", Dir [("a.jpg", File "aaa"); ("b.png", File "bbb")])]
           [("a.jpg", File "aaa"); ("b.png", File "bbb")]
           "Trip" "Trip" "Bob" "2024-01-01T00:00:00Z" "b.png" "bbb" 0);
    repeat split; reflexivity.
Defined.

(** X4. When [process_album] is cut short on a raw album, the album is still
    under its old name and tells which way it went. A failed copy or a
    failed conversion leaves it without [data.json], so that the next run
    finds it again as an album to process; a failed rename leaves it with
    its [data.json], published under the old directory name. *)
Theorem process_album_aborted
    (ffmpeg : string -> option string) (echo_e : string -> string)
    (albums album albums' : dir)
    (album_dir_name album_name photographer_name timestamp : string)
    (random : nat) (why : failure) :
  lookup album_dir_name albums = Some (Dir album) ->
  raw_album album ->
  Upload.process_album ffmpeg echo_e albums album_dir_name album_name
    photographer_name timestamp random = Upload.Aborted why albums' ->
  exists album',
    lookup album_dir_name albums' = Some (Dir album') /\
    ((why = MvFailed /\ is_file (lookup "data.json" album') = true) \/
     ((why = CpFailed \/ why = FfmpegFailed) /\
      lookup "data.json" album' = None /\
      (hidden album_dir_name = false ->
       In (album_dir_path album_dir_name) (Upload.uninitialized (glob_star albums'))))).
Proof.
  intros Hdir Hraw Hrun.
  pose proof (process_album_cases ffmpeg echo_e albums album album_dir_name album_name
                photographer_name timestamp random Hdir) as Hcases.
  destruct (process_album_dir_keeps ffmpeg echo_e (album_dir_path album_dir_name)
              album_name photographer_name timestamp random album Hraw)
    as (_ & Hdied & Hok).
  cbv zeta in Hcases.
  set (r := Upload.process_album_dir ffmpeg echo_e (album_dir_path album_dir_name)
              album_name photographer_name timestamp random album) in *.
  rewrite Hrun in Hcases.
  destruct Hcases as [E|[(why' & a & Hr & E)|(a & pd & Hr & Hcases)]];
    [discriminate E | |].
  - inversion E; subst why' albums'. exists (published_dir r).
    split; [apply lookup_set_eq|]. right.
    destruct (Hdied why a Hr) as [Hnone Hwhy]. rewrite Hr. simpl.
    split; [assumption|]. split; [assumption|].
    intros Hvis. apply in_uninitialized. exists album_dir_name, a.
    split; [|split; [now rewrite Hnone | reflexivity]].
    apply in_glob_star. split; [|assumption].
    apply lookup_in, lookup_set_eq.
  - destruct Hcases as [[_ [n E]]|[(Hne & Hmv & E)|(_ & albums2 & n & _ & E)]];
      try discriminate E.
    inversion E; subst why albums'. exists (published_dir r).
    split; [apply lookup_set_eq|]. left. split; [reflexivity|].
    rewrite Hr. simpl. now apply (Hok a pd).
Qed.

Lemma process_album_aborted_witness :
  exists album',
    lookup "Trip" [("Trip", Dir [("a.jpg", File "aaa"); ("low", Dir []);
                                 ("full", Dir [("trip_1.jpg", File "aaa")])])]
      = Some (Dir album') /\
    lookup "data.json" album' = None.
Proof.
  destruct (process_album_aborted (fun _ => None) (fun t => t)
              [("Trip", Dir [("a.jpg", File "aaa")])]
              [("a.jpg", File "aaa")]
              [("Trip", Dir [("a.jpg", File "aaa"); ("low", Dir []);
                             ("full", Dir [("trip_1.jpg", File "aaa")])])]
              "Trip" "Trip" "Bob" "2024-01-01T00:00:00Z" 0 FfmpegFailed
              eq_refl (conj eq_refl (conj eq_refl eq_refl)) eq_refl)
    as (album' & Hl & [[Hw _]|(_ & Hj & _)]).
  - discriminate Hw.
  - exists album'. auto.
Defined.

(** ** The other albums *)

Lemma mv_album_frame (src dst : string) (album albums albums' : dir) :
  src <> dst ->
  Upload.mv_album src dst album albums = Some albums' ->
  lookup src albums' = None /\
  (forall other, other <> src -> other <> dst ->
     lookup other albums' = lookup other albums) /\
  (forall target, lookup dst albums = Some (Dir target) ->
     exists target', lookup dst albums' = Some (Dir target') /\
                     forall k, k <> src -> lookup k target' = lookup k target).
Proof.
  intros Hne. unfold Upload.mv_album.
  destruct (String.eqb dst EmptyString); [discriminate|].
  destruct (lookup dst albums) as [[c|target]|] eqn:Hdst; [discriminate| |].
  - intros H.
    assert (E : albums' = set_entry dst (Dir (set_entry src (Dir album) target))
                            (remove_entry src albums)).
    { destruct (lookup src target) as [[c|[|e es]]|]; inversion H; reflexivity. }
    subst albums'. split; [|split].
    + rewrite lookup_set_neq by assumption. apply lookup_remove_eq.
    + intros other H1 H2. now rewrite lookup_set_neq, lookup_remove_neq by assumption.
    + intros target0 E. inversion E; subst target0.
      exists (set_entry src (Dir album) target). split; [apply lookup_set_eq|].
      intros k Hk. now apply lookup_set_neq.
  - intros H. inversion H; subst albums'; clear H. split; [|split].
    + rewrite lookup_app, lookup_remove_eq. simpl.
      destruct (String.eqb_spec dst src); [congruence | reflexivity].
    + intros other H1 H2. rewrite lookup_app, lookup_remove_neq by assumption.
      destruct (lookup other albums); [reflexivity|]. simpl.
      destruct (String.eqb_spec dst other); [congruence | reflexivity].
    + discriminate.
Qed.

(** X5. [process_album] leaves the other albums alone, however it ends. An
    album under another name than the old and the new one of the processed
    album is as before. An album that already stands under the new name is
    not overwritten: it keeps every entry it had, and receives the processed
    album as a subdirectory of the old name. After a rename nothing is left
    under the old name. *)
Theorem process_album_spares_others
    (ffmpeg : string -> option string) (echo_e : string -> string)
    (albums album : dir)
    (album_dir_name album_name photographer_name timestamp other : string)
    (random : nat) :
  lookup album_dir_name albums = Some (Dir album) ->
  other <> album_dir_name ->
  let folderName := to_snake_case album_name in
  let o := Upload.process_album ffmpeg echo_e albums album_dir_name album_name
             photographer_name timestamp random in
  (other <> folderName -> lookup other (albums_of o) = lookup other albums) /\
  (forall target, album_dir_name <> folderName ->
     lookup folderName albums = Some (Dir target) ->
     exists target', lookup folderName (albums_of o) = Some (Dir target') /\
                     forall k, k <> album_dir_name -> lookup k target' = lookup k target) /\
  (forall albums' n, o = Upload.Processed albums' n -> album_dir_name <> folderName ->
     lookup album_dir_name albums' = None).
Proof.
  intros Hdir Hother folderName o.
  pose proof (process_album_cases ffmpeg echo_e albums album album_dir_name album_name
                photographer_name timestamp random Hdir) as Hcases.
  cbv zeta in Hcases. fold folderName o in Hcases.
  set (r := Upload.process_album_dir ffmpeg echo_e (album_dir_path album_dir_name)
              album_name photographer_name timestamp random album) in *.
  set (albums1 := set_entry album_dir_name (Dir (published_dir r)) albums) in *.
  assert (H1 : forall k, k <> album_dir_name -> lookup k albums1 = lookup k albums).
  { intros k Hk. unfold albums1. now apply lookup_set_neq. }
  assert (Hstay : albums_of o = albums \/ albums_of o = albums1 ->
            (other <> folderName -> lookup other (albums_of o) = lookup other albums) /\
            (forall target, album_dir_name <> folderName ->
               lookup folderName albums = Some (Dir target) ->
               exists target', lookup folderName (albums_of o) = Some (Dir target') /\
                 forall k, k <> album_dir_name -> lookup k target' = lookup k target)).
  { intros [E|E]; rewrite E; split; auto.
    - intros target _ Ht. exists target. auto.
    - intros target Hne Ht. exists target. split; [|auto].
      rewrite H1 by congruence. exact Ht. }
  destruct Hcases as [E|[(why & a & Hr & E)|(a & pd & Hr & Hcases)]].
  - rewrite E in *. destruct Hstay as [Ha Hb]; [now left|].
    split; [exact Ha|]. split; [exact Hb|]. discriminate.
  - rewrite E in *. destruct Hstay as [Ha Hb]; [now right|].
    split; [exact Ha|]. split; [exact Hb|]. discriminate.
  - destruct Hcases as [[Hsame [n E]]|[(Hne & Hmv & E)|(Hne & albums2 & n & Hmv & E)]];
      rewrite E in *.
    + destruct Hstay as [Ha Hb]; [now right|].
      split; [exact Ha|]. split; [exact Hb|]. intros; contradiction.
    + destruct Hstay as [Ha Hb]; [now right|].
      split; [exact Ha|]. split; [exact Hb|]. discriminate.
    + destruct (mv_album_frame _ _ _ _ _ Hne Hmv) as (Hgone & Hframe & Htarget).
      simpl. split; [|split].
      * intros Hof. rewrite Hframe by assumption. now apply H1.
      * intros target _ Ht. apply Htarget. rewrite H1 by congruence. exact Ht.
      * intros albums' n' E' _. inversion E'; subst. exact Hgone.
Qed.

Lemma process_album_spares_others_witness :
  lookup "other"
    (albums_of
       (Upload.process_album (fun c => Some c) (fun t => t)
          [("Trip", Dir [("a.jpg", File "aaa")]); ("other", Dir [("x.jpg", File "x")])]
          "Trip" "Trip" "Bob" "2024-01-01T00:00:00Z" 0))
  = Some (Dir [("x.jpg", File "x")]).
Proof.
  apply (proj1 (process_album_spares_others (fun c => Some c) (fun t => t)
                  [("Trip", Dir [("a.jpg", File "aaa")]);
                   ("other", Dir [("x.jpg", File "x")])]
                  [("a.jpg", File "aaa")]
                  "Trip" "Trip" "Bob" "2024-01-01T00:00:00Z" "other" 0
                  eq_refl ltac:(discriminate))).
  discriminate.
Defined.

(** X6. An album name without a letter or a digit gives the empty folder name;
    the rename then aims at the albums directory itself and fails, so that
    [process_album] never ends normally under such a name. *)
Theorem process_album_empty_folder_name
    (ffmpeg : string -> option string) (echo_e : string -> string)
    (albums albums' : dir)
    (album_dir_name album_name photographer_name timestamp : string)
    (random n : nat) :
  to_snake_case album_name = EmptyString ->
  album_dir_name <> EmptyString ->
  Upload.process_album ffmpeg echo_e albums album_dir_name album_name
    photographer_name timestamp random <> Upload.Processed albums' n.
Proof.
  intros Hempty Hname. unfold Upload.process_album.
  destruct (Nat.eqb _ 0); [discriminate|].
  destruct (Upload.process_album_dir _ _ _ _ _ _ _ _) as [[a pd]|why a]; [|discriminate].
  rewrite album_path_eqb, Hempty.
  destruct (String.eqb_spec album_dir_name EmptyString); [contradiction|].
  unfold Upload.mv_album. simpl. discriminate.
Qed.

Lemma process_album_empty_folder_name_witness :
  Upload.process_album (fun c => Some c) (fun t => t)
    [("Trip", Dir [("a.jpg", File "aaa")])] "Trip" "!!!" "Bob" "2024-01-01T00:00:00Z" 0
  <> Upload.Processed [] 1.
Proof.
  apply process_album_empty_folder_name; [reflexivity | discriminate].
Defined.

(** ** A published album in the scans *)

Lemma map_fst_set_entry (name : string) (n x : node) (d : dir) :
  lookup name d = Some x -> map fst (set_entry name n d) = map fst d.
Proof.
  induction d as [|[k m] r IH]; simpl; [discriminate|].
  destruct (String.eqb k name) eqn:E; simpl; [reflexivity|].
  intros H. now rewrite IH.
Qed.

Lemma in_map_fst_remove (name k : string) (d : dir) :
  In k (map fst (remove_entry name d)) <-> k <> name /\ In k (map fst d).
Proof.
  rewrite !in_map_iff. split.
  - intros ([k' x] & E & Hin). simpl in E. subst k'.
    apply in_remove_entry in Hin as [H1 H2]. split; [assumption|].
    exists (k, x). auto.
  - intros (Hne & [k' x] & E & Hin). simpl in E. subst k'.
    exists (k, x). split; [reflexivity|]. now apply in_remove_entry.
Qed.

Lemma nodup_remove_entry (name : string) (d : dir) :
  NoDup (map fst d) -> NoDup (map fst (remove_entry name d)).
Proof.
  induction d as [|[k m] r IH]; simpl; [constructor|].
  intros H. inversion H as [|? ? Hnot Hnd]; subst.
  destruct (String.eqb k name); simpl; [now apply IH|].
  constructor; [|now apply IH].
  intros Hin. apply in_map_fst_remove in Hin as [_ Hin]. contradiction.
Qed.

Lemma lookup_none_names (name : string) (d : dir) :
  lookup name d = None -> ~ In name (map fst d).
Proof.
  induction d as [|[k m] r IH]; simpl; [tauto|].
  destruct (String.eqb_spec k name) as [->|Hne]; [discriminate|].
  intros H [E|Hin]; [congruence | now apply IH].
Qed.

Lemma to_snake_case_no_newline (album_name : string) :
  contains_char nl (to_snake_case album_name) = false.
Proof. apply (class_no_char nl); [reflexivity | apply to_snake_case_class]. Qed.

Lemma hidden_folder_name (album_name : string) :
  hidden (to_snake_case album_name) = false.
Proof.
  pose proof (to_snake_case_class album_name) as H.
  destruct (to_snake_case album_name) as [|c r]; [reflexivity|].
  simpl in H. apply andb_true_iff in H as [H _]. simpl.
  destruct c as [[] [] [] [] [] [] [] []]; try reflexivity; discriminate H.
Qed.

(** The names of the albums directory stay plain through a run that ends
    normally under a free folder name. *)
Lemma processed_plain_names
    (ffmpeg : string -> option string) (echo_e : string -> string)
    (albums album albums' : dir)
    (album_dir_name album_name photographer_name timestamp : string)
    (random n : nat) :
  lookup album_dir_name albums = Some (Dir album) ->
  plain_names albums ->
  album_dir_name = to_snake_case album_name
    \/ lookup (to_snake_case album_name) albums = None ->
  Upload.process_album ffmpeg echo_e albums album_dir_name album_name
    photographer_name timestamp random = Upload.Processed albums' n ->
  plain_names albums'.
Proof.
  intros Hdir [Hnd Hplain] Hfree Hrun.
  pose proof (process_album_cases ffmpeg echo_e albums album album_dir_name album_name
                photographer_name timestamp random Hdir) as Hcases.
  cbv zeta in Hcases. rewrite Hrun in Hcases.
  set (r := Upload.process_album_dir ffmpeg echo_e (album_dir_path album_dir_name)
              album_name photographer_name timestamp random album) in *.
  set (albums1 := set_entry album_dir_name (Dir (published_dir r)) albums) in *.
  assert (Hnames : map fst albums1 = map fst albums).
  { unfold albums1. now apply (map_fst_set_entry _ _ (Dir album)). }
  destruct Hcases as [E|[(why & a & Hr & E)|(a & pd & Hr & Hcases)]];
    try discriminate E.
  destruct Hcases as [[Hsame [n' E]]|[(Hne & Hmv & E)|(Hne & albums2 & n' & Hmv & E)]];
    try discriminate E.
  - inversion E; subst albums'. unfold plain_names. now rewrite Hnames.
  - inversion E; subst albums2 n'. clear E.
    destruct Hfree as [|Hnone]; [contradiction|].
    unfold Upload.mv_album in Hmv.
    destruct (String.eqb (to_snake_case album_name) EmptyString); [discriminate|].
    assert (Hnone1 : lookup (to_snake_case album_name) albums1 = None).
    { unfold albums1. rewrite lookup_set_neq by congruence. exact Hnone. }
    rewrite Hnone1 in Hmv. inversion Hmv; subst albums'. clear Hmv.
    unfold plain_names. rewrite map_app. simpl. split.
    + apply NoDup_app.
      * apply nodup_remove_entry. now rewrite Hnames.
      * repeat constructor. simpl. tauto.
      * intros k Hk [<-|[]]. apply in_map_fst_remove in Hk as [_ Hk].
        rewrite Hnames in Hk. now apply lookup_none_names in Hnone.
    + intros name Hin. apply in_app_or in Hin as [Hin|[<-|[]]].
      * apply in_map_fst_remove in Hin as [_ Hin]. rewrite Hnames in Hin. now apply Hplain.
      * apply to_snake_case_no_newline.
Qed.

Lemma started_all (rsync : string * string -> bool) (transfers : list (string * string)) :
  (forall t, rsync t = true) -> Upload.started rsync transfers = transfers.
Proof.
  intros H. induction transfers as [|t r IH]; [reflexivity|].
  simpl. now rewrite H, IH.
Qed.

(** X7. Publishing shows in every scan. After a run of [process_album] that ends
    normally on a raw album, under a folder name that no other album holds,
    the album is listed by [generate_albums_manifest], is no longer an album
    that [find_uninitialized_albums] reports, and is one that
    [deploy_to_nginx] uploads: confirmed, and with no transfer failing, it
    sends [low/] and [full/] of the album. *)
Theorem published_album_in_scans
    (ffmpeg : string -> option string) (echo_e : string -> string)
    (albums album albums' : dir)
    (album_dir_name album_name photographer_name timestamp : string)
    (random n : nat) :
  lookup album_dir_name albums = Some (Dir album) ->
  raw_album album ->
  plain_names albums ->
  album_dir_name = to_snake_case album_name
    \/ lookup (to_snake_case album_name) albums = None ->
  Upload.process_album ffmpeg echo_e albums album_dir_name album_name
    photographer_name timestamp random = Upload.Processed albums' n ->
  let folderName := to_snake_case album_name in
  In folderName (Upload.manifest_albums albums') /\
  ~ In (album_dir_path folderName) (Upload.uninitialized (glob_star albums')) /\
  In folderName (Upload.albums_to_upload (glob_star albums')) /\
  forall rsync pub confirm,
    lookup "albums" pub = Some (Dir albums') ->
    confirm = "y" \/ confirm = "Y" ->
    (forall t, rsync t = true) ->
    incl (Upload.rsync_album folderName) (Upload.deploy_to_nginx true rsync pub confirm).
Proof.
  intros Hdir Hraw Hplain Hfree Hrun folderName.
  destruct (processed_plain_names _ _ _ _ _ _ _ _ _ _ _ Hdir Hplain Hfree Hrun)
    as [Hnd' Hplain'].
  destruct (process_album_processed _ _ _ _ _ _ _ _ _ _ _ Hdir Hrun)
    as (_ & _ & album' & photo_data & Hpub & _ & Hloc).
  specialize (Hloc Hfree). fold folderName in Hloc.
  destruct (process_album_dir_ok ffmpeg echo_e _ _ _ _ _ _ _ _ Hraw Hpub)
    as (_ & _ & _ & Hlow & Hfull & Hjson & _).
  assert (Hin : In (folderName, Dir album') (glob_star albums')).
  { apply in_glob_star. split; [now apply lookup_in | apply hidden_folder_name]. }
  assert (Hbase : Upload.basename folderName = folderName).
  { apply basename_plain, to_snake_case_no_newline. }
  assert (Hup : In folderName (Upload.albums_to_upload (glob_star albums'))).
  { apply in_albums_to_upload. exists folderName, album'.
    rewrite Hlow, Hfull. auto. }
  split; [|split; [|split]].
  - apply in_published_albums. exists folderName, album'. rewrite Hjson. auto.
  - intros Hp. apply in_uninitialized in Hp as (name' & d' & Hin' & Hf & E).
    apply album_dir_path_inj in E. subst name'.
    apply in_glob_star in Hin' as [Hin' _]. apply in_glob_star in Hin as [Hin _].
    assert (E : Dir album' = Dir d') by now apply (nodup_entry albums' folderName).
    inversion E; subst d'. rewrite Hjson in Hf. discriminate Hf.
  - exact Hup.
  - intros rsync pub confirm Hpub' Hconfirm Hrsync x Hx.
    unfold Upload.deploy_to_nginx. rewrite Hpub'. cbn [negb].
    destruct (Upload.albums_to_upload (glob_star albums')) as [|y l] eqn:El;
      [contradiction|].
    assert (Hc : negb (String.eqb confirm "y") && negb (String.eqb confirm "Y") = false)
      by (destruct Hconfirm; subst confirm; reflexivity).
    rewrite Hc, started_all by assumption. apply in_flat_map. exists folderName. auto.
Qed.

Lemma published_album_in_scans_witness :
  In "trip"
    (Upload.manifest_albums
       (albums_of (Upload.process_album (fun c => Some c) (fun t => t)
                     [("Trip", Dir [("a.jpg", File "aaa")])]
                     "Trip" "Trip" "Bob" "2024-01-01T00:00:00Z" 0))).
Proof.
  refine (proj1 (published_album_in_scans (fun c => Some c) (fun t => t)
                   [("Trip", Dir [("a.jpg", File "aaa")])]
                   [("a.jpg", File "aaa")]
                   (albums_of (Upload.process_album (fun c => Some c) (fun t => t)
                                 [("Trip", Dir [("a.jpg", File "aaa")])]
                                 "Trip" "Trip" "Bob" "2024-01-01T00:00:00Z" 0))
                   "Trip" "Trip" "Bob" "2024-01-01T00:00:00Z" 0 1
                   eq_refl (conj eq_refl (conj eq_refl eq_refl))
                   _ (or_intror eq_refl) eq_refl)).
  split; [repeat constructor; simpl; tauto | intros k [<-|[]]; reflexivity].
Defined.

(** ** The reset beyond the published album *)

(** What a reset that ends normally leaves: the album directory under its
    name, without metadata file, without thumbnail directory and without
    [full/]. *)
Lemma reset_album_done (albums albums' : dir) (album_name confirm : string) (k : nat) :
  ResetAlbum.reset_album albums album_name confirm = ResetAlbum.ResetDone albums' k ->
  exists album restored,
    lookup album_name albums = Some (Dir album) /\
    albums' = set_entry album_name (Dir restored) albums /\
    is_file (lookup "data.json" restored) = false /\
    is_dir (lookup "low" restored) = false /\
    lookup "full" restored = None.
Proof.
  unfold ResetAlbum.reset_album.
  destruct (lookup album_name albums) as [[c|album]|] eqn:Hdir; try discriminate.
  destruct (negb (is_file (lookup "data.json" album))); [discriminate|].
  destruct (lookup "full" album) as [[c|full]|]; try discriminate.
  destruct (negb (String.eqb confirm "y") && negb (String.eqb confirm "Y")); [discriminate|].
  destruct (glob_star full) as [|e sources]; [discriminate|].
  destruct (ResetAlbum.mv_all (e :: sources) album) as [album1 moved].
  destruct moved; [|discriminate].
  set (album2 := if is_dir (lookup "low" album1) then remove_entry "low" album1 else album1).
  set (album3 := remove_entry "full" album2).
  intros E. inversion E; subst albums' k. clear E.
  assert (Hlow2 : is_dir (lookup "low" album2) = false).
  { unfold album2. destruct (is_dir (lookup "low" album1)) eqn:E; [|exact E].
    now rewrite lookup_remove_eq. }
  exists album. eexists. split; [reflexivity|]. split; [reflexivity|].
  destruct (is_file (lookup "data.json" album3)) eqn:Hjson.
  - split; [now rewrite lookup_remove_eq|].
    unfold album3. rewrite !lookup_remove_neq by discriminate.
    split; [exact Hlow2|]. apply lookup_remove_eq.
  - split; [exact Hjson|]. unfold album3. rewrite lookup_remove_neq by discriminate.
    split; [exact Hlow2|]. apply lookup_remove_eq.
Qed.

(** X8. A second reset finds nothing to do: after a reset that ended
    normally, [reset_album] on the same album reports the original state,
    whatever the answer to its prompt would be, and changes nothing. *)
Theorem reset_album_twice (albums albums' : dir) (album_name confirm again : string)
    (k : nat) :
  ResetAlbum.reset_album albums album_name confirm = ResetAlbum.ResetDone albums' k ->
  ResetAlbum.reset_album albums' album_name again = ResetAlbum.AlreadyOriginal albums'.
Proof.
  intros H. apply reset_album_done in H as (album & restored & _ & -> & Hjson & _).
  unfold ResetAlbum.reset_album. now rewrite lookup_set_eq, Hjson.
Qed.

Lemma reset_album_twice_witness :
  ResetAlbum.reset_album
    [("trip", Dir [("a.jpg", File "aaa")])] "trip" "n"
  = ResetAlbum.AlreadyOriginal [("trip", Dir [("a.jpg", File "aaa")])].
Proof.
  apply (reset_album_twice
           [("trip", Dir [("full", Dir [("a.jpg", File "aaa")]);
                          ("low", Dir [("a.webp", File "aaa")]);
                          ("data.json", File "{}")])]
           [("trip", Dir [("a.jpg", File "aaa")])] "trip" "y" "n" 1).
  reflexivity.
Defined.

(** X9. Without a confirmation nothing is touched: with any answer but [y]
    or [Y], the albums directory after [reset_album] is the one before,
    whatever state the album is in. *)
Theorem reset_album_unconfirmed (albums : dir) (album_name confirm : string) :
  confirm <> "y" -> confirm <> "Y" ->
  state_of (ResetAlbum.reset_album albums album_name confirm) = albums /\
  forall albums' k,
    ResetAlbum.reset_album albums album_name confirm <> ResetAlbum.ResetDone albums' k.
Proof.
  intros H1 H2. apply String.eqb_neq in H1, H2.
  unfold ResetAlbum.reset_album. rewrite H1, H2. cbn [negb andb].
  destruct (lookup album_name albums) as [[c|album]|];
    [split; [reflexivity | discriminate] | | split; [reflexivity | discriminate]].
  destruct (negb (is_file (lookup "data.json" album)));
    [split; [reflexivity | discriminate]|].
  destruct (lookup "full" album) as [[c|full]|];
    split; try reflexivity; discriminate.
Qed.

Lemma reset_album_unconfirmed_witness :
  state_of (ResetAlbum.reset_album
              [("trip", Dir [("full", Dir [("a.jpg", File "aaa")]);
                             ("data.json", File "{}")])] "trip" "yes")
  = [("trip", Dir [("full", Dir [("a.jpg", File "aaa")]); ("data.json", File "{}")])].
Proof.
  apply (proj1 (reset_album_unconfirmed
                  [("trip", Dir [("full", Dir [("a.jpg", File "aaa")]);
                                 ("data.json", File "{}")])] "trip" "yes"
                  ltac:(discriminate) ltac:(discriminate))).
Defined.

(** X10. The reset stays inside its album: whatever its outcome, every other
    entry of the albums directory is afterwards what it was. *)
Theorem reset_album_spares_others (albums : dir) (album_name confirm other : string) :
  other <> album_name ->
  lookup other (state_of (ResetAlbum.reset_album albums album_name confirm))
  = lookup other albums.
Proof.
  intros Hne. unfold ResetAlbum.reset_album.
  destruct (lookup album_name albums) as [[c|album]|]; try reflexivity.
  destruct (negb (is_file (lookup "data.json" album))); [reflexivity|].
  destruct (lookup "full" album) as [[c|full]|]; try reflexivity.
  destruct (negb (String.eqb confirm "y") && negb (String.eqb confirm "Y")); [reflexivity|].
  destruct (glob_star full) as [|e sources]; [reflexivity|].
  destruct (ResetAlbum.mv_all (e :: sources) album) as [album1 moved].
  destruct moved; cbn [state_of]; now apply lookup_set_neq.
Qed.

Lemma reset_album_spares_others_witness :
  lookup "zoo"
    (state_of (ResetAlbum.reset_album
                 [("trip", Dir [("full", Dir [("a.jpg", File "aaa")]);
                                ("data.json", File "{}")]);
                  ("zoo", Dir [("data.json", File "{}")])] "trip" "y"))
  = Some (Dir [("data.json", File "{}")]).
Proof.
  apply (reset_album_spares_others
           [("trip", Dir [("full", Dir [("a.jpg", File "aaa")]);
                          ("data.json", File "{}")]);
            ("zoo", Dir [("data.json", File "{}")])] "trip" "y" "zoo").
  discriminate.
Defined.

(** A move to the album root keeps the metadata a file and [full/] a
    directory. *)
Lemma mv_to_root_keeps (name : string) (n : node) (album album' : dir) :
  ResetAlbum.mv_to_root name n album = Some album' ->
  is_file (lookup "data.json" album) = true ->
  is_file (lookup "data.json" album') = true /\ is_dir (lookup "full" album') = true.
Proof.
  unfold ResetAlbum.mv_to_root.
  destruct (ResetAlbum.may_replace (lookup name album) n) eqn:Hmay; [|discriminate].
  destruct (lookup "full" album) as [[c|full]|] eqn:Hfull; try discriminate.
  intros E Hjson. inversion E; subst album'. clear E.
  destruct (String.eqb_spec name "data.json") as [->|Hj].
  - rewrite lookup_set_eq, lookup_set_neq, lookup_set_eq by discriminate.
    destruct (lookup "data.json" album) as [[c|d]|]; try discriminate Hjson.
    destruct n; [auto | discriminate Hmay].
  - rewrite (lookup_set_neq name "data.json") by congruence.
    rewrite (lookup_set_neq "full" "data.json") by discriminate.
    split; [exact Hjson|].
    destruct (String.eqb_spec name "full") as [->|Hf].
    + rewrite lookup_set_eq. rewrite Hfull in Hmay.
      destruct n; [destruct full; discriminate Hmay | reflexivity].
    + rewrite lookup_set_neq by congruence. now rewrite lookup_set_eq.
Qed.

Lemma mv_all_keeps (sources : dir) :
  forall (album album1 : dir) (moved : bool),
  ResetAlbum.mv_all sources album = (album1, moved) ->
  is_file (lookup "data.json" album) = true ->
  is_dir (lookup "full" album) = true ->
  is_file (lookup "data.json" album1) = true /\ is_dir (lookup "full" album1) = true.
Proof.
  induction sources as [|[name n] rest IH]; intros album album1 moved; cbn [ResetAlbum.mv_all].
  - intros E. inversion E; subst. auto.
  - destruct (ResetAlbum.mv_to_root name n album) as [album'|] eqn:Hmv.
    + intros E Hjson Hfull.
      destruct (mv_to_root_keeps _ _ _ _ Hmv Hjson) as [Hj Hf].
      exact (IH _ _ _ E Hj Hf).
    + destruct (ResetAlbum.mv_all rest album) as [album' b] eqn:Hrest.
      intros E Hjson Hfull. inversion E; subst album1 moved.
      exact (IH _ _ _ Hrest Hjson Hfull).
Qed.

(** X11. A reset that stops at the move leaves the album published: when
    [mv] fails, for an empty [full/] or for a name that is taken in the album
    root, the album keeps its [data.json] and its [full/], and a further
    reset does not take it for an album in its original state. *)
Theorem reset_album_failed_move (albums albums' : dir) (album_name confirm : string) :
  ResetAlbum.reset_album albums album_name confirm
    = ResetAlbum.ResetFailed MvFailed albums' ->
  exists album',
    lookup album_name albums' = Some (Dir album') /\
    is_file (lookup "data.json" album') = true /\
    is_dir (lookup "full" album') = true /\
    forall again albums'',
      ResetAlbum.reset_album albums' album_name again
        <> ResetAlbum.AlreadyOriginal albums''.
Proof.
  unfold ResetAlbum.reset_album at 1.
  destruct (lookup album_name albums) as [[c|album]|] eqn:Hdir; try discriminate.
  destruct (is_file (lookup "data.json" album)) eqn:Hjson; [|discriminate]. cbn [negb].
  destruct (lookup "full" album) as [[c|full]|] eqn:Hfull; try discriminate.
  destruct (negb (String.eqb confirm "y") && negb (String.eqb confirm "Y")); [discriminate|].
  assert (Hshape : forall album',
            lookup album_name albums' = Some (Dir album') ->
            is_file (lookup "data.json" album') = true ->
            is_dir (lookup "full" album') = true ->
            forall again albums'',
              ResetAlbum.reset_album albums' album_name again
                <> ResetAlbum.AlreadyOriginal albums'').
  { intros album' Hd Hj Hf again albums''. unfold ResetAlbum.reset_album.
    rewrite Hd, Hj. cbn [negb].
    destruct (lookup "full" album') as [[c|full']|]; try discriminate Hf.
    destruct (negb (String.eqb again "y") && negb (String.eqb again "Y"));
      [discriminate|].
    destruct (glob_star full') as [|e sources]; [discriminate|].
    destruct (ResetAlbum.mv_all (e :: sources) album') as [a m].
    destruct m; discriminate. }
  destruct (glob_star full) as [|e sources] eqn:Hg.
  - intros E. inversion E; subst albums'. exists album.
    assert (Hf : is_dir (lookup "full" album) = true) by now rewrite Hfull.
    repeat split; try assumption. now apply (Hshape album).
  - destruct (ResetAlbum.mv_all (e :: sources) album) as [album1 moved] eqn:Hmv.
    destruct moved; [discriminate|].
    intros E. inversion E; subst albums'. clear E.
    destruct (mv_all_keeps _ _ _ _ Hmv Hjson) as [Hj Hf]; [now rewrite Hfull|].
    exists album1. split; [apply lookup_set_eq|]. split; [exact Hj|]. split; [exact Hf|].
    apply (Hshape album1); [apply lookup_set_eq | exact Hj | exact Hf].
Qed.

Lemma reset_album_failed_move_witness :
  exists album',
    lookup "trip"
      [("trip", Dir [("full", Dir [("a.jpg", File "new")]);
                     ("data.json", File "{}");
                     ("a.jpg", Dir [])])] = Some (Dir album') /\
    is_file (lookup "data.json" album') = true.
Proof.
  destruct (reset_album_failed_move
              [("trip", Dir [("full", Dir [("a.jpg", File "new")]);
                             ("data.json", File "{}");
                             ("a.jpg", Dir [])])]
              [("trip", Dir [("full", Dir [("a.jpg", File "new")]);
                             ("data.json", File "{}");
                             ("a.jpg", Dir [])])] "trip" "y" eq_refl)
    as (album' & H1 & H2 & _).
  exists album'. split; assumption.
Defined.

Lemma map_fst_set_present (name : string) (n : node) (d : dir) :
  (exists x, lookup name d = Some x) -> map fst (set_entry name n d) = map fst d.
Proof. intros [x H]. now apply (map_fst_set_entry _ _ x). Qed.

(** X12. A reset album is an album to publish again: after a reset that ended
    normally, the manifest scan no longer lists the album, the upload to the
    photo server no longer picks it, and [find_uninitialized_albums] reports
    it as pending. *)
Theorem reset_album_pending_again (albums albums' : dir) (album_name confirm : string)
    (k : nat) :
  plain_names albums ->
  hidden album_name = false ->
  ResetAlbum.reset_album albums album_name confirm = ResetAlbum.ResetDone albums' k ->
  ~ In album_name (Upload.manifest_albums albums') /\
  ~ In album_name (Upload.albums_to_upload (glob_star albums')) /\
  In (album_dir_path album_name) (Upload.uninitialized (glob_star albums')).
Proof.
  intros [Hnd Hplain] Hvisible Hrun.
  apply reset_album_done in Hrun as (album & restored & Hdir & -> & Hjson & Hlow & Hfull).
  set (albums' := set_entry album_name (Dir restored) albums).
  assert (Hnames : map fst albums' = map fst albums).
  { apply map_fst_set_present. eauto. }
  assert (Hnd' : NoDup (map fst albums')) by now rewrite Hnames.
  assert (Hhere : In (album_name, Dir restored) albums').
  { apply lookup_in, lookup_set_eq. }
  assert (Hbase : forall name d, In (name, Dir d) (glob_star albums') ->
            album_name = Upload.basename name -> d = restored).
  { intros name d Hin E. apply in_glob_star in Hin as [Hin _].
    rewrite basename_plain in E.
    - subst name. assert (E : Dir d = Dir restored) by now apply (nodup_entry albums' album_name).
      now inversion E.
    - apply Hplain. rewrite <- Hnames. now apply (in_map fst) in Hin. }
  split; [|split].
  - unfold Upload.manifest_albums. rewrite in_published_albums.
    intros (name & d & Hin & Hf & E). rewrite (Hbase _ _ Hin E) in Hf. congruence.
  - rewrite in_albums_to_upload.
    intros (name & d & Hin & Hf & E). rewrite (Hbase _ _ Hin E), Hfull in Hf.
    rewrite andb_false_r in Hf. discriminate Hf.
  - apply in_uninitialized. exists album_name, restored.
    split; [now apply in_glob_star | auto].
Qed.

Lemma reset_album_pending_again_witness :
  In (album_dir_path "trip")
    (Upload.uninitialized (glob_star [("trip", Dir [("a.jpg", File "aaa")])])).
Proof.
  refine (proj2 (proj2 (reset_album_pending_again
           [("trip", Dir [("full", Dir [("a.jpg", File "aaa")]);
                          ("low", Dir [("a.webp", File "aaa")]);
                          ("data.json", File "{}")])]
           [("trip", Dir [("a.jpg", File "aaa")])] "trip" "y" 1
           _ eq_refl eq_refl))).
  split; [repeat constructor; simpl; tauto | intros name [<-|[]]; reflexivity].
Defined.

(** ** The upload to the photo server *)

Lemma in_started (rsync : string * string -> bool) (t : string * string)
    (transfers : list (string * string)) :
  In t (Upload.started rsync transfers) -> In t transfers.
Proof.
  induction transfers as [|x r IH]; simpl; [tauto|].
  destruct (rsync x); simpl; [|tauto]. intros [E|H]; [now left | right; now apply IH].
Qed.



(** ** The album page *)

Lemma to_string_error : forall (v : json) (e : exn), to_string v = inl e -> e = TypeError.
Proof.
  fix IH 1. intros v e. destruct v as [|b|n|s|items|fields]; cbn [to_string].
  - discriminate.
  - destruct b; discriminate.
  - discriminate.
  - discriminate.
  - match goal with
    | |- ?f true items = inl e -> _ =>
        set (join := f); change (join true items = inl e -> e = TypeError)
    end.
    generalize true. induction items as [|x r IHr]; intros first; [discriminate|].
    unfold join. fold join.
    destruct (match x with JNull => inr EmptyString | _ => to_string x end)
      as [e'|s] eqn:Ex.
    + intros E. inversion E; subst e'.
      assert (Ex' : to_string x = inl e) by (destruct x; (discriminate Ex || exact Ex)).
      exact (IH x e Ex').
    + destruct (join false r) as [e'|t] eqn:Er.
      * intros E. inversion E; subst e'. exact (IHr false Er).
      * discriminate.
  - destruct (field "toString" fields); [|discriminate].
    intros E. now inversion E.
Qed.

Lemma load_photo_error (albumFolder : string) (p : json) (e : exn) :
  AlbumView.load_photo albumFolder p = inl e -> e = TypeError.
Proof.
  assert (Hlegacy : forall q,
            match to_string q with
            | inl e0 => inl e0
            | inr name =>
                inr (AlbumView.mk_photo ("albums/" ++ albumFolder ++ "/low/" ++ name)
                       ("albums/" ++ albumFolder ++ "/low/" ++ name)
                       ("albums/" ++ albumFolder ++ "/full/" ++ name))
            end = inl e -> e = TypeError).
  { intros q. destruct (to_string q) as [e0|name] eqn:Eq; [|discriminate].
    intros E. inversion E; subst e0. exact (to_string_error _ _ Eq). }
  unfold AlbumView.load_photo.
  destruct (typeof_object p); [|apply Hlegacy].
  destruct (get "webp" p) as [e0|webp] eqn:Eg.
  - destruct p; try discriminate Eg. inversion Eg. intros E. now inversion E.
  - destruct (truthy webp); [|apply Hlegacy].
    destruct webp as [[|b|n|s|items|fs]|]; try (intros E; now inversion E).
    destruct (get "ext" p) as [e1|v] eqn:Ee.
    + destruct p; try discriminate Ee. inversion Ee. intros E. now inversion E.
    + destruct (value_to_string v) as [e1|ext] eqn:Ev; [|discriminate].
      intros E. inversion E; subst e1.
      destruct v as [j|]; [exact (to_string_error _ _ Ev) | discriminate Ev].
Qed.

Lemma map_photos_all (albumFolder : string) (items : list json) :
  forall photos,
  AlbumView.map_photos albumFolder items = inr photos <->
  Forall2 (fun p x => AlbumView.load_photo albumFolder p = inr x) items photos.
Proof.
  induction items as [|p r IH]; intros photos; cbn [AlbumView.map_photos].
  - split; [intros E; inversion E; constructor | intros H; now inversion H].
  - destruct (AlbumView.load_photo albumFolder p) as [e|x] eqn:Hp.
    + split; [discriminate | intros H; inversion H; congruence].
    + destruct (AlbumView.map_photos albumFolder r) as [e|xs] eqn:Hr.
      * split; [discriminate|]. intros H. inversion H as [|? y ? ys _ Hys]; subst.
        apply IH in Hys. discriminate Hys.
      * split.
        -- intros E. inversion E; subst photos. constructor; [assumption | now apply IH].
        -- intros H. inversion H as [|? y ? ys Hy Hys]; subst.
           apply IH in Hys. congruence.
Qed.

Lemma map_photos_null (albumFolder : string) (items : list json) :
  In JNull items -> AlbumView.map_photos albumFolder items = inl TypeError.
Proof.
  induction items as [|p r IH]; [intros []|]. cbn [AlbumView.map_photos].
  intros [->|Hin]; [reflexivity|].
  destruct (AlbumView.load_photo albumFolder p) as [e|x] eqn:Hp.
  - now rewrite (load_photo_error _ _ _ Hp).
  - now rewrite (IH Hin).
Qed.

(** X14. The album page loads its photos all or none. For album data whose
    [photos] is an array, [loadPhotos] returns a list exactly when the array
    is not empty and every entry decodes, and the list then holds the
    decoded entries one for one and in order; a single [null] entry makes the
    whole call throw, so that [initAlbumView] shows the error and no photo.
    A record whose extension does not print, an object with a property
    [toString], does not decode either. *)
Theorem loadPhotos_all_or_nothing (currentAlbum : json) (albumFolder : string)
    (items : list json) :
  get "photos" currentAlbum = inr (Some (JArr items)) ->
  (forall photos,
     AlbumView.loadPhotos currentAlbum albumFolder = inr photos <->
     items <> [] /\
     Forall2 (fun p x => AlbumView.load_photo albumFolder p = inr x) items photos) /\
  (In JNull items ->
   AlbumView.loadPhotos currentAlbum albumFolder
   = inl (Rethrown "Could not load photos: " TypeError)) /\
  (forall fields webp ext x,
     field "webp" fields = Some (JStr webp) -> webp <> EmptyString ->
     field "ext" fields = Some (JObj ext) -> field "toString" ext = Some x ->
     AlbumView.load_photo albumFolder (JObj fields) = inl TypeError).
Proof.
  intros Hget. unfold AlbumView.loadPhotos. rewrite Hget. cbn [truthy negb].
  split; [|split].
  - destruct items as [|p r].
    + intros photos. split; [discriminate | intros [H _]; congruence].
    + intros photos. rewrite <- map_photos_all.
      destruct (AlbumView.map_photos albumFolder (p :: r)) as [e|xs].
      * split; [discriminate | intros [_ H]; discriminate H].
      * split; [intros E; inversion E; split; [discriminate | reflexivity]
               | intros [_ E]; inversion E; reflexivity].
  - intros Hin. destruct items as [|p r]; [destruct Hin|].
    now rewrite (map_photos_null _ _ Hin).
  - intros fields webp ext x Hw Hne He Hts.
    unfold AlbumView.load_photo. cbn [typeof_object get]. rewrite Hw, He.
    cbn [truthy value_to_string to_string]. rewrite Hts.
    destruct (String.eqb_spec webp EmptyString); [contradiction | reflexivity].
Qed.

Lemma loadPhotos_all_or_nothing_witness :
  AlbumView.loadPhotos
    (JObj [("photos", JArr [JStr "a.webp"; JNull; JStr "b.webp"])]) "trip"
  = inl (Rethrown "Could not load photos: " TypeError).
Proof.
  apply (proj1 (proj2 (loadPhotos_all_or_nothing
                  (JObj [("photos", JArr [JStr "a.webp"; JNull; JStr "b.webp"])]) "trip"
                  [JStr "a.webp"; JNull; JStr "b.webp"] eq_refl))).
  right. left. reflexivity.
Defined.

Lemma nth_error_thumbnails (currentAlbum : json) (photos : list AlbumView.photo) :
  forall k i grid p,
  AlbumView.thumbnails_from currentAlbum k photos = inr grid ->
  nth_error photos i = Some p ->
  exists t, AlbumView.createPhotoThumbnail currentAlbum p (k + i) = inr t /\
            nth_error grid i = Some t.
Proof.
  induction photos as [|q r IH]; intros k i grid p; cbn [AlbumView.thumbnails_from].
  - intros _ H. destruct i; discriminate H.
  - destruct (AlbumView.createPhotoThumbnail currentAlbum q k) as [e|t] eqn:Et;
      [discriminate|].
    destruct (AlbumView.thumbnails_from currentAlbum (S k) r) as [e|ts] eqn:Er;
      [discriminate|].
    intros E. inversion E; subst grid. destruct i as [|i]; cbn [nth_error].
    + intros Hp. inversion Hp; subst q. exists t. now rewrite Nat.add_0_r.
    + intros Hp. destruct (IH (S k) i ts p Er Hp) as (t' & Ht & Hn).
      exists t'. now rewrite Nat.add_succ_r.
Qed.

Lemma length_thumbnails (currentAlbum : json) (photos : list AlbumView.photo) :
  forall k grid,
  AlbumView.thumbnails_from currentAlbum k photos = inr grid ->
  List.length grid = List.length photos.
Proof.
  induction photos as [|q r IH]; intros k grid; cbn [AlbumView.thumbnails_from].
  - intros E. now inversion E.
  - destruct (AlbumView.createPhotoThumbnail currentAlbum q k); [discriminate|].
    destruct (AlbumView.thumbnails_from currentAlbum (S k) r) as [e|ts] eqn:Er;
      [discriminate|].
    intros E. inversion E. simpl. f_equal. now apply (IH (S k)).
Qed.

(** Where the album name prints, every photo gets its thumbnail. *)
Lemma thumbnails_from_returns (currentAlbum : json) (name : string)
    (photos : list AlbumView.photo) :
  value_to_string (AlbumView.album_property "name" currentAlbum) = inr name ->
  forall k, exists grid, AlbumView.thumbnails_from currentAlbum k photos = inr grid.
Proof.
  intros Hname. induction photos as [|q r IH]; intros k; cbn [AlbumView.thumbnails_from].
  - eauto.
  - unfold AlbumView.createPhotoThumbnail. rewrite Hname.
    destruct (IH (S k)) as [ts ->]. eauto.
Qed.

(** ** The download button *)

(** X15. The download button of a slide offers the original. On the grid that
    [renderPhotoGrid] builds, [addDownloadShareButtons] at the index of the
    slide takes the address of the original of that photo, whatever the
    trigger and the address the slide displays; and for an original at
    [albums/{folder}/full/{name}], [downloadImage] saves it under [name]. *)
Theorem download_url_original (currentAlbum : json) (photos : list AlbumView.photo)
    (grid : list AlbumView.thumbnail_link)
    (i : nat) (p : AlbumView.photo) (trigger : option AlbumView.thumbnail_link)
    (displayUrl : string) :
  AlbumView.thumbnails_from currentAlbum 0 photos = inr grid ->
  nth_error photos i = Some p ->
  AlbumView.original p <> EmptyString ->
  let downloadUrl := Lightbox.download_url grid (Some i) trigger displayUrl in
  downloadUrl = AlbumView.original p /\
  forall albumFolder name,
    AlbumView.original p = "albums/" ++ albumFolder ++ "/full/" ++ name ->
    contains_char "/" name = false ->
    Lightbox.filename_of downloadUrl = name.
Proof.
  intros Hgrid Hp Hne downloadUrl.
  assert (E : downloadUrl = AlbumView.original p).
  { unfold downloadUrl, Lightbox.download_url.
    destruct (nth_error_thumbnails _ _ _ _ _ _ Hgrid Hp) as (t & Ht & ->).
    unfold AlbumView.createPhotoThumbnail in Ht.
    destruct (value_to_string (AlbumView.album_property "name" currentAlbum));
      [discriminate|].
    inversion Ht. cbn [AlbumView.data_original].
    apply String.eqb_neq in Hne. rewrite Hne. cbn [Lightbox.attribute_or]. now rewrite Hne. }
  split; [exact E|].
  intros albumFolder name Ho Hname. rewrite E, Ho. unfold Lightbox.filename_of.
  replace ("albums/" ++ albumFolder ++ "/full/" ++ name)
    with (("albums/" ++ albumFolder ++ "/full") ++ String "/" name)
    by (now rewrite !append_assoc).
  now apply after_last_app.
Qed.

Lemma download_url_original_witness :
  Lightbox.download_url
    [AlbumView.mk_thumbnail_link "albums/trip/low/trip_1.webp"
       (Some "albums/trip/full/trip_1.jpg") "albums/trip/low/trip_1.webp"
       "Trip - Photo 1"]
    (Some 0) None "albums/trip/low/trip_1.webp"
  = "albums/trip/full/trip_1.jpg".
Proof.
  apply (proj1 (download_url_original (JObj [("name", JStr "Trip")])
                  [AlbumView.mk_photo "albums/trip/low/trip_1.webp"
                     "albums/trip/low/trip_1.webp" "albums/trip/full/trip_1.jpg"]
                  _ 0 _ None "albums/trip/low/trip_1.webp"
                  eq_refl eq_refl ltac:(discriminate))).
Defined.

(** ** The metadata as JSON *)

Ltac text_eq :=
  unfold Upload.NL; repeat (rewrite ?append_assoc, ?append_nil_r; cbn [append]);
  reflexivity.

Lemma json_padded_string (before s after : string) :
  sforall is_json_space before = true -> sforall is_json_space after = true ->
  sforall json_plain s = true ->
  json_text (before ++ Upload.quoted s ++ after) (JStr s).
Proof. intros Hb Ha Hs. apply text_padded; auto. now apply text_string. Qed.

Lemma json_member_more (k v ms : string) (fields : list (string * json)) :
  sforall json_plain k = true -> sforall json_plain v = true ->
  json_members ms fields ->
  json_members (Upload.NL ++ "  " ++ Upload.quoted k ++ ": " ++ Upload.quoted v ++ ","
                  ++ ms)
               ((k, JStr v) :: fields).
Proof.
  intros Hk Hv Hms.
  replace (Upload.NL ++ "  " ++ Upload.quoted k ++ ": " ++ Upload.quoted v ++ "," ++ ms)
    with ((Upload.NL ++ "  ") ++ Upload.quoted k ++ EmptyString ++ ":"
            ++ (" " ++ Upload.quoted v ++ EmptyString) ++ "," ++ ms)
    by text_eq.
  apply members_more; [reflexivity | reflexivity | assumption | | assumption].
  now apply json_padded_string.
Qed.

Lemma record_text_denotes (r : string * string) :
  sforall json_plain (fst r) = true -> sforall json_plain (snd r) = true ->
  json_text (record_text r) (record_object r).
Proof.
  intros H1 H2. unfold record_text, record_object.
  replace ("{" ++ Upload.quoted "webp" ++ ": " ++ Upload.quoted (fst r) ++ ", "
               ++ Upload.quoted "ext" ++ ": " ++ Upload.quoted (snd r) ++ "}")
    with ("{" ++ (EmptyString ++ Upload.quoted "webp" ++ EmptyString ++ ":"
                    ++ (" " ++ Upload.quoted (fst r) ++ EmptyString) ++ ","
                    ++ (" " ++ Upload.quoted "ext" ++ EmptyString ++ ":"
                          ++ (" " ++ Upload.quoted (snd r) ++ EmptyString))) ++ "}")
    by text_eq.
  apply text_object.
  - apply members_more; [reflexivity | reflexivity | reflexivity | |].
    + now apply json_padded_string.
    + apply members_one; [reflexivity | reflexivity | reflexivity |].
      now apply json_padded_string.
  - repeat constructor; simpl; intuition discriminate.
Qed.

Lemma record_lines_denote (recs : list (string * string)) :
  forall x,
  (forall r, In r (x :: recs) ->
     sforall json_plain (fst r) = true /\ sforall json_plain (snd r) = true) ->
  json_elements (Upload.NL ++ "    " ++ record_text x
                   ++ more_lines (map record_text recs) ++ Upload.NL ++ "  ")
                (map record_object (x :: recs)).
Proof.
  induction recs as [|y r IH]; intros x H;
    destruct (H x (or_introl eq_refl)) as [H1 H2].
  - cbn [map more_lines].
    replace (Upload.NL ++ "    " ++ record_text x ++ EmptyString ++ Upload.NL ++ "  ")
      with ((Upload.NL ++ "    ") ++ record_text x ++ (Upload.NL ++ "  "))
      by text_eq.
    apply elements_one. apply text_padded; [reflexivity | reflexivity |].
    now apply record_text_denotes.
  - cbn [map more_lines].
    replace (Upload.NL ++ "    " ++ record_text x
               ++ ("," ++ Upload.NL ++ "    " ++ record_text y
                     ++ more_lines (map record_text r)) ++ Upload.NL ++ "  ")
      with (((Upload.NL ++ "    ") ++ record_text x ++ EmptyString) ++ ","
              ++ (Upload.NL ++ "    " ++ record_text y
                    ++ more_lines (map record_text r) ++ Upload.NL ++ "  "))
      by text_eq.
    apply elements_more.
    + apply text_padded; [reflexivity | reflexivity |]. now apply record_text_denotes.
    + apply IH. intros z Hz. apply H. now right.
Qed.

(** The text of the metadata is JSON for the document of the album, where
    the strings it quotes need no escape. *)
Lemma metadata_text_denotes
    (album_name photographer_name timestamp coverPhoto : string)
    (records : list (string * string)) :
  sforall json_plain album_name = true ->
  sforall json_plain photographer_name = true ->
  sforall json_plain timestamp = true ->
  sforall json_plain coverPhoto = true ->
  records <> [] ->
  (forall r, In r records ->
     sforall json_plain (fst r) = true /\ sforall json_plain (snd r) = true) ->
  json_text (metadata_text album_name photographer_name timestamp coverPhoto records)
            (album_document album_name photographer_name timestamp coverPhoto records).
Proof.
  intros Hn Hp Ht Hc Hne Hr. destruct records as [|x recs]; [contradiction|].
  unfold metadata_text, album_document. cbn [lines_text map].
  set (elements := Upload.NL ++ "    " ++ record_text x
                     ++ more_lines (map record_text recs) ++ Upload.NL ++ "  ").
  match goal with
  | |- json_text ?text _ =>
      replace text
        with (EmptyString
                ++ ("{"
                      ++ (Upload.NL ++ "  " ++ Upload.quoted "name" ++ ": "
                            ++ Upload.quoted album_name ++ ","
                            ++ Upload.NL ++ "  " ++ Upload.quoted "photographer" ++ ": "
                            ++ Upload.quoted photographer_name ++ ","
                            ++ Upload.NL ++ "  " ++ Upload.quoted "date" ++ ": "
                            ++ Upload.quoted timestamp ++ ","
                            ++ Upload.NL ++ "  " ++ Upload.quoted "coverPhoto" ++ ": "
                            ++ Upload.quoted coverPhoto ++ ","
                            ++ ((Upload.NL ++ "  ") ++ Upload.quoted "photos"
                                  ++ EmptyString ++ ":"
                                  ++ (" " ++ ("[" ++ elements ++ "]") ++ Upload.NL)))
                      ++ "}")
                ++ Upload.NL)
        by (unfold elements; text_eq)
  end.
  apply text_padded; [reflexivity | reflexivity |].
  apply text_object; [|repeat constructor; simpl; intuition discriminate].
  repeat (apply json_member_more; [reflexivity | assumption |]).
  apply members_one; [reflexivity | reflexivity | reflexivity |].
  apply text_padded; [reflexivity | reflexivity |].
  apply text_array. now apply record_lines_denote.
Qed.

Lemma alnum_json_plain (c : ascii) : alnum_or_underscore c = true -> json_plain c = true.
Proof. each_byte c. Qed.

Lemma webp_name_json_plain (album_name : string) (i : nat) :
  sforall json_plain (webp_name (to_snake_case album_name) i) = true.
Proof.
  unfold webp_name. rewrite sforall_app.
  rewrite (sforall_impl alnum_or_underscore json_plain _ alnum_json_plain
             (base_name_class album_name i)).
  reflexivity.
Qed.

Lemma extension_json_plain (name : string) :
  Upload.is_photo_name name = true -> sforall json_plain (extension_of name) = true.
Proof.
  intros H. destruct (extension_of_photo name H) as [->|[->| ->]]; reflexivity.
Qed.

(** What a completed run inside the album directory wrote to [data.json]. *)
Lemma process_album_dir_metadata
    (ffmpeg : string -> option string) (echo_e : string -> string)
    (album_path album_name photographer_name timestamp : string) (random : nat)
    (album album' : dir) (photo_data : list string) :
  expands_newlines echo_e ->
  raw_album album ->
  Upload.find_photos album <> [] ->
  Upload.process_album_dir ffmpeg echo_e album_path album_name photographer_name
    timestamp random album = Ok (album', photo_data) ->
  let records := photo_records (to_snake_case album_name) (Upload.find_photos album) in
  exists coverPhoto,
    lookup "data.json" album' =
      Some (File (metadata_text album_name photographer_name timestamp coverPhoto
                    records)) /\
    In coverPhoto (map fst records) /\
    records <> [] /\
    forall r, In r records ->
      sforall json_plain (fst r) = true /\ sforall json_plain (snd r) = true.
Proof.
  intros Hecho Hraw Hsome Hpub records.
  destruct (process_album_dir_ok ffmpeg echo_e _ _ _ _ _ _ _ _ Hraw Hpub)
    as (_ & _ & Hdata & _ & _ & Hjson & _).
  set (photos := Upload.find_photos album) in *.
  assert (Hitems : forall ip, In ip (numbered 1 photos) ->
            Upload.is_photo_name (snd ip) = true).
  { intros ip Hip. apply in_numbered in Hip as [_ Hip].
    apply find_photos_in in Hip as (c & _ & Hp). exact Hp. }
  assert (Hfields : map photo_fields photo_data = records).
  { rewrite Hdata, map_map. apply map_ext_in. intros ip Hip.
    apply photo_fields_data_entry. auto. }
  assert (Hplain : forall e, In e photo_data ->
            contains_char "\" (fst (photo_fields e)) = false /\
            contains_char "\" (snd (photo_fields e)) = false).
  { intros e He. rewrite Hdata in He. apply in_map_iff in He as (ip & <- & Hip).
    rewrite photo_fields_data_entry by auto. cbn [fst snd]. split.
    - unfold webp_name. rewrite contains_char_app, base_name_avoids by reflexivity.
      reflexivity.
    - apply extension_no_backslash. auto. }
  exists (Upload.cover_photo random photo_data). split; [|split; [|split]].
  - rewrite Hjson, (data_json_written echo_e _ _ _ _ _ Hecho Hplain), Hfields.
    reflexivity.
  - unfold records, photo_records. rewrite map_map. cbn [fst]. rewrite Hdata.
    apply cover_photo_in. fold photos.
    destruct photos; [contradiction Hsome; reflexivity | discriminate].
  - unfold records, photo_records. fold photos.
    destruct photos; [contradiction Hsome; reflexivity | discriminate].
  - intros r Hr. unfold records, photo_records in Hr. fold photos in Hr.
    apply in_map_iff in Hr as (ip & <- & Hip). cbn [fst snd]. split.
    + apply webp_name_json_plain.
    + apply extension_json_plain. auto.
Qed.

(** X17. The metadata that publishing writes is JSON. After a run of
    [process_album] that ends normally on a raw album, with [echo -e]
    turning each [\n] of the script into a newline, and for an album name, a
    photographer name and a timestamp of printable ASCII without a quote and
    without a backslash, the file [data.json] of the album is a JSON text;
    its value is the object with the name, the photographer, the date and
    the cover photo, and with a [photos] array of one record
    [{webp, ext}] per photo in the order of publishing, the cover photo
    being the webp name of one of the records. *)
Theorem process_album_metadata_denotes
    (ffmpeg : string -> option string) (echo_e : string -> string)
    (albums album albums' : dir)
    (album_dir_name album_name photographer_name timestamp : string)
    (random n : nat) :
  expands_newlines echo_e ->
  lookup album_dir_name albums = Some (Dir album) ->
  raw_album album ->
  sforall json_plain album_name = true ->
  sforall json_plain photographer_name = true ->
  sforall json_plain timestamp = true ->
  Upload.process_album ffmpeg echo_e albums album_dir_name album_name
    photographer_name timestamp random = Upload.Processed albums' n ->
  let folderName := to_snake_case album_name in
  let records := photo_records folderName (Upload.find_photos album) in
  exists (published : dir) (text coverPhoto : string),
    album_at albums' folderName album_dir_name published /\
    lookup "data.json" published = Some (File text) /\
    json_text text
      (album_document album_name photographer_name timestamp coverPhoto records) /\
    List.length records = n /\
    In coverPhoto (map fst records).
Proof.
  intros Hecho Hdir Hraw Hn Hp Ht Hrun folderName records.
  destruct (process_album_processed _ _ _ _ _ _ _ _ _ _ _ Hdir Hrun)
    as (-> & HN & album' & photo_data & Hpub & Hat & _).
  assert (Hsome : Upload.find_photos album <> []).
  { intros E. rewrite E in HN. now apply HN. }
  destruct (process_album_dir_metadata _ _ _ _ _ _ _ _ _ _ Hecho Hraw Hsome Hpub)
    as (coverPhoto & Hjson & Hcover & Hne & Hplain).
  exists album', (metadata_text album_name photographer_name timestamp coverPhoto records),
    coverPhoto.
  split; [exact Hat|]. split; [exact Hjson|]. split; [|split].
  - apply metadata_text_denotes; try assumption.
    apply in_map_iff in Hcover as (r & <- & Hr). now apply Hplain.
  - unfold records, photo_records. rewrite length_map. apply length_numbered.
  - exact Hcover.
Qed.

Lemma process_album_metadata_denotes_witness :
  exists text,
    json_text text
      (album_document "Trip" "Bob" "2024-01-01T00:00:00Z" "trip_1.webp"
         [("trip_1.webp", "jpg")]).
Proof.
  destruct (process_album_metadata_denotes (fun c => Some c)
              (fun s => expand_newline_escapes s ++ Upload.NL)
              [("Trip", Dir [("a.jpg", File "aaa")])]
              [("a.jpg", File "aaa")]
              [("trip", Dir [("low", Dir [("trip_1.webp", File "aaa")]);
                             ("full", Dir [("trip_1.jpg", File "aaa")]);
                             ("data.json",
                              File (metadata_text "Trip" "Bob" "2024-01-01T00:00:00Z"
                                      "trip_1.webp" [("trip_1.webp", "jpg")]))])]
              "Trip" "Trip" "Bob" "2024-01-01T00:00:00Z" 0 1
              (fun s _ _ => eq_refl) eq_refl (conj eq_refl (conj eq_refl eq_refl))
              eq_refl eq_refl eq_refl eq_refl)
    as (published & text & coverPhoto & _ & _ & Htext & _ & Hcover).
  destruct Hcover as [<-|[]].
  exists text. exact Htext.
Defined.

(** ** A published album on its page *)

Lemma lookup_nodup (d : dir) (k : string) (v : node) :
  NoDup (map fst d) -> In (k, v) d -> lookup k d = Some v.
Proof.
  induction d as [|[k' n] r IH]; simpl; [intros _ []|].
  intros Hnd. inversion Hnd as [|? ? Hnot Hnd']; subst.
  destruct (String.eqb_spec k' k) as [->|Hne].
  - intros [E|Hin]; [now inversion E|].
    exfalso. apply Hnot. now apply (in_map fst) in Hin.
  - intros [E|Hin]; [inversion E; congruence | now apply IH].
Qed.

Lemma low_names_nodup (ffmpeg : string -> option string) (folder : string) (album0 : dir)
    (names : list string) (start : nat) :
  NoDup (map fst (map (low_entry ffmpeg folder album0) (numbered start names))).
Proof.
  revert start. induction names as [|n r IH]; intros start; simpl; constructor; [|apply IH].
  rewrite map_map. intros H. apply in_map_iff in H as (ip & E & Hip).
  apply in_numbered in Hip as [Hip _]. simpl in E.
  apply webp_name_inj in E. lia.
Qed.

Lemma nth_error_numbered (names : list string) :
  forall start i,
  nth_error (numbered start names) i
  = option_map (fun p => (start + i, p)) (nth_error names i).
Proof.
  induction names as [|n r IH]; intros start i.
  - now destruct i.
  - destruct i as [|i]; cbn [numbered nth_error option_map].
    + now rewrite Nat.add_0_r.
    + rewrite IH. now rewrite Nat.add_succ_r.
Qed.

Lemma load_photo_published (album_name : string) (ip : nat * string) :
  AlbumView.load_photo (to_snake_case album_name)
    (record_object (webp_name (to_snake_case album_name) (fst ip), extension_of (snd ip)))
  = inr (published_photo (to_snake_case album_name) ip).
Proof.
  unfold record_object. cbn [fst snd].
  rewrite (load_photo_structured _ (webp_name (to_snake_case album_name) (fst ip))
             (extension_of (snd ip))); [|reflexivity| |reflexivity].
  - unfold structured_photo, published_photo, full_name, webp_name.
    rewrite replace_first_webp by (now apply base_name_avoids). reflexivity.
  - unfold webp_name. destruct (base_name (to_snake_case album_name) (fst ip)); discriminate.
Qed.

Lemma map_photos_published (album_name : string) (photos : list string) :
  forall start,
  AlbumView.map_photos (to_snake_case album_name)
    (map record_object
       (map (fun ip => (webp_name (to_snake_case album_name) (fst ip),
                        extension_of (snd ip)))
            (numbered start photos)))
  = inr (map (published_photo (to_snake_case album_name)) (numbered start photos)).
Proof.
  induction photos as [|p r IH]; intros start; [reflexivity|].
  cbn [numbered map AlbumView.map_photos].
  rewrite (load_photo_published album_name (start, p)), IH. reflexivity.
Qed.

(** X16. The album page of a published album. Take a raw album that
    [process_album] published under a free and non-empty folder name, with
    an album name, a photographer name and a timestamp of printable ASCII
    without a quote and without a backslash. The [data.json] that publishing
    wrote is JSON for a document with which the page comes out as follows,
    whenever the request for [data.json] is answered with that document:
    [initAlbumView] shows the name, the photographer and the date of the
    album and one thumbnail per photo, in the order of publishing; the i-th
    thumbnail displays the file [{folder}_{i}.webp] that is in [low/], and
    names as its original for the download the file [{folder}_{i}.{ext}] of
    [full/], which holds the bytes of the i-th photo. *)
Theorem published_album_view
    (Date_parse : string -> option Z)
    (ffmpeg : string -> option string) (echo_e : string -> string)
    (albums album albums' : dir)
    (album_dir_name album_name photographer_name timestamp : string)
    (random n : nat) :
  expands_newlines echo_e ->
  lookup album_dir_name albums = Some (Dir album) ->
  raw_album album ->
  album_dir_name = to_snake_case album_name
    \/ lookup (to_snake_case album_name) albums = None ->
  Upload.process_album ffmpeg echo_e albums album_dir_name album_name
    photographer_name timestamp random = Upload.Processed albums' n ->
  let folderName := to_snake_case album_name in
  let photos := Upload.find_photos album in
  folderName <> EmptyString ->
  sforall json_plain album_name = true ->
  sforall json_plain photographer_name = true ->
  sforall json_plain timestamp = true ->
  exists (published low full : dir) (text : string) (document : json),
    lookup folderName albums' = Some (Dir published) /\
    lookup "low" published = Some (Dir low) /\
    lookup "full" published = Some (Dir full) /\
    lookup "data.json" published = Some (File text) /\
    json_text text document /\
    forall (fetch : network) (response : response),
      fetch ("albums/" ++ folderName ++ "/data.json") = Some response ->
      ok response = true ->
      body response = Some document ->
      exists grid : list AlbumView.thumbnail_link,
        AlbumView.initAlbumView Date_parse fetch (Some folderName)
        = AlbumView.AlbumPage album_name photographer_name (Date_parse timestamp) grid /\
        List.length grid = n /\
        forall i p, nth_error photos i = Some p ->
          exists link,
            nth_error grid i = Some link /\
            AlbumView.href link
            = "albums/" ++ folderName ++ "/low/" ++ webp_name folderName (S i) /\
            AlbumView.img_src link = AlbumView.href link /\
            AlbumView.img_alt link = album_name ++ " - Photo " ++ dec (S i) /\
            AlbumView.data_original link
            = Some ("albums/" ++ folderName ++ "/full/"
                      ++ full_name folderName (S i) (extension_of p)) /\
            lookup (webp_name folderName (S i)) low
            = Some (File (thumb_of ffmpeg (content_of album p))) /\
            lookup (full_name folderName (S i) (extension_of p)) full
            = Some (File (content_of album p)).
Proof.
  intros Hecho Hdir Hraw Hfree Hrun folderName photos Hfolder Hn Hp Ht.
  destruct (process_album_processed _ _ _ _ _ _ _ _ _ _ _ Hdir Hrun)
    as (-> & HN & album' & photo_data & Hpub & _ & Hloc).
  specialize (Hloc Hfree). fold folderName in Hloc. fold photos in HN.
  assert (Hsome : Upload.find_photos album <> []).
  { intros E. fold photos in E. rewrite E in HN. now apply HN. }
  destruct (process_album_dir_ok ffmpeg echo_e _ _ _ _ _ _ _ _ Hraw Hpub)
    as (_ & _ & _ & Hlow & Hfull & _).
  fold folderName photos in Hlow, Hfull.
  destruct (process_album_dir_metadata _ _ _ _ _ _ _ _ _ _ Hecho Hraw Hsome Hpub)
    as (coverPhoto & Hjson & Hcover & Hne & Hplain).
  fold folderName photos in Hjson, Hcover, Hne, Hplain.
  set (records := photo_records folderName photos) in *.
  exists album', (map (low_entry ffmpeg folderName album) (numbered 1 photos)),
    (map (full_entry folderName album) (numbered 1 photos)),
    (metadata_text album_name photographer_name timestamp coverPhoto records),
    (album_document album_name photographer_name timestamp coverPhoto records).
  split; [exact Hloc|]. split; [exact Hlow|]. split; [exact Hfull|].
  split; [exact Hjson|]. split.
  { apply metadata_text_denotes; try assumption.
    apply in_map_iff in Hcover as (r & <- & Hr). now apply Hplain. }
  intros fetch response Hfetch Hok Hbody.
  remember (map (published_photo folderName) (numbered 1 photos)) as viewed eqn:Eviewed.
  assert (Hviewed : viewed <> []).
  { intros E. rewrite E in Eviewed. symmetry in Eviewed. apply map_eq_nil in Eviewed.
    apply (f_equal (@List.length _)) in Eviewed. rewrite length_numbered in Eviewed.
    now apply HN. }
  set (currentAlbum :=
         JObj [("name", JStr album_name); ("photographer", JStr photographer_name);
               ("date", JStr timestamp); ("coverPhoto", JStr coverPhoto);
               ("photos", JArr (map record_object records));
               ("folderName", JStr folderName)]).
  assert (Hload : AlbumView.loadAlbum fetch folderName = inr currentAlbum).
  { unfold AlbumView.loadAlbum. rewrite Hfetch, Hok, Hbody. reflexivity. }
  assert (Hphotos : AlbumView.loadPhotos currentAlbum folderName = inr viewed).
  { unfold AlbumView.loadPhotos.
    change (get "photos" currentAlbum)
      with (@inr exn _ (Some (JArr (map record_object records)))).
    cbn [truthy negb].
    destruct (map record_object records) as [|r0 rs] eqn:Er.
    - destruct records; [contradiction | discriminate Er].
    - rewrite <- Er, Eviewed. unfold records, photo_records, folderName.
      now rewrite map_photos_published. }
  destruct (thumbnails_from_returns currentAlbum album_name viewed eq_refl 0)
    as [grid Hgrid].
  exists grid. split; [|split].
  - unfold AlbumView.initAlbumView. apply String.eqb_neq in Hfolder.
    rewrite Hfolder, Hload, Hphotos. unfold AlbumView.render.
    change (AlbumView.renderAlbumHeader Date_parse currentAlbum)
      with (@inr exn _ (album_name, Date_parse timestamp, photographer_name)).
    cbv iota. rewrite Hgrid.
    destruct viewed as [|v r]; [contradiction | reflexivity].
  - rewrite (length_thumbnails _ _ _ _ Hgrid), Eviewed.
    rewrite length_map. apply length_numbered.
  - intros i p Hpi.
    assert (Hip : nth_error (numbered 1 photos) i = Some (S i, p)).
    { rewrite nth_error_numbered, Hpi. reflexivity. }
    assert (Hin : In (S i, p) (numbered 1 photos)) by (eapply nth_error_In; eassumption).
    assert (Hv : nth_error viewed i = Some (published_photo folderName (S i, p))).
    { rewrite Eviewed, nth_error_map, Hip. reflexivity. }
    destruct (nth_error_thumbnails _ _ _ _ _ _ Hgrid Hv) as (link & Hlink & Hnth).
    exists link. split; [exact Hnth|].
    unfold AlbumView.createPhotoThumbnail in Hlink.
    change (value_to_string (AlbumView.album_property "name" currentAlbum))
      with (@inr exn _ album_name) in Hlink.
    inversion Hlink; subst link. clear Hlink.
    split; [reflexivity|]. split; [reflexivity|]. split.
    { cbn [AlbumView.img_alt]. now rewrite Nat.add_1_r. }
    split; [reflexivity|]. split.
    + apply lookup_nodup; [apply low_names_nodup|].
      apply (in_map (low_entry ffmpeg folderName album)) in Hin. exact Hin.
    + apply lookup_nodup; [apply full_names_nodup|].
      apply (in_map (full_entry folderName album)) in Hin. exact Hin.
Qed.

Lemma published_album_view_witness :
  exists text document,
    lookup "data.json"
      [("low", Dir [("trip_1.webp", File "aaa")]);
       ("full", Dir [("trip_1.jpg", File "aaa")]);
       ("data.json",
        File (metadata_text "Trip" "Bob" "2024-03-01T00:00:00Z" "trip_1.webp"
                [("trip_1.webp", "jpg")]))] = Some (File text) /\
    json_text text document /\
    exists grid,
      AlbumView.initAlbumView example_dates
        (fun _ => Some (mk_response true 200 (Some document))) (Some "trip")
      = AlbumView.AlbumPage "Trip" "Bob" (Some 1709251200000%Z) grid /\
      List.length grid = 1.
Proof.
  destruct (published_album_view example_dates (fun c => Some c)
              (fun s => expand_newline_escapes s ++ Upload.NL)
              [("Trip", Dir [("a.jpg", File "aaa")])]
              [("a.jpg", File "aaa")]
              [("trip", Dir [("low", Dir [("trip_1.webp", File "aaa")]);
                             ("full", Dir [("trip_1.jpg", File "aaa")]);
                             ("data.json",
                              File (metadata_text "Trip" "Bob" "2024-03-01T00:00:00Z"
                                      "trip_1.webp" [("trip_1.webp", "jpg")]))])]
              "Trip" "Trip" "Bob" "2024-03-01T00:00:00Z" 0 1
              (fun s _ _ => eq_refl) eq_refl (conj eq_refl (conj eq_refl eq_refl))
              (or_intror eq_refl) eq_refl ltac:(discriminate) eq_refl eq_refl eq_refl)
    as (published & low & full & text & document & Hpub & _ & _ & Htext & Hdoc & Hpage).
  vm_compute in Hpub. inversion Hpub; subst published.
  exists text, document. split; [exact Htext|]. split; [exact Hdoc|].
  destruct (Hpage (fun _ => Some (mk_response true 200 (Some document)))
              (mk_response true 200 (Some document)) eq_refl eq_refl eq_refl)
    as (grid & Hshown & Hlen & _).
  exists grid. split; assumption.
Defined.

(** ** The album page without an album *)

Lemma field_set_field_neq (name k : string) (v : json) (fields : list (string * json)) :
  k <> name ->
  field k (AlbumView.set_field name v fields) = field k fields.
Proof.
  intros Hne. induction fields as [|[k' w] r IH]; simpl.
  - destruct (String.eqb_spec name k); [congruence | reflexivity].
  - destruct (String.eqb_spec k' name) as [->|Hk]; simpl.
    + destruct (String.eqb_spec name k); [congruence | reflexivity].
    + destruct (String.eqb_spec k' k); [reflexivity | exact IH].
Qed.

(** X18. When the album page has nothing to show. Without an album in the
    address, or with an empty one, [initAlbumView] asks the network nothing
    and reports that no album was specified. When the request for
    [data.json] is answered with a failure status, the page shows the error
    with that status. When the metadata is an object whose [photos] is
    missing or an empty array, the page shows the error that no photos were
    found. In none of these cases it shows a grid. *)
Theorem initAlbumView_failures (Date_parse : string -> option Z) (fetch : network) :
  (forall albumFolder,
     albumFolder = None \/ albumFolder = Some EmptyString ->
     forall other, AlbumView.initAlbumView Date_parse other albumFolder
     = AlbumView.ErrorPage "No album specified in URL" None) /\
  (forall folder response,
     folder <> EmptyString ->
     fetch ("albums/" ++ folder ++ "/data.json") = Some response ->
     ok response = false ->
     AlbumView.initAlbumView Date_parse fetch (Some folder)
     = AlbumView.ErrorPage "Failed to load album: "
         (Some (Rethrown "Could not load album data: "
                  (Error ("HTTP error! status: " ++ dec (status response)))))) /\
  (forall folder response fields,
     folder <> EmptyString ->
     fetch ("albums/" ++ folder ++ "/data.json") = Some response ->
     ok response = true ->
     body response = Some (JObj fields) ->
     field "photos" fields = None \/ field "photos" fields = Some (JArr []) ->
     AlbumView.initAlbumView Date_parse fetch (Some folder)
     = AlbumView.ErrorPage "Failed to load album: "
         (Some (Rethrown "Could not load photos: "
                  (Error "No photos found in album data")))).
Proof.
  split; [|split].
  - intros albumFolder [->| ->] other; reflexivity.
  - intros folder response Hfolder Hfetch Hok. apply String.eqb_neq in Hfolder.
    unfold AlbumView.initAlbumView, AlbumView.loadAlbum.
    now rewrite Hfolder, Hfetch, Hok.
  - intros folder response fields Hfolder Hfetch Hok Hbody Hphotos.
    apply String.eqb_neq in Hfolder.
    unfold AlbumView.initAlbumView, AlbumView.loadAlbum.
    rewrite Hfolder, Hfetch, Hok, Hbody. cbn [negb].
    unfold AlbumView.loadPhotos. cbn [get].
    rewrite field_set_field_neq by discriminate.
    destruct Hphotos as [-> | ->]; reflexivity.
Qed.

Lemma initAlbumView_failures_witness :
  AlbumView.initAlbumView example_dates
    (fun _ => Some (mk_response false 404 None)) (Some "trip")
  = AlbumView.ErrorPage "Failed to load album: "
      (Some (Rethrown "Could not load album data: " (Error "HTTP error! status: 404"))).
Proof.
  apply (proj1 (proj2 (initAlbumView_failures example_dates
                         (fun _ => Some (mk_response false 404 None))))
           "trip" (mk_response false 404 None));
    [discriminate | reflexivity | reflexivity].
Defined.
